(** * Disaster Response Coordination Platform: cache, classifiers and handlers

    A shallow embedding of the parts of the Express/Supabase back end that
    the specification makes claims about:

    - [src/utils/cache.js]            the cache-through store ([Cache]);
    - [routes/socialMedia.js]         the keyword priority classifier ([SocialMedia]);
    - [src/routes/verification.js]    mock and bulk image verification ([Verification]);
    - [src/routes/resources.js]       the in-process proximity query ([Proximity])
                                      and the resource mutation handlers ([Handlers]);
    - [routes/disasters.js]           the disaster mutation handlers ([Handlers]);

    and of further parts of the same files: the resource types of a
    disaster ([ResourceTypes]), the centre of a proximity query ([Centre]),
    the hashtags and the priority board of social-media reports
    ([Reports]), the read routes of disasters ([Queries]), the single-image
    verification route on the whole request ([VerifyRequest]) and the text
    of a cache key ([Base64]).

    Conventions.  Instants are integers in milliseconds since the epoch (what
    [Date.now()] returns).  [Date] represents those at most 8.64e15 ms from
    the epoch; asking for the ISO-8601 text of any other throws.  The text
    of an instant round-trips through the store, so an [expires_at] column
    is kept as its instant.  Strings are sequences of 8-bit characters and
    letter case is that of ASCII.  JSON numbers are rationals; the haversine
    computation, which needs [sin], [cos], [atan2] and [sqrt], is carried out
    over the real numbers, so the rounding of floating-point arithmetic is
    left out.  Objects are values: two objects with the same properties are
    the same object.  Every call to an external collaborator (the Supabase
    client, the vision model, the clock, the random generator) is an
    explicit input of the function that makes the call, and a store call
    that is not served leaves the store as it was.

    The file has three parts: the program, the vocabulary in which its
    properties are stated, and the properties. *)

From Stdlib Require Import ZArith QArith Reals Lra Lia List Sorted String Ascii Bool.
From stdpp Require Import gmap strings.
Import ListNotations.

Local Open Scope string_scope.
Local Open Scope Z_scope.

(** ** Outcomes of JavaScript computations

    A JavaScript call either returns or throws.  [try_catch] is the
    [try { ... } catch (error) { ... }] statement. *)

Inductive exn : Type :=
| StoreError      (** the [error] member of a Supabase reply *)
| NetworkError    (** the client call itself rejected *)
| TypeError       (** property access on [null] or [undefined] *)
| RangeError.

Inductive outcome (A : Type) : Type :=
| Returns (a : A)
| Throws (e : exn).
Arguments Returns {A} a.
Arguments Throws {A} e.

(** How the store answers one call: it carries the call out, it replies
    with an [error] member, or the call throws. *)
Inductive fault : Type := Served | Errored | Thrown.

(** ** JavaScript strings *)

Definition lower_char (c : ascii) : ascii :=
  let n := nat_of_ascii c in
  if ((65 <=? n)%nat && (n <=? 90)%nat)%bool then ascii_of_nat (n + 32) else c.

(** [String.prototype.toLowerCase] *)
Fixpoint toLowerCase (s : string) : string :=
  match s with
  | EmptyString => EmptyString
  | String c rest => String (lower_char c) (toLowerCase rest)
  end.

(** [s.startsWith(p)] *)
Fixpoint startsWith (s p : string) : bool :=
  match p, s with
  | EmptyString, _ => true
  | String _ _, EmptyString => false
  | String a p', String b s' => (Ascii.eqb a b && startsWith s' p')%bool
  end.

(** [String.prototype.includes]: [p] occurs in [s] at some position. *)
Fixpoint includes (s p : string) : bool :=
  (startsWith s p ||
   match s with
   | EmptyString => false
   | String _ rest => includes rest p
   end)%bool.

(** [Array.prototype.some] *)
Definition some {A} (f : A -> bool) (l : list A) : bool := existsb f l.

(** ** JavaScript values

    The values that travel through request bodies, store replies and
    responses.  An object is the list of its own properties in insertion
    order.  [NaN] and the infinities are not represented. *)

#[warnings="-register-all"] Inductive jsval : Type :=
| JUndefined
| JNull
| JBool (b : bool)
| JNum (q : Q)
| JStr (s : string)
| JArr (items : list jsval)
| JObj (fields : list (string * jsval)).

(** [!!v] *)
Definition truthy (v : jsval) : bool :=
  match v with
  | JUndefined | JNull => false
  | JBool b => b
  | JNum q => negb (Qeq_bool q 0)
  | JStr s => negb (String.eqb s "")
  | JArr _ | JObj _ => true
  end.

(** [a || b] *)
Definition js_or (a b : jsval) : jsval := if truthy a then a else b.

Fixpoint lookup_field (k : string) (fields : list (string * jsval)) : jsval :=
  match fields with
  | [] => JUndefined
  | (k', v) :: rest => if String.eqb k' k then v else lookup_field k rest
  end.

(** [v.k] for a [v] that is neither [null] nor [undefined] (on those the
    access throws, which the callers below spell out where it can happen). *)
Definition get_prop (v : jsval) (k : string) : jsval :=
  match v with
  | JObj fields => lookup_field k fields
  | _ => JUndefined
  end.

Fixpoint assign_field (k : string) (v : jsval) (fields : list (string * jsval))
  : list (string * jsval) :=
  match fields with
  | [] => [(k, v)]
  | (k', v') :: rest =>
      if String.eqb k' k then (k, v) :: rest else (k', v') :: assign_field k v rest
  end.

(** [o.k = v] on (a copy of) the object [o]. *)
Definition set_prop (o : jsval) (k : string) (v : jsval) : jsval :=
  match o with
  | JObj fields => JObj (assign_field k v fields)
  | _ => o
  end.

(** [{ ...v }]: the own properties of an object, none for the other values
    met here. *)
Definition spread (v : jsval) : list (string * jsval) :=
  match v with
  | JObj fields => fields
  | _ => []
  end.

(** [v === s] for a string literal [s] *)
Definition is_string (v : jsval) (s : string) : bool :=
  match v with
  | JStr s' => String.eqb s' s
  | _ => false
  end.

(** [Object.keys(o)] *)
Definition keys (o : jsval) : list jsval :=
  match o with
  | JObj fields => map (fun kv => JStr (fst kv)) fields
  | _ => []
  end.

(** ** Responses and broadcast events *)

(** [res.status(status).json(body)] *)
Record response : Type := { status : Z; body : jsval }.

(** [io.emit(...)] reaches every connected socket, [io.to(room).emit(...)]
    the sockets that joined [room]. *)
Inductive audience : Type :=
| Everyone
| Room (room : string).

(** [emit(name, payload)] to an audience. *)
Record event : Type := { to : audience; name : string; payload : jsval }.

(** * The cache-through store *)

Module Cache.

Section Service.

(** The cached documents: the contents of column [value JSONB NOT NULL].
    The cache never inspects them. *)
Context {value : Type}.

(** A row of table [cache], restricted to the columns [get] selects. *)
Record row : Type := Row { r_value : value; r_expires_at : Z }.

(** Computations over the table that may throw. *)
Definition M (A : Type) : Type := gmap string row -> outcome A * gmap string row.

(** [return], [throw], sequencing and [try]/[catch]. *)
Definition ret {A} (a : A) : M A := fun t => (Returns a, t).
Definition throw {A} (e : exn) : M A := fun t => (Throws e, t).
Definition bind {A B} (m : M A) (k : A -> M B) : M B :=
  fun t => match m t with
           | (Returns a, t') => k a t'
           | (Throws e, t') => (Throws e, t')
           end.
Definition try_catch {A} (body : M A) (handler : exn -> M A) : M A :=
  fun t => match body t with
           | (Returns a, t') => (Returns a, t')
           | (Throws e, t') => handler e t'
           end.

Notation "x <- m ;; k" := (bind m (fun x => k))
  (at level 100, m at next level, right associativity).

(** *** The Supabase calls made by the service

    A call that is not served leaves the table as it was. *)

(** [supabase.from('cache').select('value, expires_at').eq('key', key).single()];
    [single()] replies with an error when no row matches. *)
Definition select_single (f : fault) (key : string)
  : M (option row * option exn) :=
  fun t => match f with
           | Served => match t !! key with
                       | Some r => (Returns (Some r, None), t)
                       | None => (Returns (None, Some StoreError), t)
                       end
           | Errored => (Returns (None, Some StoreError), t)
           | Thrown => (Throws NetworkError, t)
           end.

(** [supabase.from('cache').upsert({ key, value, expires_at })] *)
Definition upsert (f : fault) (key : string) (v : value) (expires_at : Z)
  : M (option exn) :=
  fun t => match f with
           | Served => (Returns None, <[key := Row v expires_at]> t)
           | Errored => (Returns (Some StoreError), t)
           | Thrown => (Throws NetworkError, t)
           end.

(** [supabase.from('cache').delete().eq('key', key)] *)
Definition delete_eq (f : fault) (key : string) : M (option exn) :=
  fun t => match f with
           | Served => (Returns None, base.delete key t)
           | Errored => (Returns (Some StoreError), t)
           | Thrown => (Throws NetworkError, t)
           end.

(** [supabase.from('cache').delete().lt('expires_at', now)] *)
Definition delete_lt (f : fault) (now : Z) : M (option exn) :=
  fun t => match f with
           | Served =>
               (Returns None,
                filter (fun kr => negb (r_expires_at (snd kr) <? now)) t)
           | Errored => (Returns (Some StoreError), t)
           | Thrown => (Throws NetworkError, t)
           end.

(** *** class CacheService *)

Record CacheService : Type := { defaultTTL : Z }.

(** [this.defaultTTL = parseInt(process.env.CACHE_TTL) || 3600]; the
    argument is the result of [parseInt], [None] standing for [NaN]. *)
Definition new_CacheService (CACHE_TTL : option Z) : CacheService :=
  {| defaultTTL := match CACHE_TTL with
                   | Some n => if n =? 0 then 3600 else n
                   | None => 3600
                   end |}.

(** [async delete(key)] *)
Definition delete (f : fault) (key : string) : M bool :=
  try_catch
    (error <- delete_eq f key ;;
     match error with
     | Some e => throw e
     | None => ret true
     end)
    (fun _ => ret false).

(** [async get(key)]; [now] is the instant read by [new Date()], [f_sel]
    and [f_del] are the store's behaviour on the select and on the delete
    of an expired row.  [None] is JavaScript's [null]. *)
Definition get (now : Z) (f_sel f_del : fault) (key : string)
  : M (option value) :=
  try_catch
    (reply <- select_single f_sel key ;;
     match reply with
     | (Some data, None) =>
         if r_expires_at data <? now
         then (_ <- delete f_del key ;; ret None)
         else ret (Some (r_value data))
     | _ => ret None
     end)
    (fun _ => ret None).

(** [const ttl = ttlSeconds || this.defaultTTL] *)
Definition effective_ttl (c : CacheService) (ttlSeconds : option Z) : Z :=
  match ttlSeconds with
  | Some n => if n =? 0 then defaultTTL c else n
  | None => defaultTTL c
  end.

(** The time values of [Date]: at most 8.64e15 ms from the epoch.
    [new Date(ms)] for any other [ms] is an invalid date. *)
Definition max_time : Z := 8640000000000000.

Definition valid_time (ms : Z) : bool := Z.abs ms <=? max_time.

(** [new Date(ms).toISOString()]: throws [RangeError] on an invalid date.
    The text stands for its instant. *)
Definition toISOString (ms : Z) : M Z :=
  if valid_time ms then ret ms else throw RangeError.

(** [async set(key, value, ttlSeconds = null)]; [now] is [Date.now()].  The
    text of [expiresAt] is computed while the argument of [upsert] is built,
    before the store is called. *)
Definition set (c : CacheService) (now : Z) (f_up : fault)
    (key : string) (v : value) (ttlSeconds : option Z) : M bool :=
  try_catch
    (let ttl := effective_ttl c ttlSeconds in
     let expiresAt := now + ttl * 1000 in
     expires_at <- toISOString expiresAt ;;
     error <- upsert f_up key v expires_at ;;
     match error with
     | Some e => throw e
     | None => ret true
     end)
    (fun _ => ret false).

(** [async clear()] *)
Definition clear (now : Z) (f : fault) : M bool :=
  try_catch
    (error <- delete_lt f now ;;
     match error with
     | Some e => throw e
     | None => ret true
     end)
    (fun _ => ret false).

End Service.

Arguments row value : clear implicits.

(** [generateKey(prefix, params)]: [paramString] is [JSON.stringify(params)]
    for an object and [String(params)] otherwise; [base64] is
    [Buffer.from(s).toString('base64')]. *)
Definition generateKey (base64 : string -> string) (prefix paramString : string)
  : string :=
  (prefix ++ ":" ++ base64 paramString)%string.

End Cache.

(** * Social-media reports: the priority classifier *)

Module SocialMedia.

(** The keyword arrays of [determinePriority]. *)
Definition criticalKeywords : list string :=
  ["urgent"; "emergency"; "sos"; "help"; "trapped"; "evacuation"; "immediate"].
Definition highKeywords : list string :=
  ["breaking"; "alert"; "warning"; "danger"; "rescue"].
Definition normalKeywords : list string :=
  ["shelter"; "food"; "water"; "medical"; "assistance"].

(** [function determinePriority(content)] *)
Definition determinePriority (content : string) : string :=
  let lowerContent := toLowerCase content in
  if some (fun keyword => includes lowerContent keyword) criticalKeywords then "critical"
  else if some (fun keyword => includes lowerContent keyword) highKeywords then "high"
  else if some (fun keyword => includes lowerContent keyword) normalKeywords then "normal"
  else "low".

End SocialMedia.

(** * Authentication middleware *)

Module Auth.

(** A user of [mockUsers]. *)
Record user : Type := { id : string; role : string; name : string }.

Definition mockUsers : list (string * user) :=
  [ ("netrunnerX", {| id := "netrunnerX"; role := "admin"; name := "Net Runner X" |});
    ("reliefAdmin", {| id := "reliefAdmin"; role := "admin"; name := "Relief Administrator" |});
    ("citizen1", {| id := "citizen1"; role := "contributor"; name := "Citizen Reporter 1" |});
    ("volunteer1", {| id := "volunteer1"; role := "contributor"; name := "Volunteer Helper" |}) ].

(** [mockUsers[userId]] for the own properties of [mockUsers]. *)
Fixpoint find_user (userId : string) (users : list (string * user)) : option user :=
  match users with
  | [] => None
  | (k, u) :: rest => if String.eqb k userId then Some u else find_user userId rest
  end.

(** [authenticateUser]: the argument is the [x-user-id] header.  [None] is
    the 401 answer, otherwise the user attached to the request. *)
Definition authenticateUser (x_user_id : option string) : option user :=
  let userId := match x_user_id with
                | Some h => if String.eqb h "" then "citizen1" else h
                | None => "citizen1"
                end in
  find_user userId mockUsers.

(** [requireRole(roles)]: whether the request goes on to the handler. *)
Definition requireRole (roles : list string) (u : user) : bool :=
  existsb (String.eqb (role u)) roles.

End Auth.

(** * Image verification *)

Module Verification.

(** ** 32-bit integer operators *)

(** The conversion of a number to a signed 32-bit integer. *)
Definition ToInt32 (z : Z) : Z := (z + 2 ^ 31) mod 2 ^ 32 - 2 ^ 31.

(** [a << n] *)
Definition shl32 (a n : Z) : Z := ToInt32 (Z.shiftl (ToInt32 a) (n mod 32)).

(** [a & b] *)
Definition and32 (a b : Z) : Z := ToInt32 (Z.land (ToInt32 a) (ToInt32 b)).

(** [s.charCodeAt(i)] for each [i] below [s.length] *)
Fixpoint charCodes (s : string) : list Z :=
  match s with
  | EmptyString => []
  | String c rest => Z.of_nat (nat_of_ascii c) :: charCodes rest
  end.

(** ** Decimal numerals and the score pattern *)

(** The classes [\d] and, negated, [.] of the pattern. *)
Definition is_digit (c : ascii) : bool :=
  let n := nat_of_ascii c in ((48 <=? n)%nat && (n <=? 57)%nat)%bool.

Definition is_line_terminator (c : ascii) : bool :=
  let n := nat_of_ascii c in ((n =? 10)%nat || (n =? 13)%nat)%bool.

(** The longest prefix of digits, and what follows it. *)
Fixpoint span_digits (s : string) : string * string :=
  match s with
  | EmptyString => (EmptyString, EmptyString)
  | String c rest =>
      if is_digit c
      then let '(ds, tl) := span_digits rest in (String c ds, tl)
      else (EmptyString, s)
  end.

(** The group of the pattern (digits, an optional point, further digits),
    greedy, at the start of [s], which begins with a digit. *)
Definition capture_number (s : string) : string :=
  let '(int_part, tl) := span_digits s in
  match tl with
  | String "." tl' => (int_part ++ "." ++ fst (span_digits tl'))%string
  | _ => int_part
  end.

(** The lazy run of non-terminator characters followed by the group: the
    group starts at the first digit on the line. *)
Fixpoint lazy_to_number (s : string) : option string :=
  match s with
  | EmptyString => None
  | String c rest =>
      if is_digit c then Some (capture_number s)
      else if is_line_terminator c then None
      else lazy_to_number rest
  end.

(** [s.slice(n)] *)
Fixpoint drop (n : nat) (s : string) : string :=
  match n, s with
  | O, _ => s
  | S n', String _ rest => drop n' rest
  | S _, EmptyString => EmptyString
  end.

(** [analysisText.match(re)] for the case-insensitive pattern [re] made
    of the word authenticity, a lazy run of characters and the group;
    reduced to the captured group of the leftmost match. *)
Fixpoint match_authenticity (s : string) : option string :=
  match s with
  | EmptyString => None
  | String _ rest =>
      match (if startsWith (toLowerCase s) "authenticity"
             then lazy_to_number (drop 12 s) else None) with
      | Some group => Some group
      | None => match_authenticity rest
      end
  end.

(** The value of a decimal digit, and of a run of digits. *)
Definition digit_value (c : ascii) : Z := Z.of_nat (nat_of_ascii c) - 48.

Fixpoint digits_value (acc : Z) (s : string) : Z :=
  match s with
  | EmptyString => acc
  | String c rest => digits_value (10 * acc + digit_value c) rest
  end.

(** [parseFloat] on a captured group [digits] or [digits.digits]. *)
Definition parseFloat (s : string) : Q :=
  let '(int_part, tl) := span_digits s in
  let frac := match tl with
              | String "." tl' => fst (span_digits tl')
              | _ => EmptyString
              end in
  (inject_Z (digits_value 0 int_part)
   + inject_Z (digits_value 0 frac) / inject_Z (10 ^ Z.of_nat (String.length frac)))%Q.

(** [a < b] *)
Definition Qltb (a b : Q) : bool := negb (Qle_bool b a).

(** [Math.min(Math.max(x, 0), 1)] *)
Definition clamp01 (x : Q) : Q :=
  let m := if Qle_bool x 0 then 0%Q else x in
  if Qle_bool m 1 then m else 1%Q.

(** An array of string literals. *)
Definition strings (l : list string) : jsval := JArr (map JStr l).

Section Routes.

(** [new URL(url)] returns. *)
Variable valid_url : string -> bool.
(** [Buffer.from(s).toString('base64')] *)
Variable base64 : string -> string.
(** [new Date(ms).toISOString()] *)
Variable toISOString : Z -> string.

(** [const mockVerificationResults = [...]] *)
Definition mockVerificationResults : list jsval :=
  [ JObj [ ("image_url", JStr "http://example.com/flood1.jpg");
           ("authenticity_score", JNum (92 # 100));
           ("status", JStr "authentic");
           ("analysis", JStr "Image shows genuine flood damage with consistent lighting and shadows. No signs of digital manipulation detected.");
           ("confidence", JStr "high");
           ("flags", strings []);
           ("detected_objects", strings ["water"; "buildings"; "vehicles"; "debris"]);
           ("context_match", JBool true) ];
    JObj [ ("image_url", JStr "http://example.com/flood2.jpg");
           ("authenticity_score", JNum (45 # 100));
           ("status", JStr "suspicious");
           ("analysis", JStr "Image shows inconsistent lighting and possible compositing artifacts. Water reflection does not match expected physics.");
           ("confidence", JStr "medium");
           ("flags", strings ["inconsistent_lighting"; "possible_compositing"]);
           ("detected_objects", strings ["water"; "street"; "cars"]);
           ("context_match", JBool false) ];
    JObj [ ("image_url", JStr "http://example.com/fire1.jpg");
           ("authenticity_score", JNum (88 # 100));
           ("status", JStr "authentic");
           ("analysis", JStr "Wildfire image appears genuine with natural smoke patterns and appropriate environmental context.");
           ("confidence", JStr "high");
           ("flags", strings []);
           ("detected_objects", strings ["fire"; "smoke"; "trees"; "buildings"]);
           ("context_match", JBool true) ] ].

(** One turn of the loop: [hash = ((hash << 5) - hash + code) & 0xfffffff]. *)
Definition hash_step (hash code : Z) : Z :=
  and32 (shl32 hash 5 - hash + code) 268435455.

(** The value of [hash] after the loop over the characters of the URL. *)
Definition url_hash (imageUrl : string) : Z :=
  fold_left hash_step (charCodes imageUrl) 0.

(** [function getMockVerificationResult(imageUrl)]; [now] is the instant
    read by [new Date()].  The copy [{ ...fixture }] shares the arrays
    [flags] and [detected_objects] with the fixture; no code writes to
    them. *)
Definition getMockVerificationResult (imageUrl : string) (now : Z) : jsval :=
  let hash := url_hash imageUrl in
  let index := Z.rem (Z.abs hash) (Z.of_nat (length mockVerificationResults)) in
  let result := JObj (spread (nth (Z.to_nat index) mockVerificationResults JUndefined)) in
  let result := set_prop result "image_url" (JStr imageUrl) in
  set_prop result "verified_at" (JStr (toISOString now)).

(** [function parseGeminiVerificationResponse(analysisText, imageUrl)] *)
Definition parseGeminiVerificationResponse
    (analysisText imageUrl : string) (now : Z) : jsval :=
  let authenticityMatch := match_authenticity analysisText in
  let authenticityScore := match authenticityMatch with
                           | Some group => parseFloat group
                           | None => (7 # 10)%Q
                           end in
  let lowerText := toLowerCase analysisText in
  let is_fake := (Qltb authenticityScore (4 # 10) ||
                  includes lowerText "manipulated" ||
                  includes lowerText "edited" ||
                  includes lowerText "fake")%bool in
  let is_suspicious := (Qltb authenticityScore (7 # 10) ||
                        includes lowerText "suspicious" ||
                        includes lowerText "uncertain")%bool in
  let status := if is_fake then "fake"
                else if is_suspicious then "suspicious" else "authentic" in
  let confidence := if is_fake then "high" else "medium" in
  let flags := if is_fake then ["manipulation_detected"]
               else if is_suspicious then ["requires_review"] else [] in
  let commonObjects := ["water"; "fire"; "smoke"; "building"; "car"; "tree";
                        "person"; "debris"; "flood"; "damage"] in
  let detectedObjects := List.filter (fun obj => includes lowerText obj) commonObjects in
  let disasterKeywords := ["disaster"; "emergency"; "flood"; "fire"; "damage";
                           "destruction"; "evacuation"] in
  let contextMatch := some (fun keyword => includes lowerText keyword) disasterKeywords in
  let confidence :=
    if (includes lowerText "high confidence" || includes lowerText "very confident")%bool
    then "high"
    else if (includes lowerText "low confidence" || includes lowerText "uncertain")%bool
    then "low"
    else confidence in
  JObj [ ("image_url", JStr imageUrl);
         ("authenticity_score", JNum (clamp01 authenticityScore));
         ("status", JStr status);
         ("analysis", JStr analysisText);
         ("confidence", JStr confidence);
         ("flags", strings flags);
         ("detected_objects", strings detectedObjects);
         ("context_match", JBool contextMatch);
         ("verified_at", JStr (toISOString now));
         ("verification_method", JStr "gemini_vision") ].

(** What happens when [verifyImageWithGemini] runs: no API key was
    configured, fetching the image fails, the model call fails, or the
    model answers with a text. *)
Inductive gemini_run : Type :=
| NoApiKey
| FetchFails
| ModelFails
| Answers (analysisText : string).

(** [async function verifyImageWithGemini(imageUrl)] *)
Definition verifyImageWithGemini (g : gemini_run) (imageUrl : string) (now : Z)
  : jsval :=
  match g with
  | NoApiKey => getMockVerificationResult imageUrl now
  | FetchFails | ModelFails => getMockVerificationResult imageUrl now
  | Answers analysisText => parseGeminiVerificationResponse analysisText imageUrl now
  end.

(** ** The cached verification of one URL *)

(** What the outside world does while one URL is processed: the instants
    read by the clock, the store's behaviour on the three cache calls and
    the run of the vision model. *)
Record lookup_env : Type := {
  at_get : Z; on_select : fault; on_delete : fault;
  run : gemini_run; at_verify : Z;
  at_set : Z; on_upsert : fault }.

Notation "x <- m ;; k" := (Cache.bind m (fun x => k))
  (at level 100, m at next level, right associativity).

(** The body of the callback given to [image_urls.map], which is also the
    cache-then-verify sequence of the single-image route. *)
Definition verify_cached (c : Cache.CacheService) (e : lookup_env) (url : string)
  : Cache.M (value := jsval) jsval :=
  let cacheKey := Cache.generateKey base64 "image_verification" url in
  result <- Cache.get (at_get e) (on_select e) (on_delete e) cacheKey ;;
  match result with
  | Some cached =>
      if truthy cached then Cache.ret cached
      else
        let result := verifyImageWithGemini (run e) url (at_verify e) in
        _ <- Cache.set c (at_set e) (on_upsert e) cacheKey result (Some 86400) ;;
        Cache.ret result
  | None =>
      let result := verifyImageWithGemini (run e) url (at_verify e) in
      _ <- Cache.set c (at_set e) (on_upsert e) cacheKey result (Some 86400) ;;
      Cache.ret result
  end.

(** ** POST /disasters/:id/verify-image

    The route for a request with a body whose [image_url] is a string,
    [Some url], or falsy or missing, [None].  The route on the whole
    request, with no body or another value under [image_url], is
    [VerifyRequest.post_verify_image]. *)
Definition verify_image (c : Cache.CacheService) (x_user_id : option string)
    (disasterId : string) (image_url : option string)
    (e : lookup_env) (at_reply : Z)
  : Cache.M (value := jsval) response :=
  match Auth.authenticateUser x_user_id with
  | None =>
      Cache.ret {| status := 401;
                   body := JObj [ ("error", JStr "Authentication failed");
                                  ("message", JStr "Invalid user ID") ] |}
  | Some user =>
      match image_url with
      | None =>
          Cache.ret {| status := 400;
                       body := JObj [ ("error", JStr "Missing required field");
                                      ("message", JStr "image_url is required") ] |}
      | Some url =>
          if String.eqb url "" then
            Cache.ret {| status := 400;
                         body := JObj [ ("error", JStr "Missing required field");
                                        ("message", JStr "image_url is required") ] |}
          else if negb (valid_url url) then
            Cache.ret {| status := 400;
                         body := JObj [ ("error", JStr "Invalid URL");
                                        ("message", JStr "image_url must be a valid URL") ] |}
          else
            verificationResult <- verify_cached c e url ;;
            Cache.ret {| status := 200;
                         body := JObj [ ("disaster_id", JStr disasterId);
                                        ("verification", verificationResult);
                                        ("verified_by", JStr (Auth.id user));
                                        ("timestamp", JStr (toISOString at_reply)) ] |}
      end
  end.

(** [await Promise.all(image_urls.map(...))].  The callbacks run
    interleaved at their [await]s; they are taken here one after the other,
    which is one of the possible orders of their cache calls.  [env i] is
    the world's behaviour for the URL at index [i]. *)
Fixpoint verify_all (c : Cache.CacheService) (env : nat -> lookup_env)
    (i : nat) (urls : list string) : Cache.M (value := jsval) (list jsval) :=
  match urls with
  | [] => Cache.ret []
  | url :: rest =>
      r <- verify_cached c (env i) url ;;
      rs <- verify_all c env (S i) rest ;;
      Cache.ret (r :: rs)
  end.

(** ** POST /disasters/:id/verify-images *)

(** [l.filter(f).length] *)
Definition count (f : jsval -> bool) (l : list jsval) : Z :=
  Z.of_nat (length (List.filter f l)).

(** [results.reduce((sum, r) => sum + r.authenticity_score, 0)].  [None]
    stands for a sum that is not a number, as a missing score makes it;
    scores of other types, which no route produces, are taken for missing. *)
Fixpoint sum_scores (l : list jsval) : option Q :=
  match l with
  | [] => Some 0%Q
  | r :: rest =>
      match get_prop r "authenticity_score", sum_scores rest with
      | JNum q, Some s => Some (q + s)%Q
      | _, _ => None
      end
  end.

(** The [summary] object.  An average that is [NaN] (no result, or a sum
    that is not a number) is sent as [null]. *)
Definition summarize (verificationResults : list jsval) : jsval :=
  let n := Z.of_nat (length verificationResults) in
  JObj [ ("total_verified", JNum (inject_Z n));
         ("authentic",
          JNum (inject_Z (count (fun r => is_string (get_prop r "status") "authentic")
                                verificationResults)));
         ("suspicious",
          JNum (inject_Z (count (fun r => is_string (get_prop r "status") "suspicious")
                                verificationResults)));
         ("fake",
          JNum (inject_Z (count (fun r => is_string (get_prop r "status") "fake")
                                verificationResults)));
         ("average_authenticity_score",
          match sum_scores verificationResults with
          | Some s => if n =? 0 then JNull else JNum (s / inject_Z n)
          | None => JNull
          end);
         ("high_confidence",
          JNum (inject_Z (count (fun r => is_string (get_prop r "confidence") "high")
                                verificationResults))) ].

(** The route, middleware included, for a request with a body whose
    [image_urls] is an array of strings, [Some urls], or is no array,
    [None]. *)
Definition verify_images (c : Cache.CacheService) (x_user_id : option string)
    (disasterId : string) (image_urls : option (list string))
    (env : nat -> lookup_env) (at_reply : Z)
  : Cache.M (value := jsval) response :=
  match Auth.authenticateUser x_user_id with
  | None =>
      Cache.ret {| status := 401;
                   body := JObj [ ("error", JStr "Authentication failed");
                                  ("message", JStr "Invalid user ID") ] |}
  | Some user =>
      match image_urls with
      | None =>
          Cache.ret {| status := 400;
                       body := JObj [ ("error", JStr "Missing required field");
                                      ("message", JStr "image_urls must be an array of URLs") ] |}
      | Some urls =>
          if (10 <? length urls)%nat then
            Cache.ret {| status := 400;
                         body := JObj [ ("error", JStr "Too many images");
                                        ("message", JStr "Maximum 10 images can be verified at once") ] |}
          else
            match find (fun url => negb (valid_url url)) urls with
            | Some url =>
                Cache.ret {| status := 400;
                             body := JObj [ ("error", JStr "Invalid URL");
                                            ("message", JStr ("Invalid URL: " ++ url)%string) ] |}
            | None =>
                verificationResults <- verify_all c env 0 urls ;;
                Cache.ret {| status := 200;
                             body := JObj [ ("disaster_id", JStr disasterId);
                                            ("verifications", JArr verificationResults);
                                            ("summary", summarize verificationResults);
                                            ("verified_by", JStr (Auth.id user));
                                            ("timestamp", JStr (toISOString at_reply)) ] |}
            end
      end
  end.

End Routes.

End Verification.

(** * Resources near a point: the in-process fallback *)

Module Proximity.

Local Open Scope R_scope.

(** A resource of the fixture list.  [coordinates] is
    [location.coordinates], longitude first; [distance_km] is the property
    that [filterResourcesByDistance] adds.  ([created_at], the load time of
    the module, is left out.) *)
Record resource : Type := {
  id : string;
  disaster_id : string;
  name : string;
  location_name : string;
  coordinates : option (R * R);
  type : string;
  capacity : Z;
  current_occupancy : Z;
  contact : string;
  amenities : list string;
  status : string;
  distance_km : option R }.

(** The six entries of [mockResources]. *)

Definition red_cross_shelter : resource :=
  {| id := "1"; disaster_id := "1"; name := "Red Cross Emergency Shelter";
     location_name := "Lower East Side Community Center, NYC";
     coordinates := Some (-73.9857, 40.7831);
     type := "shelter"; capacity := 150; current_occupancy := 45;
     contact := "+1-555-0123";
     amenities := ["food"; "medical"; "blankets"; "charging_stations"];
     status := "active"; distance_km := None |}.

Definition general_hospital : resource :=
  {| id := "2"; disaster_id := "1"; name := "Manhattan General Hospital";
     location_name := "Manhattan General Hospital, NYC";
     coordinates := Some (-73.9776, 40.7831);
     type := "medical"; capacity := 200; current_occupancy := 120;
     contact := "+1-555-0456";
     amenities := ["emergency_care"; "surgery"; "pharmacy"; "ambulance"];
     status := "active"; distance_km := None |}.

Definition food_distribution_center : resource :=
  {| id := "3"; disaster_id := "1"; name := "Food Distribution Center";
     location_name := "Union Square, NYC";
     coordinates := Some (-73.9903, 40.7359);
     type := "food"; capacity := 500; current_occupancy := 0;
     contact := "+1-555-0789";
     amenities := ["hot_meals"; "water"; "snacks"; "baby_formula"];
     status := "active"; distance_km := None |}.

Definition supply_depot : resource :=
  {| id := "4"; disaster_id := "1"; name := "Emergency Supply Depot";
     location_name := "Brooklyn Bridge Area, NYC";
     coordinates := Some (-73.9969, 40.7061);
     type := "supplies"; capacity := 1000; current_occupancy := 300;
     contact := "+1-555-0234";
     amenities := ["blankets"; "clothing"; "hygiene_kits"; "flashlights"];
     status := "active"; distance_km := None |}.

Definition evacuation_center_west : resource :=
  {| id := "5"; disaster_id := "2"; name := "Evacuation Center West";
     location_name := "Santa Monica, CA";
     coordinates := Some (-118.4912, 34.0195);
     type := "evacuation"; capacity := 300; current_occupancy := 180;
     contact := "+1-555-0567";
     amenities := ["temporary_housing"; "food"; "medical"; "pet_care"];
     status := "active"; distance_km := None |}.

Definition mobile_medical_unit : resource :=
  {| id := "6"; disaster_id := "1"; name := "Mobile Medical Unit #1";
     location_name := "Central Park South, NYC";
     coordinates := Some (-73.9735, 40.7676);
     type := "medical"; capacity := 50; current_occupancy := 15;
     contact := "+1-555-0890";
     amenities := ["first_aid"; "medication"; "triage"];
     status := "active"; distance_km := None |}.

Definition mockResources : list resource :=
  [ red_cross_shelter;
    general_hospital;
    food_distribution_center;
    supply_depot;
    evacuation_center_west;
    mobile_medical_unit ].

(** [x <= y] and [x < y] *)
Definition Rleb (x y : R) : bool := if Rle_dec x y then true else false.
Definition Rltb (x y : R) : bool := if Rlt_dec x y then true else false.

(** [Math.atan2(y, x)] *)
Definition atan2 (y x : R) : R :=
  if Rltb 0 x then atan (y / x)
  else if Rltb x 0 then (if Rleb 0 y then atan (y / x) + PI else atan (y / x) - PI)
  else if Rltb 0 y then PI / 2
  else if Rltb y 0 then - (PI / 2)
  else 0.

(** [Math.round]: the nearest integer, halves upwards. *)
Definition Math_round (x : R) : R := IZR (Zfloor (x + 1 / 2)).

(** [function calculateDistance(lat1, lng1, lat2, lng2)] (haversine) *)
Definition calculateDistance (lat1 lng1 lat2 lng2 : R) : R :=
  let R := 6371 in
  let dLat := (lat2 - lat1) * PI / 180 in
  let dLng := (lng2 - lng1) * PI / 180 in
  let a := sin (dLat / 2) * sin (dLat / 2) +
           cos (lat1 * PI / 180) * cos (lat2 * PI / 180) *
           sin (dLng / 2) * sin (dLng / 2) in
  let c := 2 * atan2 (sqrt a) (sqrt (1 - a)) in
  R * c.

(** The callback of [resources.filter]: whether the resource is kept, and
    the resource as the callback leaves it. *)
Definition visit (lat lng radiusKm : R) (r : resource) : bool * resource :=
  match coordinates r with
  | None => (false, r)
  | Some (resourceLng, resourceLat) =>
      let distance := calculateDistance lat lng resourceLat resourceLng in
      (Rleb distance radiusKm,
       {| id := id r; disaster_id := disaster_id r; name := name r;
          location_name := location_name r; coordinates := coordinates r;
          type := type r; capacity := capacity r;
          current_occupancy := current_occupancy r; contact := contact r;
          amenities := amenities r; status := status r;
          distance_km := Some (Math_round (distance * 100) / 100) |})
  end.

(** [(a, b) => a.distance_km - b.distance_km] is not positive.  A missing
    [distance_km] makes the difference [NaN], which a sort takes for zero. *)
Definition not_after (a b : resource) : bool :=
  match distance_km a, distance_km b with
  | Some x, Some y => Rleb (x - y) 0
  | _, _ => true
  end.

(** [a] goes before the first element that it is not after. *)
Fixpoint insert (a : resource) (l : list resource) : list resource :=
  match l with
  | [] => [a]
  | b :: rest => if not_after a b then a :: b :: rest else b :: insert a rest
  end.

(** [Array.prototype.sort] with the comparator above: the stable sort. *)
Fixpoint sort (l : list resource) : list resource :=
  match l with
  | [] => []
  | a :: rest => insert a (sort rest)
  end.

(** [function filterResourcesByDistance(resources, lat, lng, radiusKm)] *)
Definition filterResourcesByDistance
    (resources : list resource) (lat lng radiusKm : R) : list resource :=
  sort (map snd (List.filter fst (map (visit lat lng radiusKm) resources))).

(** A coordinate as the route holds it: [None] for [null] (the parameter was
    not given); a number is truthy when it is not zero. *)
Definition given (x : option R) : option R :=
  match x with
  | Some v => if Req_dec_T v 0 then None else Some v
  | None => None
  end.

(** [list.slice(0, limit)] *)
Definition slice0 {A} (limit : Z) (l : list A) : list A :=
  if (0 <=? limit)%Z then firstn (Z.to_nat limit) l
  else firstn (length l - Z.to_nat (- limit)) l.

(** The [catch] branch of [GET /:id/resources]: the list served from the
    fixtures when the store query fails.  [type_] is [None] for a missing
    or empty parameter, [radiusKm] is [None] for [NaN], [limit] is the
    integer that [slice] makes of the parameter. *)
Definition fallback_resources (disasterId status_ : string)
    (type_ : option string) (latitude longitude : option R)
    (radiusKm : option R) (limit : Z) : list resource :=
  let filteredResources :=
    List.filter (fun r => (String.eqb (disaster_id r) disasterId &&
                      String.eqb (status r) status_)%bool) mockResources in
  let filteredResources :=
    match type_ with
    | Some t => List.filter (fun r => String.eqb (type r) t) filteredResources
    | None => filteredResources
    end in
  let filteredResources :=
    match given latitude, given longitude with
    | Some lat, Some lng =>
        match radiusKm with
        | Some radius => filterResourcesByDistance filteredResources lat lng radius
        | None => []
        end
    | _, _ => filteredResources
    end in
  slice0 limit filteredResources.

End Proximity.

(** * The mutation routes of disasters and resources *)

Module Handlers.

(** What the Supabase client answers to one query: the [{ data, error }]
    object, or the awaited call throws. *)
Inductive reply : Type :=
| Reply (data error : jsval)
| Rejects (e : exn).

(** The queries a handler sends to the store. *)
Inductive store_call : Type :=
| SelectOne (table columns : string) (filters : list (string * string))
| Insert (table : string) (row : jsval)
| Update (table : string) (changes : jsval) (filters : list (string * string))
| Delete (table : string) (filters : list (string * string)).

(** A run of a handler: the response sent, the events emitted and the
    queries sent, each in order. *)
Record run : Type := {
  res : response;
  emitted : list event;
  calls : list store_call }.

Definition respond (code : Z) (fields : list (string * jsval)) : response :=
  {| status := code; body := JObj fields |}.

(** The iteration of [[...v]]: an array yields its items, a string its
    characters, and the other values met here are not iterable. *)
Definition iterate (v : jsval) : outcome (list jsval) :=
  match v with
  | JArr items => Returns items
  | JStr s => Returns (map (fun c => JStr (String c EmptyString)) (list_ascii_of_string s))
  | _ => Throws TypeError
  end.

Definition is_nullish (v : jsval) : bool :=
  match v with
  | JUndefined | JNull => true
  | _ => false
  end.

Section Routes.

(** The text of a value inside a template literal. *)
Variable ToString : jsval -> string.
(** [error.message] of a thrown error. *)
Variable message : exn -> string.

Definition unauthorized : run :=
  {| res := respond 401 [ ("error", JStr "Authentication failed");
                          ("message", JStr "Invalid user ID") ];
     emitted := []; calls := [] |}.

(** The outer [catch] of a handler. *)
Definition failed (what : string) (e : exn) (sent : list store_call) : run :=
  {| res := respond 500 [ ("error", JStr what); ("message", JStr (message e)) ];
     emitted := []; calls := sent |}.

(** [function formatLocationForDB(lat, lng)] *)
Definition formatLocationForDB (lat lng : jsval) : string :=
  ("POINT(" ++ ToString lng ++ " " ++ ToString lat ++ ")")%string.

(** [location && location.lat && location.lng] *)
Definition has_point (location : jsval) : bool :=
  (truthy location && truthy (get_prop location "lat") &&
   truthy (get_prop location "lng"))%bool.

(** [location ? { type: 'Point', coordinates: [location.lng, location.lat] } : null] *)
Definition mock_location (location : jsval) : jsval :=
  if truthy location
  then JObj [ ("type", JStr "Point");
              ("coordinates", JArr [get_prop location "lng"; get_prop location "lat"]) ]
  else JNull.

(** [{ ...o, id: mockId, created_at: ..., location: ... }] *)
Definition mock_row (o : jsval) (mockId created_at : string) (location : jsval)
  : jsval :=
  JObj (assign_field "location" (mock_location location)
         (assign_field "created_at" (JStr created_at)
           (assign_field "id" (JStr mockId) (spread o)))).

Definition mock_notice : jsval :=
  JStr "Created with mock data due to database connection issue".

(** ** POST /disasters

    [body] is [req.body]: [undefined] when the request carried no body that
    a parser took up, and then the destructuring of its fields throws.
    [insert] is the store's answer to the insert, [mockId] the text drawn
    from [Math.random()], [at_audit] and [at_mock] the ISO texts of the
    instants read for the audit entry and for the mock row. *)
Definition create_disaster (x_user_id : option string) (body : jsval)
    (insert : reply) (mockId at_audit at_mock : string) : run :=
  match Auth.authenticateUser x_user_id with
  | None => unauthorized
  | Some user =>
      if is_nullish body then
        (* the destructuring of [req.body] *)
        failed "Failed to create disaster" TypeError []
      else
      let title := get_prop body "title" in
      let location_name := get_prop body "location_name" in
      let description := get_prop body "description" in
      let tags := get_prop body "tags" in
      let location := get_prop body "location" in
      if (negb (truthy title) || negb (truthy location_name) ||
          negb (truthy description))%bool
      then {| res := respond 400
                       [ ("error", JStr "Missing required fields");
                         ("required", JArr [JStr "title"; JStr "location_name";
                                            JStr "description"]) ];
              emitted := []; calls := [] |}
      else
        let newDisaster :=
          JObj [ ("title", title);
                 ("location_name", location_name);
                 ("description", description);
                 ("tags", js_or tags (JArr []));
                 ("owner_id", JStr (Auth.id user));
                 ("audit_trail",
                  JArr [ JObj [ ("action", JStr "create");
                                ("user_id", JStr (Auth.id user));
                                ("timestamp", JStr at_audit) ] ]) ] in
        let newDisaster :=
          if has_point location
          then set_prop newDisaster "location"
                 (JStr (formatLocationForDB (get_prop location "lat")
                                            (get_prop location "lng")))
          else newDisaster in
        let sent := [Insert "disasters" newDisaster] in
        match insert with
        | Rejects e => failed "Failed to create disaster" e sent
        | Reply data error =>
            if truthy error then
              let mockResponse := mock_row newDisaster mockId at_mock location in
              {| res := respond 201 [ ("data", mockResponse);
                                      ("message", mock_notice) ];
                 emitted := [ {| to := Everyone; name := "disaster_updated";
                                 payload := JObj [ ("action", JStr "create");
                                                   ("data", mockResponse) ] |} ];
                 calls := sent |}
            else if is_nullish data then
              (* [data.title] in the log line *)
              failed "Failed to create disaster" TypeError sent
            else
              {| res := respond 201 [ ("data", data) ];
                 emitted := [ {| to := Everyone; name := "disaster_updated";
                                 payload := JObj [ ("action", JStr "create");
                                                   ("data", data) ] |} ];
                 calls := sent |}
        end
  end.

(** [if (v) updateData.k = v] *)
Definition set_if (k : string) (v : jsval) (o : jsval) : jsval :=
  if truthy v then set_prop o k v else o.

(** ** PUT /disasters/:id

    [fetch] answers the select of the existing row, [update] the update. *)
Definition update_disaster (x_user_id : option string) (id : string)
    (body : jsval) (fetch update : reply) (at_audit : string) : run :=
  match Auth.authenticateUser x_user_id with
  | None => unauthorized
  | Some user =>
      if is_nullish body then
        (* the destructuring of [req.body] *)
        failed "Failed to update disaster" TypeError []
      else
      let title := get_prop body "title" in
      let location_name := get_prop body "location_name" in
      let description := get_prop body "description" in
      let tags := get_prop body "tags" in
      let location := get_prop body "location" in
      let sent := [SelectOne "disasters" "owner_id, audit_trail" [("id", id)]] in
      match fetch with
      | Rejects e => failed "Failed to update disaster" e sent
      | Reply existing fetchError =>
          if (truthy fetchError || negb (truthy existing))%bool then
            {| res := respond 404 [ ("error", JStr "Disaster not found");
                                    ("id", JStr id) ];
               emitted := []; calls := sent |}
          else if (negb (is_string (get_prop existing "owner_id") (Auth.id user)) &&
                   negb (String.eqb (Auth.role user) "admin"))%bool then
            {| res := respond 403
                        [ ("error", JStr "Insufficient permissions");
                          ("message", JStr "You can only update your own disasters") ];
               emitted := []; calls := sent |}
          else
            let updateData := JObj [] in
            let updateData := set_if "title" title updateData in
            let updateData := set_if "location_name" location_name updateData in
            let updateData := set_if "description" description updateData in
            let updateData := set_if "tags" tags updateData in
            let updateData :=
              if has_point location
              then set_prop updateData "location"
                     (JStr (formatLocationForDB (get_prop location "lat")
                                                (get_prop location "lng")))
              else updateData in
            let newAuditEntry :=
              JObj [ ("action", JStr "update");
                     ("user_id", JStr (Auth.id user));
                     ("timestamp", JStr at_audit);
                     ("changes", JArr (keys updateData)) ] in
            match iterate (js_or (get_prop existing "audit_trail") (JArr [])) with
            | Throws e => failed "Failed to update disaster" e sent
            | Returns trail =>
                let updateData :=
                  set_prop updateData "audit_trail" (JArr (trail ++ [newAuditEntry])%list) in
                let sent := (sent ++ [Update "disasters" updateData [("id", id)]])%list in
                match update with
                | Rejects e => failed "Failed to update disaster" e sent
                | Reply data error =>
                    if truthy error then
                      {| res := respond 500
                                  [ ("error", JStr "Failed to update disaster");
                                    ("message", get_prop error "message") ];
                         emitted := []; calls := sent |}
                    else
                      {| res := respond 200 [ ("data", data) ];
                         emitted := [ {| to := Everyone; name := "disaster_updated";
                                         payload := JObj [ ("action", JStr "update");
                                                           ("data", data) ] |} ];
                         calls := sent |}
                end
            end
      end
  end.

(** ** DELETE /disasters/:id *)
Definition delete_disaster (x_user_id : option string) (id : string)
    (delete : reply) : run :=
  match Auth.authenticateUser x_user_id with
  | None => unauthorized
  | Some user =>
      if negb (Auth.requireRole ["admin"] user) then
        {| res := respond 403 [ ("error", JStr "Insufficient permissions");
                                ("message", JStr "Required role: admin") ];
           emitted := []; calls := [] |}
      else
        let sent := [Delete "disasters" [("id", id)]] in
        match delete with
        | Rejects e => failed "Failed to delete disaster" e sent
        | Reply data error =>
            if truthy error then
              {| res := respond 404
                          [ ("error", JStr "Disaster not found or could not be deleted");
                            ("id", JStr id) ];
                 emitted := []; calls := sent |}
            else
              {| res := respond 200 [ ("message", JStr "Disaster deleted successfully");
                                      ("data", data) ];
                 emitted := [ {| to := Everyone; name := "disaster_updated";
                                 payload := JObj [ ("action", JStr "delete");
                                                   ("data", JObj [("id", JStr id)]) ] |} ];
                 calls := sent |}
        end
  end.

(** The object [newResource] of [POST /:id/resources]. *)
Definition newResource (disasterId : string) (user : Auth.user) (body : jsval)
  : jsval :=
  let location := get_prop body "location" in
  let o :=
    JObj [ ("disaster_id", JStr disasterId);
           ("name", get_prop body "name");
           ("location_name", get_prop body "location_name");
           ("type", get_prop body "type");
           ("capacity", js_or (get_prop body "capacity") (JNum 0));
           ("current_occupancy", JNum 0);
           ("contact", js_or (get_prop body "contact") (JStr ""));
           ("amenities", js_or (get_prop body "amenities") (JArr []));
           ("status", JStr "active");
           ("created_by", JStr (Auth.id user)) ] in
  if has_point location
  then set_prop o "location"
         (JStr ("POINT(" ++ ToString (get_prop location "lng") ++ " " ++
                ToString (get_prop location "lat") ++ ")")%string)
  else o.

(** ** POST /disasters/:id/resources *)
Definition create_resource (x_user_id : option string) (disasterId : string)
    (body : jsval) (insert : reply) (mockId at_mock : string) : run :=
  match Auth.authenticateUser x_user_id with
  | None => unauthorized
  | Some user =>
      if is_nullish body then
        (* the destructuring of [req.body], outside the inner [try] *)
        failed "Failed to create resource" TypeError []
      else
      if (negb (truthy (get_prop body "name")) ||
          negb (truthy (get_prop body "location_name")) ||
          negb (truthy (get_prop body "type")))%bool
      then {| res := respond 400
                       [ ("error", JStr "Missing required fields");
                         ("required", JArr [JStr "name"; JStr "location_name";
                                            JStr "type"]) ];
              emitted := []; calls := [] |}
      else
        let row := newResource disasterId user body in
        let sent := [Insert "resources" row] in
        (* the inner [catch] *)
        let mocked :=
          {| res := respond 201
                      [ ("data", mock_row row mockId at_mock (get_prop body "location"));
                        ("message", mock_notice) ];
             emitted := []; calls := sent |} in
        match insert with
        | Rejects _ => mocked
        | Reply data error =>
            if truthy error then mocked
            else if is_nullish data then mocked   (* [data.name] in the log line *)
            else
              {| res := respond 201 [ ("data", data) ];
                 emitted := [ {| to := Room ("disaster_" ++ disasterId)%string;
                                 name := "resources_updated";
                                 payload := JObj [ ("action", JStr "create");
                                                   ("data", data) ] |} ];
                 calls := sent |}
        end
  end.

(** ** PUT /disasters/:id/resources/:resourceId *)
Definition update_resource (x_user_id : option string)
    (disasterId resourceId : string) (body : jsval) (update : reply) : run :=
  match Auth.authenticateUser x_user_id with
  | None => unauthorized
  | Some user =>
      let updates := body in
      let sent := [Update "resources" updates
                     [("id", resourceId); ("disaster_id", disasterId)]] in
      match update with
      | Rejects e => failed "Failed to update resource" e sent
      | Reply data error =>
          if (truthy error || negb (truthy data))%bool then
            {| res := respond 404
                        [ ("error", JStr "Resource not found or could not be updated");
                          ("resourceId", JStr resourceId) ];
               emitted := []; calls := sent |}
          else
            {| res := respond 200 [ ("data", data) ];
               emitted := [ {| to := Room ("disaster_" ++ disasterId)%string;
                               name := "resources_updated";
                               payload := JObj [ ("action", JStr "update");
                                                 ("data", data) ] |} ];
               calls := sent |}
      end
  end.

(** ** The five mutation endpoints, side by side *)

Inductive endpoint : Type :=
| CreateDisaster
| UpdateDisaster
| DeleteDisaster
| CreateResource
| UpdateResource.

(** The action an endpoint performs. *)
Definition operation (ep : endpoint) : string :=
  match ep with
  | CreateDisaster | CreateResource => "create"
  | UpdateDisaster | UpdateResource => "update"
  | DeleteDisaster => "delete"
  end.

(** A request: the [x-user-id] header, the route parameters and the body. *)
Record request : Type := {
  x_user_id : option string;
  params_id : string;
  params_resourceId : string;
  req_body : jsval }.

(** What the world does during a request: the store's answer to the write
    (and, for the disaster update, to the read before it), the random text
    and the clock. *)
Record world : Type := {
  on_read : reply;
  on_write : reply;
  random_id : string;
  clock_audit : string;
  clock_mock : string }.

Definition handle (ep : endpoint) (rq : request) (w : world) : run :=
  match ep with
  | CreateDisaster =>
      create_disaster (x_user_id rq) (req_body rq) (on_write w)
        (random_id w) (clock_audit w) (clock_mock w)
  | UpdateDisaster =>
      update_disaster (x_user_id rq) (params_id rq) (req_body rq)
        (on_read w) (on_write w) (clock_audit w)
  | DeleteDisaster => delete_disaster (x_user_id rq) (params_id rq) (on_write w)
  | CreateResource =>
      create_resource (x_user_id rq) (params_id rq) (req_body rq) (on_write w)
        (random_id w) (clock_mock w)
  | UpdateResource =>
      update_resource (x_user_id rq) (params_id rq) (params_resourceId rq)
        (req_body rq) (on_write w)
  end.


Definition succeeded (r : response) : bool :=
  ((200 <=? status r) && (status r <? 300))%bool.

End Routes.

End Handlers.

(** * Resource types of a disaster *)

Module ResourceTypes.

Import Proximity.

(** [set.add(x)] on the elements of a [Set] in insertion order. *)
Definition add (seen : list string) (x : string) : list string :=
  if existsb (String.eqb x) seen then seen else (seen ++ [x])%list.

(** [[...new Set(l)]]: the distinct elements in order of first occurrence. *)
Definition unique (l : list string) : list string := fold_left add l [].

(** An element of [typeCounts]. *)
Record type_count : Type := {
  tc_type : string;
  count : Z;
  available_capacity : Z }.

(** The array [typeCounts] of [GET /:id/resources/types], computed from the
    resource list of the module, which the route takes from [mockResources]. *)
Definition typeCounts (resources : list resource) (disasterId : string)
  : list type_count :=
  let resourceTypes :=
    unique (map type
              (List.filter (fun r => String.eqb (disaster_id r) disasterId) resources)) in
  map (fun ty =>
         {| tc_type := ty;
            count :=
              Z.of_nat (length (List.filter
                                  (fun r => (String.eqb (disaster_id r) disasterId &&
                                             String.eqb (type r) ty)%bool)
                                  resources));
            available_capacity :=
              fold_left (fun sum r => sum + (capacity r - current_occupancy r))
                (List.filter (fun r => (String.eqb (disaster_id r) disasterId &&
                                        String.eqb (type r) ty)%bool)
                             resources)
                0 |})
      resourceTypes.

(** The [resource_types] member of the answer. *)
Definition resource_types (disasterId : string) : list type_count :=
  typeCounts mockResources disasterId.

End ResourceTypes.

(** * The centre of a proximity query *)

Module Centre.

Import Proximity.

(** A number as [parseFloat] returns it.  (The infinities are left out.) *)
Inductive number : Type :=
| NaN
| Num (r : R).

Section Query.

(** [parseFloat] on the text of a query parameter. *)
Variable parseFloat : string -> number.

(** A query parameter is truthy: it is present and not empty. *)
Definition present (p : option string) : bool :=
  match p with
  | Some s => negb (String.eqb s "")
  | None => false
  end.

(** [p ? parseFloat(p) : null]; [None] is [null]. *)
Definition parsed (p : option string) : option number :=
  match p with
  | Some s => if String.eqb s "" then None else Some (parseFloat s)
  | None => None
  end.

(** [!v] *)
Definition not_ (v : option number) : bool :=
  match v with
  | None | Some NaN => true
  | Some (Num r) => if Req_dec_T r 0 then true else false
  end.

(** [isNaN(v)]; [null] converts to 0. *)
Definition isNaN (v : option number) : bool :=
  match v with
  | Some NaN => true
  | _ => false
  end.

(** The test that makes [GET /:id/resources] answer 400 with
    [Invalid coordinates]. *)
Definition invalid_coordinates (lat lng : option string) : bool :=
  let latitude := parsed lat in
  let longitude := parsed lng in
  ((present lat || present lng) &&
   (not_ latitude || not_ longitude || isNaN latitude || isNaN longitude))%bool.

(** The coordinate as the fallback branch tests and uses it. *)
Definition coordinate (p : option string) : option R :=
  match parsed p with
  | Some (Num r) => Some r
  | _ => None
  end.

(** [parseFloat(radius)] with the default [radius = 10]; [None] is [NaN]. *)
Definition radius_km (radius : option string) : option R :=
  match radius with
  | Some s => match parseFloat s with
              | Num r => Some r
              | NaN => None
              end
  | None => Some 10%R
  end.

End Query.

End Centre.

(** * Social-media reports: hashtags and the priority board *)

Module Reports.

Import SocialMedia.

(** The class [\w] of a pattern without the unicode flag. *)
Definition is_word (c : ascii) : bool :=
  let n := nat_of_ascii c in
  (((48 <=? n) && (n <=? 57)) || ((65 <=? n) && (n <=? 90)) ||
   ((97 <=? n) && (n <=? 122)) || (n =? 95))%nat%bool.

(** The match in progress, if any, ends: it counts when it has at least
    one character after the hash sign. *)
Definition close (tag : option string) : list string :=
  match tag with
  | Some w => if String.eqb w "" then [] else [w]
  | None => []
  end.

(** [content.match(re)] for the global pattern [re] of a hash sign followed
    by one or more word characters, each match without its hash sign.
    [tag] is [Some w] when a hash sign was read and the word characters
    [w] after it: a match extends as far as word characters go, and the
    search resumes where it ended. *)
Fixpoint scan (tag : option string) (s : string) : list string :=
  match s with
  | EmptyString => close tag
  | String c rest =>
      match tag with
      | Some w =>
          if is_word c then scan (Some (w ++ String c EmptyString)%string) rest
          else (close tag ++
                (if Ascii.eqb c "#" then scan (Some EmptyString) rest
                 else scan None rest))%list
      | None =>
          if Ascii.eqb c "#" then scan (Some EmptyString) rest else scan None rest
      end
  end.

(** [function extractHashtags(content)] *)
Definition extractHashtags (content : string) : list string := scan None content.

(** A post as the priority board reads and writes it.  (The other
    properties of a post are carried along unchanged and left out.) *)
Record post : Type := { post_id : string; content : string; priority : string }.

(** [const categorized = { critical: [], high: [], normal: [], low: [] }] *)
Definition board : Type := list (string * list post).

Definition empty_board : board :=
  [ ("critical", []); ("high", []); ("normal", []); ("low", []) ].

(** [categorized[key].push(p)]; a key that the board does not have makes
    [categorized[key]] undefined and the call throw. *)
Fixpoint push (key : string) (p : post) (b : board) : outcome board :=
  match b with
  | [] => Throws TypeError
  | (k, l) :: rest =>
      if String.eqb k key then Returns ((k, l ++ [p])%list :: rest)
      else match push key p rest with
           | Returns rest' => Returns ((k, l) :: rest')
           | Throws e => Throws e
           end
  end.

(** The callback of [allPosts.forEach]. *)
Definition categorize_one (b : board) (p : post) : outcome board :=
  let priority := determinePriority (content p) in
  let p := {| post_id := post_id p; content := content p; priority := priority |} in
  push priority p b.

(** [allPosts.forEach(...)] on the empty board. *)
Fixpoint categorize_from (b : board) (posts : list post) : outcome board :=
  match posts with
  | [] => Returns b
  | p :: rest =>
      match categorize_one b p with
      | Returns b' => categorize_from b' rest
      | Throws e => Throws e
      end
  end.

Definition categorize (posts : list post) : outcome board :=
  categorize_from empty_board posts.

(** [Object.values(priorityData).reduce((sum, posts) => sum + posts.length, 0)] *)
Definition total_posts (b : board) : Z :=
  fold_left (fun sum kl => sum + Z.of_nat (length (snd kl))) b 0.

End Reports.

(** * The read routes of disasters *)

Module Queries.

Import Handlers.

Section Routes.

(** [error.message] of a thrown error. *)
Variable message : exn -> string.
(** The ISO texts of the instants read while the module loads, for
    [created_at] and for the audit entry of the two fixtures. *)
Variables created_1 audited_1 created_2 audited_2 : string.

(** [const mockDisasters = [...]] *)
Definition mockDisasters : list jsval :=
  [ JObj [ ("id", JStr "1");
           ("title", JStr "NYC Flood");
           ("location_name", JStr "Manhattan, NYC");
           ("location", JObj [ ("type", JStr "Point");
                               ("coordinates", JArr [JNum (- (74006 # 1000));
                                                     JNum (407128 # 10000)]) ]);
           ("description", JStr "Heavy flooding in Manhattan area affecting multiple blocks");
           ("tags", JArr [JStr "flood"; JStr "urgent"]);
           ("owner_id", JStr "netrunnerX");
           ("created_at", JStr created_1);
           ("audit_trail", JArr [ JObj [ ("action", JStr "create");
                                         ("user_id", JStr "netrunnerX");
                                         ("timestamp", JStr audited_1) ] ]) ];
    JObj [ ("id", JStr "2");
           ("title", JStr "California Wildfire");
           ("location_name", JStr "Los Angeles, CA");
           ("location", JObj [ ("type", JStr "Point");
                               ("coordinates", JArr [JNum (- (1182437 # 10000));
                                                     JNum (340522 # 10000)]) ]);
           ("description", JStr "Wildfire spreading rapidly in the hills near LA");
           ("tags", JArr [JStr "wildfire"; JStr "evacuation"]);
           ("owner_id", JStr "reliefAdmin");
           ("created_at", JStr created_2);
           ("audit_trail", JArr [ JObj [ ("action", JStr "create");
                                         ("user_id", JStr "reliefAdmin");
                                         ("timestamp", JStr audited_2) ] ]) ] ].

(** [d.tags.includes(tag)] for a string [tag] *)
Definition tags_include (d : jsval) (tag : string) : bool :=
  match get_prop d "tags" with
  | JArr items => existsb (fun item => is_string item tag) items
  | _ => false
  end.

(** [v.length] of a value that is neither [null] nor [undefined] *)
Definition js_length (v : jsval) : jsval :=
  match v with
  | JArr items => JNum (inject_Z (Z.of_nat (length items)))
  | JStr s => JNum (inject_Z (Z.of_nat (String.length s)))
  | _ => JUndefined
  end.

(** ** GET /disasters

    [tag] is the query parameter, [None] when it is absent or empty;
    [query] is the store's answer to the range query. *)
Definition list_disasters (x_user_id : option string) (tag : option string)
    (query : reply) : response :=
  match Auth.authenticateUser x_user_id with
  | None => res unauthorized
  | Some user =>
      match query with
      | Rejects e => res (failed message "Failed to fetch disasters" e [])
      | Reply data error =>
          if truthy error then
            let filteredMockData :=
              match tag with
              | Some t => List.filter (fun d => tags_include d t) mockDisasters
              | None => mockDisasters
              end in
            respond 200
              [ ("data", JArr filteredMockData);
                ("count", JNum (inject_Z (Z.of_nat (length filteredMockData))));
                ("message", JStr "Using mock data due to database connection issue") ]
          else if is_nullish data then
            (* [data.length] in the log line *)
            res (failed message "Failed to fetch disasters" TypeError [])
          else
            respond 200
              [ ("data", js_or data (JArr []));
                ("count", if truthy data then js_length data else JNum 0) ]
      end
  end.

(** ** GET /disasters/:id *)
Definition get_disaster (x_user_id : option string) (id : string) (fetch : reply)
  : run :=
  match Auth.authenticateUser x_user_id with
  | None => unauthorized
  | Some user =>
      let sent := [SelectOne "disasters" "*" [("id", id)]] in
      match fetch with
      | Rejects e => failed message "Failed to fetch disaster" e sent
      | Reply data error =>
          if (truthy error || negb (truthy data))%bool then
            match find (fun d => is_string (get_prop d "id") id) mockDisasters with
            | Some mockDisaster =>
                {| res := respond 200 [ ("data", mockDisaster);
                                        ("message", JStr "Using mock data") ];
                   emitted := []; calls := sent |}
            | None =>
                {| res := respond 404 [ ("error", JStr "Disaster not found");
                                        ("id", JStr id) ];
                   emitted := []; calls := sent |}
            end
          else
            {| res := respond 200 [ ("data", data) ];
               emitted := []; calls := sent |}
      end
  end.

End Routes.

End Queries.

(** * The single-image verification route on the whole request *)

Module VerifyRequest.

Import Verification.

Section Route.

(** [new URL(url)] returns. *)
Variable valid_url : string -> bool.
(** [new URL(v)] returns for the array with these items, whose text is the
    texts of the items joined by commas. *)
Variable valid_array_url : list jsval -> bool.
(** [Buffer.from(s).toString('base64')] *)
Variable base64 : string -> string.
(** [JSON.stringify] *)
Variable stringify : jsval -> string.
(** [new Date(ms).toISOString()] *)
Variable toISOString : Z -> string.
(** [error.message] of a thrown error. *)
Variable message : exn -> string.

Notation "x <- m ;; k" := (Cache.bind m (fun x => k))
  (at level 100, m at next level, right associativity).

Definition missing_field : response :=
  Handlers.respond 400 [ ("error", JStr "Missing required field");
                         ("message", JStr "image_url is required") ].

Definition invalid_url : response :=
  Handlers.respond 400 [ ("error", JStr "Invalid URL");
                         ("message", JStr "image_url must be a valid URL") ].

(** [verifyImageWithGemini(imageUrl)] for an array with at least one item.
    [getMockVerificationResult] throws at [imageUrl.charCodeAt(0)], which
    an array does not have, also when it is called from the [catch]; only
    an answer of the model gives a result, which carries the array under
    [image_url]. *)
Definition verifyArrayWithGemini (g : gemini_run) (imageUrl : jsval) (now : Z)
  : outcome jsval :=
  match g with
  | NoApiKey | FetchFails | ModelFails => Throws TypeError
  | Answers analysisText =>
      Returns (set_prop (parseGeminiVerificationResponse toISOString analysisText ""
                           now)
                 "image_url" imageUrl)
  end.

(** The cache-then-verify sequence of the route for such an array; the key
    is made of its JSON text. *)
Definition verify_cached_array (c : Cache.CacheService) (e : lookup_env)
    (imageUrl : jsval) : Cache.M (value := jsval) jsval :=
  let cacheKey := Cache.generateKey base64 "image_verification" (stringify imageUrl) in
  let verify : Cache.M (value := jsval) jsval :=
    match verifyArrayWithGemini (run e) imageUrl (at_verify e) with
    | Returns result =>
        _ <- Cache.set c (at_set e) (on_upsert e) cacheKey result (Some 86400) ;;
        Cache.ret result
    | Throws error => Cache.throw error
    end in
  result <- Cache.get (at_get e) (on_select e) (on_delete e) cacheKey ;;
  match result with
  | Some cached => if truthy cached then Cache.ret cached else verify
  | None => verify
  end.

(** [POST /disasters/:id/verify-image], middleware included.  [payload] is
    [req.body]: [undefined] when the request carried no body that a parser
    took up.  The text of a number, of [true], of an object and of the
    empty array has no scheme, so that [new URL] throws on them. *)
Definition post_verify_image (c : Cache.CacheService) (x_user_id : option string)
    (disasterId : string) (payload : jsval) (e : lookup_env) (at_reply : Z)
  : Cache.M (value := jsval) response :=
  match Auth.authenticateUser x_user_id with
  | None =>
      Cache.ret (Handlers.respond 401 [ ("error", JStr "Authentication failed");
                                        ("message", JStr "Invalid user ID") ])
  | Some user =>
      let answer (verificationResult : jsval) : response :=
        Handlers.respond 200 [ ("disaster_id", JStr disasterId);
                               ("verification", verificationResult);
                               ("verified_by", JStr (Auth.id user));
                               ("timestamp", JStr (toISOString at_reply)) ] in
      Cache.try_catch
        (if Handlers.is_nullish payload then
           (* the destructuring of [req.body] *)
           Cache.throw TypeError
         else
           let image_url := get_prop payload "image_url" in
           if negb (truthy image_url) then Cache.ret missing_field
           else
             match image_url with
             | JStr url =>
                 if negb (valid_url url) then Cache.ret invalid_url
                 else
                   verificationResult <- verify_cached base64 toISOString c e url ;;
                   Cache.ret (answer verificationResult)
             | JArr (first :: rest) =>
                 if negb (valid_array_url (first :: rest)) then Cache.ret invalid_url
                 else
                   verificationResult <- verify_cached_array c e image_url ;;
                   Cache.ret (answer verificationResult)
             | _ => Cache.ret invalid_url
             end)
        (fun error =>
           Cache.ret (Handlers.respond 500
                        [ ("error", JStr "Image verification failed");
                          ("message", JStr (message error)) ]))
  end.

End Route.

End VerifyRequest.

(** * The text of a cache key *)

Module Base64.

(** The UTF-8 bytes of a character below U+0100. *)
Definition utf8_char (c : ascii) : list Z :=
  let n := Z.of_nat (nat_of_ascii c) in
  if n <? 128 then [n] else [192 + n / 64; 128 + n mod 64].

(** [Buffer.from(s)]: the UTF-8 bytes of a string. *)
Fixpoint utf8 (s : string) : list Z :=
  match s with
  | EmptyString => []
  | String c rest => (utf8_char c ++ utf8 rest)%list
  end.

Definition alphabet : string :=
  "ABCDEFGHIJKLMNOPQRSTUVWXYZabcdefghijklmnopqrstuvwxyz0123456789+/".

(** The character that stands for six bits. *)
Definition digit (n : Z) : ascii :=
  match String.get (Z.to_nat n) alphabet with
  | Some c => c
  | None => "="%char
  end.

(** [buffer.toString('base64')]: three bytes give four characters, and a
    last group of one or two bytes is padded with equals signs. *)
Fixpoint to_base64 (bytes : list Z) : string :=
  match bytes with
  | [] => EmptyString
  | [a] =>
      String (digit (a / 4)) (String (digit (a mod 4 * 16)) "==")
  | [a; b] =>
      String (digit (a / 4))
        (String (digit (a mod 4 * 16 + b / 16))
           (String (digit (b mod 16 * 4)) "="))
  | a :: b :: c :: rest =>
      String (digit (a / 4))
        (String (digit (a mod 4 * 16 + b / 16))
           (String (digit (b mod 16 * 4 + c / 64))
              (String (digit (c mod 64)) (to_base64 rest))))
  end.

(** [Buffer.from(s).toString('base64')] *)
Definition base64 (s : string) : string := to_base64 (utf8 s).

End Base64.

(** * The vocabulary of the statements

    The predicates in which the properties below are stated, and the
    concrete requests and worlds at which they are instantiated. *)

(** ** Statements about the cache *)

Module CacheSpec.

Import Cache.

(** The service as the module builds it when [CACHE_TTL] is not set. *)
Definition service : CacheService := new_CacheService None.

End CacheSpec.

(** ** Statements about the priority classifier *)

Module SocialMediaSpec.

Import SocialMedia.

(** The four priority levels, highest first. *)
Definition levels : list string := ["critical"; "high"; "normal"; "low"].

(** [content] contains [keyword] up to letter case: some substring of
    [content] has [keyword] as its lower-case form. *)
Definition mentions (content keyword : string) : Prop :=
  exists pre occurrence post,
    content = (pre ++ occurrence ++ post)%string /\
    toLowerCase occurrence = keyword.

(** [content] mentions one of the keywords. *)
Definition mentions_some (content : string) (keywords : list string) : Prop :=
  exists keyword, In keyword keywords /\ mentions content keyword.

End SocialMediaSpec.

(** ** Statements about image verification *)

Module VerificationSpec.

Import Verification.

Section Vocabulary.

(** [Buffer.from(s).toString('base64')] *)
Variable base64 : string -> string.

(** The three verdicts. *)
Definition statuses : list string := ["authentic"; "suspicious"; "fake"].

(** [r.status] is one of the three verdicts. *)
Definition has_status (r : jsval) : Prop :=
  exists s, get_prop r "status" = JStr s /\ In s statuses.

(** The cache rows under the keys of image verification hold verification
    results.  This is so of the empty cache and is kept by the two routes
    that write under these keys. *)
Definition holds_verifications (t : gmap string (Cache.row jsval)) : Prop :=
  forall url row,
    t !! Cache.generateKey base64 "image_verification" url = Some row ->
    has_status (Cache.r_value row).

End Vocabulary.

End VerificationSpec.

(** ** Statements about the proximity query *)

Module ProximitySpec.

Import Proximity.

Local Open Scope R_scope.

(** The haversine distance from the centre to a resource that has
    coordinates. *)
Definition distance_from (lat lng : R) (r : resource) : option R :=
  match coordinates r with
  | Some (resourceLng, resourceLat) =>
      Some (calculateDistance lat lng resourceLat resourceLng)
  | None => None
  end.

(** [r] lies within the radius and carries its distance, rounded to two
    decimals, in [distance_km]. *)
Definition annotated (lat lng radiusKm : R) (r : resource) : Prop :=
  exists d, distance_from lat lng r = Some d /\ d <= radiusKm /\
            distance_km r = Some (Math_round (d * 100) / 100).

(** [a] does not come after [b] by the rounded distance. *)
Definition km_le (a b : resource) : Prop :=
  exists x y, distance_km a = Some x /\ distance_km b = Some y /\ x <= y.

(** [a] is nearer than [b], or farther by less than ten metres. *)
Definition nearly_le (lat lng : R) (a b : resource) : Prop :=
  exists x y, distance_from lat lng a = Some x /\
              distance_from lat lng b = Some y /\ x < y + 1 / 100.

(** The claim read literally: [a] is not farther than [b]. *)
Definition distance_le (lat lng : R) (a b : resource) : Prop :=
  exists x y, distance_from lat lng a = Some x /\
              distance_from lat lng b = Some y /\ x <= y.

(** [r] carries a [distance_km]. *)
Definition has_km (r : resource) : Prop := exists x, distance_km r = Some x.

(** A resource at given coordinates. *)
Definition site (ident : string) (lat lng : R) : resource :=
  {| id := ident; disaster_id := "1"; name := "Shelter"; location_name := "NYC";
     coordinates := Some (lng, lat); type := "shelter"; capacity := 10;
     current_occupancy := 0; contact := ""; amenities := [];
     status := "active"; distance_km := None |}.

(** About 2.2 m and about 1.1 m north of the centre at latitude 1,
    longitude 1. *)
Definition farther : resource := site "farther" (1 + 2 / 100000) 1.
Definition nearer : resource := site "nearer" (1 + 1 / 100000) 1.

(** [a] occurs in the list before an occurrence of [b]. *)
Inductive precedes (a b : resource) : list resource -> Prop :=
| precedes_here (l : list resource) : In b l -> precedes a b (a :: l)
| precedes_later (x : resource) (l : list resource) :
    precedes a b l -> precedes a b (x :: l).

End ProximitySpec.

(** ** Statements about the mutation routes *)

Module HandlersSpec.

Import Handlers.

(** The store carried the write out and handed the row back. *)
Definition stored (r : reply) : bool :=
  match r with
  | Reply data error => (negb (truthy error) && negb (is_nullish data))%bool
  | Rejects _ => false
  end.

(** Where the events of an endpoint go: the routes of disasters broadcast
    to every socket, the routes of resources to the room of the disaster. *)
Definition audience_of (ep : endpoint) (rq : request) : audience :=
  match ep with
  | CreateDisaster | UpdateDisaster | DeleteDisaster => Everyone
  | CreateResource | UpdateResource => Room ("disaster_" ++ params_id rq)%string
  end.

(** The name under which the events of an endpoint are emitted. *)
Definition event_name (ep : endpoint) : string :=
  match ep with
  | CreateDisaster | UpdateDisaster | DeleteDisaster => "disaster_updated"
  | CreateResource | UpdateResource => "resources_updated"
  end.

(** The event carries the action tag [action]. *)
Definition tagged (action : string) (e : event) : Prop :=
  get_prop (payload e) "action" = JStr action.

(** The claim C2 for one run: on a success status, exactly one event, sent
    to the room of the disaster and tagged with the operation. *)
Definition one_event_on_topic (ep : endpoint) (rq : request) (r : run) : Prop :=
  succeeded (res r) = true ->
  exists e, emitted r = [e] /\
            to e = Room ("disaster_" ++ params_id rq)%string /\
            tagged (operation ep) e.



(** A text for values in template literals and a message for thrown
    errors, to run the routes on concrete inputs. *)
Definition plain (v : jsval) : string :=
  match v with
  | JStr s => s
  | _ => "0"
  end.

Definition text (e : exn) : string := "fetch failed".

(** The store answers every query with an error. *)
Definition store_down : world :=
  {| on_read := Reply JNull (JObj [("message", JStr "connection refused")]);
     on_write := Reply JNull (JObj [("message", JStr "connection refused")]);
     random_id := "k3j9x2m1q";
     clock_audit := "2025-06-21T10:00:00.000Z";
     clock_mock := "2025-06-21T10:00:00.001Z" |}.

(** The store carries the write out and hands back a row. *)
Definition store_up : world :=
  {| on_read := Reply (JObj [("owner_id", JStr "citizen1")]) JNull;
     on_write := Reply (JObj [("id", JStr "7")]) JNull;
     random_id := "k3j9x2m1q";
     clock_audit := "2025-06-21T10:00:00.000Z";
     clock_mock := "2025-06-21T10:00:00.001Z" |}.

(** A contributor creates a resource; the body also names an occupancy and
    a status. *)
Definition depot_request : request :=
  {| x_user_id := Some "citizen1"; params_id := "1"; params_resourceId := "";
     req_body := JObj [ ("name", JStr "Depot"); ("location_name", JStr "Pier 4");
                        ("type", JStr "supplies");
                        ("current_occupancy", JNum 5); ("status", JStr "full") ] |}.

(** An administrator's request about disaster 1, with the body of a
    create. *)
Definition flood_request : request :=
  {| x_user_id := Some "netrunnerX"; params_id := "1"; params_resourceId := "";
     req_body := JObj [ ("title", JStr "NYC Flood Emergency");
                        ("location_name", JStr "Manhattan, NYC");
                        ("description", JStr "Severe flooding") ] |}.

End HandlersSpec.

(** ** Statements about cache keys *)

Module Base64Spec.

Import Base64.

(** The six bits that a character of the alphabet stands for. *)
Fixpoint position (c : ascii) (s : string) : Z :=
  match s with
  | EmptyString => 0
  | String c' rest => if Ascii.eqb c' c then 0 else 1 + position c rest
  end.

Definition value (c : ascii) : Z := position c alphabet.

(** Reading base64 text back into bytes. *)
Fixpoint from_base64 (s : string) : list Z :=
  match s with
  | String c1 (String c2 (String c3 (String c4 rest))) =>
      if Ascii.eqb c3 "=" then [value c1 * 4 + value c2 / 16]
      else if Ascii.eqb c4 "="
      then [value c1 * 4 + value c2 / 16; value c2 mod 16 * 16 + value c3 / 4]
      else (value c1 * 4 + value c2 / 16) ::
           (value c2 mod 16 * 16 + value c3 / 4) ::
           (value c3 mod 4 * 64 + value c4) :: from_base64 rest
  | _ => []
  end.

(** Reading UTF-8 bytes back into characters below U+0100. *)
Fixpoint from_utf8 (bytes : list Z) : string :=
  match bytes with
  | [] => EmptyString
  | a :: rest =>
      if a <? 128 then String (ascii_of_nat (Z.to_nat a)) (from_utf8 rest)
      else match rest with
           | b :: rest' =>
               String (ascii_of_nat (Z.to_nat ((a - 192) * 64 + (b - 128))))
                      (from_utf8 rest')
           | [] => EmptyString
           end
  end.

(** A byte. *)
Definition byte (b : Z) : Prop := 0 <= b < 256.

End Base64Spec.

(** ** Statements about access control and the audit trail *)

Module AccessSpec.

Import Handlers.



(** The [x-user-id] headers of the two administrators of [mockUsers]. *)
Definition admin_headers : list (option string) :=
  [Some "netrunnerX"; Some "reliefAdmin"].

(** The columns that [PUT /disasters/:id] can write. *)
Definition updatable : list string :=
  ["title"; "location_name"; "description"; "tags"; "location"; "audit_trail"].

(** The fields of a body that [PUT /disasters/:id] takes over, in the
    order in which it does. *)
Definition changed_fields (body : jsval) : list string :=
  (List.filter (fun k => truthy (get_prop body k))
     ["title"; "location_name"; "description"; "tags"] ++
   (if has_point (get_prop body "location") then ["location"] else []))%list.

(** A disaster owned by [citizen1], and the body of an update by its owner. *)
Definition owned_by_citizen1 : reply :=
  Reply (JObj [ ("owner_id", JStr "citizen1");
                ("audit_trail",
                 JArr [ JObj [ ("action", JStr "create");
                               ("user_id", JStr "citizen1");
                               ("timestamp", JStr "2025-06-20T08:00:00.000Z") ] ]) ])
        JNull.

Definition retitle : jsval :=
  JObj [ ("title", JStr "NYC Flood, day 2"); ("owner_id", JStr "volunteer1") ].

(** The body of a create that names an administrator as the owner. *)
Definition claimed : jsval :=
  JObj [ ("title", JStr "Harbour fire");
         ("location_name", JStr "Red Hook, NYC");
         ("description", JStr "Warehouse fire at the harbour");
         ("owner_id", JStr "netrunnerX") ].

End AccessSpec.

(** ** Statements about verdicts *)

Module VerdictSpec.

Import Verification.

(** The flags that go with a verdict of the model's answer. *)
Definition flags_for (verdict : string) : list string :=
  if String.eqb verdict "fake" then ["manipulation_detected"]
  else if String.eqb verdict "suspicious" then ["requires_review"]
  else [].

(** The words that make an answer of the model a fake verdict, and those
    that make it at best a suspicious one. *)
Definition alarm_words : list string := ["manipulated"; "edited"; "fake"].
Definition doubt_words : list string := ["suspicious"; "uncertain"].

(** Collaborators to run the routes on concrete inputs: a URL check, an
    encoding and a clock text. *)
Definition has_scheme (url : string) : bool := startsWith url "http".
Definition verbatim (s : string) : string := s.
Definition noon (instant : Z) : string := "2025-06-21T12:00:00.000Z".

(** A world in which the store serves every call and no API key is set. *)
Definition calm (instant : Z) : lookup_env :=
  {| at_get := instant; on_select := Served; on_delete := Served;
     run := NoApiKey; at_verify := instant;
     at_set := instant; on_upsert := Served |}.

End VerdictSpec.

(** ** Statements about the score read from an answer *)

Module ScoreSpec.

Import Verification.

(** The text stays on its line and holds no digit. *)
Fixpoint plain_run (s : string) : bool :=
  match s with
  | EmptyString => true
  | String c rest =>
      (negb (is_digit c) && negb (is_line_terminator c) && plain_run rest)%bool
  end.

(** The text begins with a digit. *)
Definition numeral_ahead (s : string) : bool :=
  match s with
  | EmptyString => false
  | String c _ => is_digit c
  end.

(** An answer that repeats the heading of the first point of the prompt. *)
Definition echoing_answer : string :=
  "1. Authenticity assessment (scale 0-1): 0.95, the image is genuine.".

End ScoreSpec.

(** ** Statements about the resources served *)

Module NearbySpec.

Import Proximity ProximitySpec.

Local Open Scope R_scope.

(** A resource without the distance that a proximity query writes on it. *)
Definition forget (r : resource) : resource :=
  {| id := id r; disaster_id := disaster_id r; name := name r;
     location_name := location_name r; coordinates := coordinates r;
     type := type r; capacity := capacity r;
     current_occupancy := current_occupancy r; contact := contact r;
     amenities := amenities r; status := status r;
     distance_km := None |}.

(** The resource lies within the radius of the centre. *)
Definition within (lat lng radiusKm : R) (r : resource) : Prop :=
  exists d, distance_from lat lng r = Some d /\ d <= radiusKm.

(** The haversine term [a] of [calculateDistance]. *)
Definition haversine (lat1 lng1 lat2 lng2 : R) : R :=
  sin ((lat2 - lat1) * PI / 180 / 2) * sin ((lat2 - lat1) * PI / 180 / 2) +
  cos (lat1 * PI / 180) * cos (lat2 * PI / 180) *
  sin ((lng2 - lng1) * PI / 180 / 2) * sin ((lng2 - lng1) * PI / 180 / 2).

(** A latitude, in degrees. *)
Definition latitude (lat : R) : Prop := -90 <= lat <= 90.

(** The coordinates of the resource, if it has any, hold a latitude. *)
Definition placed (r : resource) : Prop :=
  forall lng lat, coordinates r = Some (lng, lat) -> latitude lat.

(** The sum of a list of integers. *)
Definition total (l : list Z) : Z := fold_right Z.add 0%Z l.

End NearbySpec.

(** ** Statements about hashtags and the priority board *)

Module ReportsSpec.

Import SocialMedia Reports.

(** The string is made of word characters only. *)
Fixpoint all_word (s : string) : bool :=
  match s with
  | EmptyString => true
  | String c rest => (is_word c && all_word rest)%bool
  end.

(** The string does not go on with a word character. *)
Definition breaks (s : string) : bool :=
  match s with
  | EmptyString => true
  | String c _ => negb (is_word c)
  end.

(** The posts under a level of the board. *)
Fixpoint bucket (level : string) (b : board) : list post :=
  match b with
  | [] => []
  | (k, l) :: rest => if String.eqb k level then l else bucket level rest
  end.

(** A post with the priority that the classifier gives its content. *)
Definition classified (p : post) : post :=
  {| post_id := post_id p; content := content p;
     priority := determinePriority (content p) |}.

End ReportsSpec.

(** * Properties of the cache-through store *)

Module CacheFacts.

Import Cache CacheSpec.

Section Facts.

Context {value : Type}.

Implicit Types (t : gmap string (row value)) (key : string) (v : value).

(** ** Equations of [delete], [get] and [set] *)

Lemma delete_result (f : fault) key t :
  delete f key t =
  match f with
  | Served => (Returns true, base.delete key t)
  | _ => (Returns false, t)
  end.
Proof. destruct f; reflexivity. Qed.

Lemma get_not_served (now : Z) (f_sel f_del : fault) key t :
  f_sel <> Served -> get now f_sel f_del key t = (Returns None, t).
Proof. destruct f_sel; [congruence | reflexivity | reflexivity]. Qed.

Lemma get_miss (now : Z) (f_del : fault) key t :
  t !! key = None -> get now Served f_del key t = (Returns None, t).
Proof.
  intros Hk. unfold get, try_catch, bind, select_single. now rewrite Hk.
Qed.

Lemma get_fresh (now : Z) (f_del : fault) key t (r : row value) :
  t !! key = Some r -> now <= r_expires_at r ->
  get now Served f_del key t = (Returns (Some (r_value r)), t).
Proof.
  intros Hk Hle. unfold get, try_catch, bind, select_single. rewrite Hk.
  destruct (Z.ltb_spec (r_expires_at r) now); [lia | reflexivity].
Qed.

Lemma get_expired (now : Z) (f_del : fault) key t (r : row value) :
  t !! key = Some r -> r_expires_at r < now ->
  get now Served f_del key t =
  (Returns None, match f_del with Served => base.delete key t | _ => t end).
Proof.
  intros Hk Hlt. unfold get, try_catch, bind, select_single. rewrite Hk.
  destruct (Z.ltb_spec (r_expires_at r) now); [| lia].
  rewrite delete_result. destruct f_del; reflexivity.
Qed.

Lemma set_served (c : CacheService) (now : Z) key v (ttlSeconds : option Z) t :
  valid_time (now + effective_ttl c ttlSeconds * 1000) = true ->
  set c now Served key v ttlSeconds t =
  (Returns true, <[key := Row v (now + effective_ttl c ttlSeconds * 1000)]> t).
Proof.
  intros Hv. unfold set, try_catch, bind, toISOString. cbv zeta. now rewrite Hv.
Qed.

Lemma set_not_served (c : CacheService) (now : Z) (f_up : fault) key v
    (ttlSeconds : option Z) t :
  f_up <> Served -> set c now f_up key v ttlSeconds t = (Returns false, t).
Proof.
  intros Hf. unfold set, try_catch, bind, toISOString. cbv zeta.
  destruct (valid_time _); [| reflexivity].
  destruct f_up; [congruence | reflexivity | reflexivity].
Qed.

(** An expiry instant that [Date] cannot represent: [toISOString] throws
    before the store is called, and [set] reports [false]. *)
Lemma set_out_of_range (c : CacheService) (now : Z) (f_up : fault) key v
    (ttlSeconds : option Z) t :
  valid_time (now + effective_ttl c ttlSeconds * 1000) = false ->
  set c now f_up key v ttlSeconds t = (Returns false, t).
Proof.
  intros Hv. unfold set, try_catch, bind, toISOString. cbv zeta. now rewrite Hv.
Qed.

(** [set] reports [true] only when the row was written, with an expiry
    instant that [Date] represents. *)
Lemma set_true_inv (c : CacheService) (now : Z) (f_up : fault) key v
    (ttlSeconds : option Z) t t' :
  set c now f_up key v ttlSeconds t = (Returns true, t') ->
  valid_time (now + effective_ttl c ttlSeconds * 1000) = true /\
  f_up = Served /\
  t' = (<[key := Row v (now + effective_ttl c ttlSeconds * 1000)]> t).
Proof.
  destruct (valid_time (now + effective_ttl c ttlSeconds * 1000)) eqn:Hv.
  - destruct f_up;
      [| rewrite set_not_served by congruence; intros H; discriminate H
       | rewrite set_not_served by congruence; intros H; discriminate H ].
    rewrite (set_served _ _ _ _ _ _ Hv). intros H. now injection H as <-.
  - rewrite (set_out_of_range _ _ _ _ _ _ _ Hv). intros H. discriminate H.
Qed.

(** [get] never throws: it hands back a value or [null]. *)
Lemma get_returns (now : Z) (f_sel f_del : fault) key t :
  exists r t', get now f_sel f_del key t = (Returns r, t').
Proof.
  destruct f_sel; [| eexists _, _; reflexivity | eexists _, _; reflexivity].
  destruct (t !! key) as [r |] eqn:Hk.
  - destruct (Z.lt_ge_cases (r_expires_at r) now) as [Hlt | Hge].
    + rewrite (get_expired _ f_del _ _ _ Hk Hlt). eauto.
    + rewrite (get_fresh _ f_del _ _ _ Hk Hge). eauto.
  - rewrite (get_miss _ f_del _ _ Hk). eauto.
Qed.

(** [get] answers with a value only on a served read of a present row that
    is not past its expiry, and then leaves the table alone. *)
Lemma get_value_inv (now : Z) (f_sel f_del : fault) key t t' v :
  get now f_sel f_del key t = (Returns (Some v), t') ->
  exists r, t !! key = Some r /\ r_value r = v /\
            now <= r_expires_at r /\ t' = t /\ f_sel = Served.
Proof.
  destruct f_sel; [| intros H; discriminate H | intros H; discriminate H].
  destruct (t !! key) as [r |] eqn:Hk.
  - destruct (Z.lt_ge_cases (r_expires_at r) now) as [Hlt | Hge].
    + rewrite (get_expired _ _ _ _ _ Hk Hlt). intros H; discriminate H.
    + rewrite (get_fresh _ _ _ _ _ Hk Hge). intros H.
      injection H as Hv Ht. exists r. auto.
  - rewrite (get_miss _ _ _ _ Hk). intros H; discriminate H.
Qed.

(** A read of a row that is past its expiry reports absence, whatever the
    store does. *)
Lemma get_past_expiry (now : Z) (f_sel f_del : fault) key t (r : row value) :
  t !! key = Some r -> r_expires_at r < now ->
  fst (get now f_sel f_del key t) = Returns None.
Proof.
  intros Hk Hlt. destruct f_sel.
  - now rewrite (get_expired _ _ _ _ _ Hk Hlt).
  - reflexivity.
  - reflexivity.
Qed.

(** The three ways a [get] can end, and the two ways a [set] can. *)
Lemma get_cases (now : Z) (f_sel f_del : fault) key t :
  (exists r, t !! key = Some r /\
             get now f_sel f_del key t = (Returns (Some (r_value r)), t)) \/
  get now f_sel f_del key t = (Returns None, t) \/
  get now f_sel f_del key t = (Returns None, base.delete key t).
Proof.
  destruct f_sel; [| right; left; reflexivity | right; left; reflexivity].
  destruct (t !! key) as [r |] eqn:Hk.
  - destruct (Z.lt_ge_cases (r_expires_at r) now) as [Hlt | Hge].
    + rewrite (get_expired _ f_del _ _ _ Hk Hlt). destruct f_del; auto.
    + left. exists r. split; [reflexivity |]. exact (get_fresh _ f_del _ _ _ Hk Hge).
  - right; left. exact (get_miss _ f_del _ _ Hk).
Qed.

Lemma set_cases (c : CacheService) (now : Z) (f_up : fault) key v
    (ttlSeconds : option Z) t :
  set c now f_up key v ttlSeconds t =
    (Returns true, <[key := Row v (now + effective_ttl c ttlSeconds * 1000)]> t) \/
  set c now f_up key v ttlSeconds t = (Returns false, t).
Proof.
  destruct (valid_time (now + effective_ttl c ttlSeconds * 1000)) eqn:Hv.
  - destruct f_up; [left; now apply set_served | right | right];
      apply set_not_served; congruence.
  - right. now apply set_out_of_range.
Qed.

(** ** C1 *)

(** C1, amended.  [get] never hands back a value whose expiry instant lies
    strictly before the instant of the read: a value is returned only for a
    present row with [now <= expires_at].  When the row of the key is present
    and [expires_at < now], [get] reports absence, and the row is deleted
    when the store serves the read and the delete.  After a [set] that
    succeeded, a read strictly later than [ttl] seconds (the default TTL
    when [ttlSeconds] is missing or zero) reports absence. *)
Theorem get_checks_expiry (c : CacheService) key t (now : Z) (f_sel f_del : fault) :
  (forall v t', get now f_sel f_del key t = (Returns (Some v), t') ->
     exists r, t !! key = Some r /\ r_value r = v /\ now <= r_expires_at r) /\
  (forall r, t !! key = Some r -> r_expires_at r < now ->
     fst (get now f_sel f_del key t) = Returns None /\
     (f_sel = Served -> f_del = Served ->
      snd (get now f_sel f_del key t) = base.delete key t)) /\
  (forall v (ttlSeconds : option Z) (at_set : Z) (f_up : fault) t0,
     set c at_set f_up key v ttlSeconds t0 = (Returns true, t) ->
     at_set + effective_ttl c ttlSeconds * 1000 < now ->
     fst (get now f_sel f_del key t) = Returns None).
Proof.
  split; [| split].
  - intros v t' H. apply get_value_inv in H as (r & Hk & Hv & Hle & _).
    exists r. auto.
  - intros r Hk Hlt. split.
    + exact (get_past_expiry _ _ _ _ _ _ Hk Hlt).
    + intros -> ->. now rewrite (get_expired _ _ _ _ _ Hk Hlt).
  - intros v ttlSeconds at_set f_up t0 Hset Hlate.
    apply set_true_inv in Hset as (_ & _ & ->).
    eapply get_past_expiry; [apply lookup_insert_eq | exact Hlate].
Qed.

(** ** C7 *)

(** C7.  No store error reaches the caller.  [get] always returns, and when
    the store does not serve the read it returns [null] and leaves the table
    alone, exactly as it does on a miss.  [set] always returns, and when the
    store does not serve the write it returns [false] and leaves the table
    alone. *)
Theorem store_errors_swallowed (c : CacheService) (now : Z) key v
    (ttlSeconds : option Z) t (f_sel f_del f_up : fault) :
  (exists r t', get now f_sel f_del key t = (Returns r, t')) /\
  (f_sel <> Served -> get now f_sel f_del key t = (Returns None, t)) /\
  (t !! key = None -> get now Served f_del key t = (Returns None, t)) /\
  (exists b t', set c now f_up key v ttlSeconds t = (Returns b, t')) /\
  (f_up <> Served -> set c now f_up key v ttlSeconds t = (Returns false, t)).
Proof.
  repeat split.
  - apply get_returns.
  - apply get_not_served.
  - apply get_miss.
  - destruct (set_cases c now f_up key v ttlSeconds t) as [E | E];
      rewrite E; eexists _, _; reflexivity.
  - apply set_not_served.
Qed.

(** ** C8 *)

(** C8, amended.  With a positive [ttl] and the store serving both calls:
    when the expiry instant [now + ttl * 1000] is one that [Date]
    represents, [set(K, V, ttl)] succeeds and a [get(K)] at the same instant
    returns [V], leaving the table as [set] left it; when it is not, [set]
    reports [false] without calling the store and leaves the table as it
    was. *)
Theorem set_then_get (c : CacheService) (now ttl : Z) key v t (f_del : fault) :
  0 < ttl ->
  let written := set c now Served key v (Some ttl) t in
  (valid_time (now + ttl * 1000) = true ->
   fst written = Returns true /\
   get now Served f_del key (snd written) = (Returns (Some v), snd written)) /\
  (valid_time (now + ttl * 1000) = false -> written = (Returns false, t)).
Proof.
  intros Httl written. subst written.
  assert (Heff : effective_ttl c (Some ttl) = ttl).
  { unfold effective_ttl. destruct (Z.eqb_spec ttl 0); [lia | reflexivity]. }
  split.
  - intros Hv. rewrite set_served by now rewrite Heff.
    rewrite Heff. cbn [fst snd]. split; [reflexivity |].
    apply (get_fresh now f_del key _ (Row v (now + ttl * 1000))).
    + apply lookup_insert_eq.
    + simpl. lia.
  - intros Hv. apply set_out_of_range. now rewrite Heff.
Qed.

End Facts.

(** C1 as stated fails at the expiry instant itself: a value stored at
    instant 0 with a TTL of one second is still returned by a read at
    instant 1000, one full second later. *)
Lemma get_at_expiry_instant :
  let written := set service 0 Served "k" "v" (Some 1) (∅ : gmap string (row string)) in
  fst written = Returns true /\
  0 + 1 * 1000 <= 1000 /\
  get 1000 Served Served "k" (snd written) = (Returns (Some "v"), snd written).
Proof.
  cbv zeta. rewrite set_served by reflexivity. cbn [fst snd].
  split; [reflexivity | split; [lia |]].
  apply (get_fresh 1000 Served "k" _ (Row "v" 1000)).
  - apply lookup_insert_eq.
  - simpl. lia.
Qed.

Lemma get_checks_expiry_witness :
  fst (get 1001 Served Served "k"
         (<["k" := Row "v" 1000]> (∅ : gmap string (row string)))) = Returns None.
Proof.
  refine (proj2 (proj2 (get_checks_expiry service "k" _ 1001 Served Served))
            "v" (Some 1) 0 Served ∅ _ _).
  - reflexivity.
  - reflexivity.
Defined.

Lemma store_errors_swallowed_witness :
  get 5 Errored Served "k" (<["k" := Row "v" 1000]> (∅ : gmap string (row string)))
  = (Returns None, <["k" := Row "v" 1000]> ∅).
Proof.
  refine (proj1 (proj2 (store_errors_swallowed service 5 "k" "v" None _
                          Errored Served Served)) _).
  discriminate.
Defined.

(** C8 as stated fails for a [ttl] that takes the expiry instant out of the
    range of [Date]: at instant 1750000000000 (in June 2025) with a TTL of
    ten million million seconds, [set] reports [false], nothing is stored,
    and the [get] that follows returns [null], not the value. *)
Lemma set_beyond_the_range_of_Date :
  let written := set service 1750000000000 Served "k" "v" (Some 10000000000000)
                   (∅ : gmap string (row string)) in
  0 < 10000000000000 /\
  written = (Returns false, ∅) /\
  get 1750000000000 Served Served "k" (snd written) = (Returns None, ∅).
Proof.
  cbv zeta. rewrite set_out_of_range by reflexivity. cbn [snd].
  split; [lia |]. split; [reflexivity |].
  apply get_miss, lookup_empty.
Qed.

Lemma set_then_get_witness :
  get 0 Served Served "k"
    (snd (set service 0 Served "k" "v" (Some 60) (∅ : gmap string (row string))))
  = (Returns (Some "v"),
     snd (set service 0 Served "k" "v" (Some 60) (∅ : gmap string (row string)))).
Proof.
  refine (proj2 (proj1 (set_then_get service 0 60 "k" "v" ∅ Served _) _)).
  - reflexivity.
  - reflexivity.
Defined.

End CacheFacts.

(** * Properties of the priority classifier *)

Module SocialMediaFacts.

Import SocialMedia SocialMediaSpec.

(** ** Substring search *)

Lemma startsWith_spec (p s : string) :
  startsWith s p = true <-> exists post, s = (p ++ post)%string.
Proof.
  revert s. induction p as [| a p IH]; intros s; simpl.
  - split; [intros _; exists s; reflexivity | intros _; destruct s; reflexivity].
  - destruct s as [| b s]; simpl.
    + split; [discriminate | intros [post H]; discriminate H].
    + rewrite andb_true_iff, IH. split.
      * intros [Hab [post ->]]. apply Ascii.eqb_eq in Hab as ->. now exists post.
      * intros [post H]. injection H as -> ->. split.
        -- apply Ascii.eqb_refl.
        -- now exists post.
Qed.

Lemma includes_unfold (s p : string) :
  includes s p =
  (startsWith s p ||
   match s with
   | EmptyString => false
   | String _ rest => includes rest p
   end)%bool.
Proof. destruct s; reflexivity. Qed.

Lemma includes_spec (s p : string) :
  includes s p = true <-> exists pre post, s = (pre ++ p ++ post)%string.
Proof.
  induction s as [| c s IH]; rewrite includes_unfold, orb_true_iff, startsWith_spec.
  - split.
    + intros [[post H] | H]; [| discriminate H]. now exists EmptyString, post.
    + intros [pre [post H]]. left. destruct pre as [| a pre]; [| discriminate H].
      now exists post.
  - rewrite IH. split.
    + intros [[post H] | [pre [post H]]].
      * now exists EmptyString, post.
      * exists (String c pre), post. simpl. now rewrite H.
    + intros [pre [post H]]. destruct pre as [| a pre].
      * left. now exists post.
      * right. injection H as _ H. now exists pre, post.
Qed.

Lemma toLowerCase_app (a b : string) :
  toLowerCase (a ++ b) = (toLowerCase a ++ toLowerCase b)%string.
Proof. induction a as [| c a IH]; simpl; [reflexivity | now rewrite IH]. Qed.

Lemma toLowerCase_split (s a b : string) :
  toLowerCase s = (a ++ b)%string ->
  exists s1 s2, s = (s1 ++ s2)%string /\ toLowerCase s1 = a /\ toLowerCase s2 = b.
Proof.
  revert s. induction a as [| c a IH]; intros s H; simpl in H.
  - now exists EmptyString, s.
  - destruct s as [| d s]; simpl in H; [discriminate H |].
    injection H as Hc H. destruct (IH s H) as (s1 & s2 & -> & <- & <-).
    exists (String d s1), s2. simpl. now rewrite Hc.
Qed.

(** The test made by [determinePriority] is the case-insensitive
    containment of the keyword. *)
Lemma mentions_includes (content keyword : string) :
  mentions content keyword <-> includes (toLowerCase content) keyword = true.
Proof.
  rewrite includes_spec. split.
  - intros (pre & occ & post & -> & <-).
    exists (toLowerCase pre), (toLowerCase post).
    now rewrite !toLowerCase_app.
  - intros (a & b & H).
    apply toLowerCase_split in H as (pre & rest & -> & <- & H).
    apply toLowerCase_split in H as (occ & post & -> & <- & <-).
    now exists pre, occ, post.
Qed.

Lemma mentions_some_spec (content : string) (keywords : list string) :
  mentions_some content keywords <->
  some (fun keyword => includes (toLowerCase content) keyword) keywords = true.
Proof.
  unfold some, mentions_some. rewrite existsb_exists.
  split; intros (k & Hin & H); exists k; (split; [exact Hin |]);
    now apply mentions_includes.
Qed.

Lemma not_mentions_some (content : string) (keywords : list string) :
  ~ mentions_some content keywords ->
  some (fun keyword => includes (toLowerCase content) keyword) keywords = false.
Proof.
  intros H. apply not_true_is_false. intros Hs. apply H.
  now apply mentions_some_spec.
Qed.

(** ** C5 *)

(** C5.  [determinePriority] is a total function of the text alone into the
    four levels.  The keyword lists are tried in the order critical, high,
    normal and the first list with a keyword that the text contains (up to
    letter case) decides; none gives [low].  In particular a text that
    contains a critical keyword is [critical] whatever else it contains, as
    for "SOS, need shelter". *)
Theorem determinePriority_first_tier_wins (content : string) :
  In (determinePriority content) levels /\
  (mentions_some content criticalKeywords -> determinePriority content = "critical") /\
  (~ mentions_some content criticalKeywords ->
   mentions_some content highKeywords -> determinePriority content = "high") /\
  (~ mentions_some content criticalKeywords ->
   ~ mentions_some content highKeywords ->
   mentions_some content normalKeywords -> determinePriority content = "normal") /\
  (~ mentions_some content criticalKeywords ->
   ~ mentions_some content highKeywords ->
   ~ mentions_some content normalKeywords -> determinePriority content = "low") /\
  determinePriority "SOS, need shelter" = "critical".
Proof.
  repeat split.
  - unfold determinePriority, levels.
    repeat match goal with
           | |- context [if ?b then _ else _] => destruct b
           end; simpl; auto.
  - intros Hc. unfold determinePriority.
    apply mentions_some_spec in Hc. now rewrite Hc.
  - intros Hc Hh. unfold determinePriority.
    rewrite (not_mentions_some _ _ Hc).
    apply mentions_some_spec in Hh. now rewrite Hh.
  - intros Hc Hh Hn. unfold determinePriority.
    rewrite (not_mentions_some _ _ Hc), (not_mentions_some _ _ Hh).
    apply mentions_some_spec in Hn. now rewrite Hn.
  - intros Hc Hh Hn. unfold determinePriority.
    now rewrite (not_mentions_some _ _ Hc), (not_mentions_some _ _ Hh),
      (not_mentions_some _ _ Hn).
Qed.

Lemma determinePriority_first_tier_wins_witness :
  determinePriority "URGENT: shelter and food needed" = "critical".
Proof.
  refine (proj1 (proj2 (determinePriority_first_tier_wins _)) _).
  exists "urgent". split.
  - simpl. auto.
  - exists "", "URGENT", ": shelter and food needed". split; reflexivity.
Defined.

End SocialMediaFacts.

(** * Properties of objects *)

Module ObjectFacts.

Lemma lookup_assign (k k' : string) (v : jsval) (fields : list (string * jsval)) :
  lookup_field k (assign_field k' v fields) =
  if String.eqb k' k then v else lookup_field k fields.
Proof.
  induction fields as [| [k0 v0] fields IH]; simpl.
  - destruct (String.eqb k' k); reflexivity.
  - destruct (String.eqb_spec k0 k') as [-> | Hne]; simpl.
    + destruct (String.eqb k' k); reflexivity.
    + rewrite IH. destruct (String.eqb_spec k0 k) as [-> | Hne']; [| reflexivity].
      destruct (String.eqb_spec k' k) as [-> | _]; [congruence | reflexivity].
Qed.

Lemma get_set_prop_other (fields : list (string * jsval)) (k k' : string) (v : jsval) :
  k' <> k -> get_prop (set_prop (JObj fields) k' v) k = get_prop (JObj fields) k.
Proof.
  intros Hne. simpl. rewrite lookup_assign.
  destruct (String.eqb_spec k' k); [contradiction | reflexivity].
Qed.

End ObjectFacts.

(** * Properties of image verification *)

Module VerificationFacts.

Import Verification VerificationSpec.

(** ** The hash of a URL *)

Lemma ToInt32_low_bits (z : Z) : ToInt32 z mod 2 ^ 28 = z mod 2 ^ 28.
Proof.
  unfold ToInt32. rewrite (Z.mod_eq (z + 2 ^ 31) (2 ^ 32)) by lia.
  replace (z + 2 ^ 31 - 2 ^ 32 * ((z + 2 ^ 31) / 2 ^ 32) - 2 ^ 31)
    with (z + (- 16 * ((z + 2 ^ 31) / 2 ^ 32)) * 2 ^ 28) by lia.
  apply Z.mod_add. lia.
Qed.

Lemma ToInt32_small (z : Z) : - 2 ^ 31 <= z < 2 ^ 31 -> ToInt32 z = z.
Proof. intros H. unfold ToInt32. rewrite Z.mod_small; lia. Qed.

(** The loop computes the polynomial hash with multiplier 31 on 28 bits. *)
Lemma hash_step_closed (hash code : Z) :
  hash_step hash code = (31 * hash + code) mod 2 ^ 28.
Proof.
  unfold hash_step, and32.
  rewrite (ToInt32_small 268435455) by lia.
  change 268435455 with (Z.ones 28). rewrite Z.land_ones by lia.
  rewrite ToInt32_small
    by (pose proof (Z.mod_pos_bound (ToInt32 (shl32 hash 5 - hash + code)) (2 ^ 28));
        lia).
  rewrite ToInt32_low_bits.
  unfold shl32. change (5 mod 32) with 5. rewrite Z.shiftl_mul_pow2 by lia.
  rewrite <- (Z.add_mod_idemp_l (_ - hash)) by lia.
  rewrite <- (Zminus_mod_idemp_l (ToInt32 _)).
  rewrite ToInt32_low_bits.
  rewrite <- (Z.mul_mod_idemp_l (ToInt32 hash)) by lia.
  rewrite ToInt32_low_bits.
  rewrite Z.mul_mod_idemp_l by lia.
  rewrite Zminus_mod_idemp_l, Z.add_mod_idemp_l by lia.
  f_equal. lia.
Qed.

Section Facts.

Variable valid_url : string -> bool.
Variable base64 : string -> string.
Variable toISOString : Z -> string.

(** The index into the fixtures is always one of the three positions. *)
Lemma mock_index_in_range (imageUrl : string) :
  (Z.to_nat (Z.rem (Z.abs (url_hash imageUrl))
                   (Z.of_nat (length mockVerificationResults))) < 3)%nat.
Proof.
  change (Z.of_nat (length mockVerificationResults)) with 3.
  pose proof (Z.rem_bound_pos (Z.abs (url_hash imageUrl)) 3). lia.
Qed.

(** The mock result is a fixture with [image_url] and [verified_at] set. *)
Lemma getMockVerificationResult_fixture (imageUrl : string) (now : Z) :
  exists fields,
    In (JObj fields) mockVerificationResults /\
    getMockVerificationResult toISOString imageUrl now =
    set_prop (set_prop (JObj fields) "image_url" (JStr imageUrl))
      "verified_at" (JStr (toISOString now)).
Proof.
  unfold getMockVerificationResult.
  pose proof (mock_index_in_range imageUrl) as Hi.
  destruct (Z.to_nat _) as [| [| [| i]]]; [| | | lia];
    eexists; (split; [| reflexivity]); simpl; auto.
Qed.

(** Apart from [verified_at], the properties of the mock result do not
    depend on the instant of the call. *)
Lemma mock_prop_untimed (imageUrl : string) (now : Z) (k : string) :
  k <> "verified_at" ->
  get_prop (getMockVerificationResult toISOString imageUrl now) k =
  get_prop
    (set_prop
       (JObj (spread (nth (Z.to_nat (Z.rem (Z.abs (url_hash imageUrl))
                                           (Z.of_nat (length mockVerificationResults))))
                          mockVerificationResults JUndefined)))
       "image_url" (JStr imageUrl)) k.
Proof.
  intros Hk. unfold getMockVerificationResult. cbv zeta.
  generalize (spread (nth (Z.to_nat (Z.rem (Z.abs (url_hash imageUrl))
                                           (Z.of_nat (length mockVerificationResults))))
                          mockVerificationResults JUndefined)).
  intros fields. cbn [set_prop].
  apply (ObjectFacts.get_set_prop_other _ k "verified_at"). congruence.
Qed.

(** ** C9 *)

(** C9.  Two computations of the mock verification result for the same URL
    agree on every property other than [verified_at], among them [status],
    [authenticity_score], [analysis], [confidence], [flags] and
    [detected_objects]; and two fallback verifications of one URL (no API
    key, image fetch failed or model call failed) have the same status. *)
Theorem mock_verification_deterministic (imageUrl : string) (now1 now2 : Z) :
  let r1 := getMockVerificationResult toISOString imageUrl now1 in
  let r2 := getMockVerificationResult toISOString imageUrl now2 in
  (forall k, k <> "verified_at" -> get_prop r1 k = get_prop r2 k) /\
  get_prop r1 "status" = get_prop r2 "status" /\
  get_prop r1 "authenticity_score" = get_prop r2 "authenticity_score" /\
  get_prop r1 "analysis" = get_prop r2 "analysis" /\
  get_prop r1 "confidence" = get_prop r2 "confidence" /\
  get_prop r1 "flags" = get_prop r2 "flags" /\
  get_prop r1 "detected_objects" = get_prop r2 "detected_objects" /\
  (forall g1 g2,
     (forall text, g1 <> Answers text) -> (forall text, g2 <> Answers text) ->
     get_prop (verifyImageWithGemini toISOString g1 imageUrl now1) "status" =
     get_prop (verifyImageWithGemini toISOString g2 imageUrl now2) "status").
Proof.
  intros r1 r2.
  assert (H : forall k, k <> "verified_at" -> get_prop r1 k = get_prop r2 k).
  { intros k Hk. subst r1 r2. now rewrite !mock_prop_untimed by exact Hk. }
  split; [exact H |].
  do 6 (split; [apply H; discriminate |]).
  intros g1 g2 H1 H2.
  destruct g1 as [| | | text1]; [| | | now destruct (H1 text1)];
    (destruct g2 as [| | | text2]; [| | | now destruct (H2 text2)]);
    apply H; discriminate.
Qed.

(** ** Bulk verification *)

Lemma mock_has_status (imageUrl : string) (now : Z) :
  has_status (getMockVerificationResult toISOString imageUrl now).
Proof.
  unfold has_status. rewrite mock_prop_untimed by discriminate.
  pose proof (mock_index_in_range imageUrl) as Hi.
  destruct (Z.to_nat _) as [| [| [| i]]]; [| | | lia];
    eexists; (split; [reflexivity |]); simpl; auto.
Qed.

Lemma parsed_has_status (analysisText imageUrl : string) (now : Z) :
  has_status (parseGeminiVerificationResponse toISOString analysisText imageUrl now).
Proof.
  unfold has_status, parseGeminiVerificationResponse. cbv zeta.
  cbn [get_prop lookup_field]. simpl (String.eqb _ _).
  cbv iota.
  match goal with
  | |- context [JStr (if ?b then _ else if ?b' then _ else _)] =>
      destruct b; [| destruct b']
  end; eexists; (split; [reflexivity |]); simpl; auto.
Qed.

Lemma verified_has_status (g : gemini_run) (imageUrl : string) (now : Z) :
  has_status (verifyImageWithGemini toISOString g imageUrl now).
Proof.
  destruct g; simpl; auto using mock_has_status, parsed_has_status.
Qed.

Lemma holds_delete (t : gmap string (Cache.row jsval)) (key : string) :
  holds_verifications base64 t -> holds_verifications base64 (base.delete key t).
Proof.
  intros H url row Hk. apply lookup_delete_Some in Hk as [_ Hk]. eauto.
Qed.

Lemma holds_insert (t : gmap string (Cache.row jsval)) (key : string)
    (r : jsval) (expires_at : Z) :
  has_status r -> holds_verifications base64 t ->
  holds_verifications base64 (<[key := Cache.Row r expires_at]> t).
Proof.
  intros Hr H url row Hk. apply lookup_insert_Some in Hk as [[_ <-] | [_ Hk]]; eauto.
Qed.

Lemma holds_set (c : Cache.CacheService) (now : Z) (f : fault) (key : string)
    (r : jsval) (ttl : option Z) (t : gmap string (Cache.row jsval)) :
  has_status r -> holds_verifications base64 t ->
  exists b t', Cache.set c now f key r ttl t = (Returns b, t') /\
               holds_verifications base64 t'.
Proof.
  intros Hr H. destruct (CacheFacts.set_cases c now f key r ttl t) as [E | E];
    rewrite E; eexists _, _; (split; [reflexivity |]); auto using holds_insert.
Qed.

(** One URL: the callback returns a verification result and keeps the
    cache rows well formed, whatever the store and the model do. *)
Lemma verify_cached_ok (c : Cache.CacheService) (e : lookup_env) (url : string)
    (t : gmap string (Cache.row jsval)) :
  holds_verifications base64 t ->
  exists r t', verify_cached base64 toISOString c e url t = (Returns r, t') /\
               has_status r /\ holds_verifications base64 t'.
Proof.
  intros H. unfold verify_cached. cbv zeta. unfold Cache.bind at 1.
  set (key := Cache.generateKey base64 "image_verification" url).
  set (fresh := verifyImageWithGemini toISOString (run e) url (at_verify e)).
  assert (Hfresh : has_status fresh) by apply verified_has_status.
  assert (Hmiss : forall t0, holds_verifications base64 t0 ->
            exists r t', Cache.bind
                           (Cache.set c (at_set e) (on_upsert e) key fresh (Some 86400))
                           (fun _ => Cache.ret fresh) t0 = (Returns r, t') /\
                         has_status r /\ holds_verifications base64 t').
  { intros t0 H0. unfold Cache.bind.
    destruct (holds_set c (at_set e) (on_upsert e) key fresh (Some 86400) t0 Hfresh H0)
      as (b & t' & -> & H'). exists fresh, t'. auto. }
  destruct (CacheFacts.get_cases (at_get e) (on_select e) (on_delete e) key t)
    as [(row & Hk & E) | [E | E]]; rewrite E.
  - destruct (truthy (Cache.r_value row)) eqn:Htr.
    + exists (Cache.r_value row), t. split; [reflexivity |]. split; [| exact H].
      exact (H url row Hk).
    + now apply Hmiss.
  - now apply Hmiss.
  - apply Hmiss. now apply holds_delete.
Qed.

(** The single-image route keeps the cache rows well formed as well. *)
Lemma verify_image_keeps_cache (c : Cache.CacheService) (x_user_id : option string)
    (disasterId : string) (image_url : option string) (e : lookup_env)
    (at_reply : Z) (t : gmap string (Cache.row jsval)) :
  holds_verifications base64 t ->
  holds_verifications base64
    (snd (verify_image valid_url base64 toISOString c x_user_id disasterId
            image_url e at_reply t)).
Proof.
  intros H. unfold verify_image.
  destruct (Auth.authenticateUser x_user_id); [| exact H].
  destruct image_url as [url |]; [| exact H].
  destruct (String.eqb url ""); [exact H |].
  destruct (negb (valid_url url)); [exact H |].
  unfold Cache.bind.
  destruct (verify_cached_ok c e url t H) as (r & t' & -> & _ & H'). exact H'.
Qed.



(** ** C6 *)


End Facts.


End VerificationFacts.

(** * Properties of the in-process proximity query *)

Module ProximityFacts.

Import Proximity ProximitySpec.

Local Open Scope R_scope.

(** ** Rounding *)

Lemma Math_round_bounds (x : R) : x - 1 / 2 < Math_round x <= x + 1 / 2.
Proof. unfold Math_round. pose proof (Zfloor_bound (x + 1 / 2)). lra. Qed.

Lemma Math_round_small (x : R) : 0 <= x < 1 / 2 -> Math_round x = 0.
Proof.
  intros H. unfold Math_round. rewrite (Zfloor_eq 0); [reflexivity |]. simpl. lra.
Qed.

Lemma Rleb_true (x y : R) : Rleb x y = true <-> x <= y.
Proof. unfold Rleb. destruct (Rle_dec x y); split; auto; discriminate. Qed.

Lemma Rleb_false (x y : R) : Rleb x y = false <-> y < x.
Proof.
  unfold Rleb. destruct (Rle_dec x y); split; try discriminate; try lra; auto.
Qed.

Lemma Rltb_true (x y : R) : Rltb x y = true <-> x < y.
Proof. unfold Rltb. destruct (Rlt_dec x y); split; auto; discriminate. Qed.

(** ** The filter *)

Lemma visit_kept (lat lng radiusKm : R) (r : resource) :
  fst (visit lat lng radiusKm r) = true ->
  annotated lat lng radiusKm (snd (visit lat lng radiusKm r)).
Proof.
  unfold visit, annotated, distance_from.
  destruct (coordinates r) as [[resourceLng resourceLat] |] eqn:Hc; simpl.
  - intros Hle. apply Rleb_true in Hle. eauto.
  - discriminate.
Qed.

Lemma kept_annotated (lat lng radiusKm : R) (resources : list resource) :
  Forall (annotated lat lng radiusKm)
    (map snd (List.filter fst (map (visit lat lng radiusKm) resources))).
Proof.
  induction resources as [| r resources IH]; simpl; [constructor |].
  destruct (fst (visit lat lng radiusKm r)) eqn:Hk; simpl; [| exact IH].
  constructor; [now apply visit_kept | exact IH].
Qed.

(** ** The sort *)

Lemma insert_Forall (P : resource -> Prop) (a : resource) (l : list resource) :
  P a -> Forall P l -> Forall P (insert a l).
Proof.
  intros Ha Hl. induction Hl as [| b l Hb Hl IH]; simpl.
  - constructor; auto.
  - destruct (not_after a b); repeat constructor; auto.
Qed.

Lemma sort_Forall (P : resource -> Prop) (l : list resource) :
  Forall P l -> Forall P (sort l).
Proof. induction 1; simpl; [constructor | now apply insert_Forall]. Qed.

Lemma km_le_trans (a b c : resource) : km_le a b -> km_le b c -> km_le a c.
Proof.
  intros (x & y & Ha & Hb & Hxy) (y' & z & Hb' & Hc & Hyz).
  rewrite Hb in Hb'. injection Hb' as <-. exists x, z. repeat split; auto. lra.
Qed.

Lemma not_after_true (a b : resource) :
  has_km a -> has_km b -> not_after a b = true -> km_le a b.
Proof.
  intros [x Ha] [y Hb]. unfold not_after. rewrite Ha, Hb.
  intros H. apply Rleb_true in H. exists x, y. repeat split; auto. lra.
Qed.

Lemma not_after_false (a b : resource) :
  has_km a -> has_km b -> not_after a b = false -> km_le b a.
Proof.
  intros [x Ha] [y Hb]. unfold not_after. rewrite Ha, Hb.
  intros H. apply Rleb_false in H. exists y, x. repeat split; auto. lra.
Qed.

Lemma insert_sorted (a : resource) (l : list resource) :
  has_km a -> Forall has_km l ->
  StronglySorted km_le l -> StronglySorted km_le (insert a l).
Proof.
  intros Ha Hl Hs. induction Hs as [| b l Hs IH Hb]; simpl.
  - repeat constructor.
  - inversion Hl as [| ? ? Hkb Hl']; subst.
    destruct (not_after a b) eqn:Hab.
    + apply not_after_true in Hab; auto.
      constructor; [now constructor |].
      constructor; [exact Hab |].
      eapply List.Forall_impl; [| exact Hb]. intros c Hbc. eapply km_le_trans; eauto.
    + apply not_after_false in Hab; auto.
      constructor; [now apply IH |].
      apply insert_Forall; auto.
Qed.

Lemma sort_sorted (l : list resource) :
  Forall has_km l -> StronglySorted km_le (sort l).
Proof.
  induction 1 as [| a l Ha Hl IH]; simpl; [constructor |].
  apply insert_sorted; auto. now apply sort_Forall.
Qed.

Lemma annotated_has_km (lat lng radiusKm : R) (r : resource) :
  annotated lat lng radiusKm r -> has_km r.
Proof. intros (d & _ & _ & H). now exists (Math_round (d * 100) / 100). Qed.

(** Resources in rounded order are in order of distance up to the
    rounding step. *)
Lemma km_le_nearly (lat lng radiusKm : R) (a b : resource) :
  annotated lat lng radiusKm a -> annotated lat lng radiusKm b ->
  km_le a b -> nearly_le lat lng a b.
Proof.
  intros (da & Hda & _ & Ha) (db & Hdb & _ & Hb) (x & y & Hx & Hy & Hxy).
  rewrite Ha in Hx. rewrite Hb in Hy. injection Hx as <-. injection Hy as <-.
  exists da, db. repeat split; auto.
  pose proof (Math_round_bounds (da * 100)).
  pose proof (Math_round_bounds (db * 100)). lra.
Qed.

Lemma sorted_nearly (lat lng radiusKm : R) (l : list resource) :
  Forall (annotated lat lng radiusKm) l ->
  StronglySorted km_le l -> StronglySorted (nearly_le lat lng) l.
Proof.
  intros Hl Hs. induction Hs as [| a l Hs IH Ha]; [constructor |].
  inversion Hl as [| ? ? Haa Hl']; subst.
  constructor; [now apply IH |].
  rewrite Forall_forall in *. intros b Hb.
  eapply km_le_nearly; eauto.
Qed.

Lemma firstn_In {A} (x : A) (n : nat) (l : list A) :
  In x (firstn n l) -> In x l.
Proof.
  revert n. induction l as [| a l IH]; intros [| n]; simpl; try tauto.
  intros [H | H]; [now left | right; eauto].
Qed.

Lemma firstn_sorted {A} (rel : A -> A -> Prop) (n : nat) (l : list A) :
  StronglySorted rel l -> StronglySorted rel (firstn n l).
Proof.
  intros Hs. revert n. induction Hs as [| a l Hs IH Ha]; intros [| n]; simpl;
    try constructor; auto.
  rewrite List.Forall_forall in *. intros b Hb. apply Ha.
  eapply firstn_In. exact Hb.
Qed.

Lemma firstn_Forall {A} (P : A -> Prop) (n : nat) (l : list A) :
  Forall P l -> Forall P (firstn n l).
Proof.
  intros H. rewrite List.Forall_forall in *. intros x Hx. apply H.
  eapply firstn_In. exact Hx.
Qed.

(** ** C4 *)

(** C4, amended.  Every resource returned by the in-process proximity
    filter lies at haversine distance at most [radiusKm] from the centre,
    and the list is in non-decreasing order of [distance_km], the distance
    rounded to two decimals; hence a resource comes before another only if
    it is nearer or farther by less than 0.01 km.  The same holds of the list
    that the fallback branch of the route serves for a centre with non-zero
    coordinates. *)
Theorem nearby_within_radius_in_rounded_order
    (resources : list resource) (lat lng radiusKm : R)
    (disasterId status_ : string) (type_ : option string) (limit : Z) :
  let found := filterResourcesByDistance resources lat lng radiusKm in
  let served := fallback_resources disasterId status_ type_
                  (Some lat) (Some lng) (Some radiusKm) limit in
  (Forall (annotated lat lng radiusKm) found /\
   StronglySorted km_le found /\
   StronglySorted (nearly_le lat lng) found) /\
  (lat <> 0 -> lng <> 0 ->
   Forall (annotated lat lng radiusKm) served /\
   StronglySorted km_le served /\
   StronglySorted (nearly_le lat lng) served).
Proof.
  assert (Hfound : forall l,
            let found := filterResourcesByDistance l lat lng radiusKm in
            Forall (annotated lat lng radiusKm) found /\
            StronglySorted km_le found /\
            StronglySorted (nearly_le lat lng) found).
  { intros l found. subst found. unfold filterResourcesByDistance.
    pose proof (kept_annotated lat lng radiusKm l) as Hk.
    assert (Ha : Forall (annotated lat lng radiusKm)
                   (sort (map snd (List.filter fst (map (visit lat lng radiusKm) l)))))
      by now apply sort_Forall.
    assert (Hs : StronglySorted km_le
                   (sort (map snd (List.filter fst (map (visit lat lng radiusKm) l))))).
    { apply sort_sorted. eapply List.Forall_impl; [| exact Hk].
      intros r. apply annotated_has_km. }
    split; [exact Ha |]. split; [exact Hs |].
    eapply sorted_nearly; eauto. }
  intros found served. split; [apply Hfound |].
  intros Hlat Hlng. subst served. unfold fallback_resources, given.
  destruct (Req_dec_T lat 0) as [E | _]; [contradiction |].
  destruct (Req_dec_T lng 0) as [E | _]; [contradiction |].
  cbv zeta.
  match goal with
  | |- context [filterResourcesByDistance ?l lat lng radiusKm] =>
      destruct (Hfound l) as (Ha & Hs & Hn)
  end.
  unfold slice0. destruct (0 <=? limit)%Z;
    (split; [now apply firstn_Forall |];
     split; now apply firstn_sorted).
Qed.

Lemma nearby_within_radius_in_rounded_order_witness :
  StronglySorted km_le
    (fallback_resources "1" "active" None (Some 40.75) (Some (-73.98)) (Some 5) 50).
Proof.
  refine (proj1 (proj2 (proj2 (nearby_within_radius_in_rounded_order
                                 [] 40.75 (-73.98) 5 "1" "active" None 50) _ _)));
    lra.
Defined.

(** ** Two resources a few metres north of the centre *)

(** On one meridian the haversine distance is the arc of the difference of
    latitudes. *)
Lemma calculateDistance_same_meridian (lat1 lat2 lng : R) :
  0 < (lat2 - lat1) * PI / 180 / 2 < PI / 2 ->
  calculateDistance lat1 lng lat2 lng = 6371 * ((lat2 - lat1) * PI / 180).
Proof.
  intros Hx. unfold calculateDistance. cbv zeta.
  set (x := (lat2 - lat1) * PI / 180 / 2) in *.
  replace ((lng - lng) * PI / 180 / 2) with 0 by lra.
  rewrite sin_0.
  replace (sin x * sin x + cos (lat1 * PI / 180) * cos (lat2 * PI / 180) * 0 * 0)
    with (sin x * sin x) by lra.
  assert (Hsin : 0 < sin x) by (apply sin_gt_0; lra).
  assert (Hcos : 0 < cos x) by (apply cos_gt_0; lra).
  replace (1 - sin x * sin x) with (cos x * cos x)
    by (pose proof (sin2_cos2 x) as H; unfold Rsqr in H; lra).
  rewrite !sqrt_square by lra.
  unfold atan2. rewrite (proj2 (Rltb_true 0 (cos x)) Hcos).
  change (sin x / cos x) with (tan x). rewrite atan_tan by lra.
  unfold x. lra.
Qed.

Lemma distance_farther :
  calculateDistance 1 1 (1 + 2 / 100000) 1 = 6371 * (2 / 100000 * PI / 180).
Proof.
  rewrite calculateDistance_same_meridian.
  - f_equal. lra.
  - pose proof PI_RGT_0. lra.
Qed.

Lemma distance_nearer :
  calculateDistance 1 1 (1 + 1 / 100000) 1 = 6371 * (1 / 100000 * PI / 180).
Proof.
  rewrite calculateDistance_same_meridian.
  - f_equal. lra.
  - pose proof PI_RGT_0. lra.
Qed.

(** C4 as stated fails: for the centre (1, 1) and a radius of 10 km the
    filter returns [farther] before [nearer], both with [distance_km] 0,
    although [farther] is twice as far from the centre as [nearer]. *)
Lemma rounded_ties_keep_input_order :
  let found := filterResourcesByDistance [farther; nearer] 1 1 10 in
  map id found = ["farther"; "nearer"] /\
  map distance_km found = [Some (0 / 100); Some (0 / 100)] /\
  distance_from 1 1 farther = Some (6371 * (2 / 100000 * PI / 180)) /\
  distance_from 1 1 nearer = Some (6371 * (1 / 100000 * PI / 180)) /\
  6371 * (1 / 100000 * PI / 180) < 6371 * (2 / 100000 * PI / 180).
Proof.
  pose proof PI_RGT_0 as Hpos. pose proof PI_4 as Hle.
  assert (Hfar : visit 1 1 10 farther =
                 (true, {| id := "farther"; disaster_id := "1"; name := "Shelter";
                           location_name := "NYC";
                           coordinates := Some (1, 1 + 2 / 100000);
                           type := "shelter"; capacity := 10; current_occupancy := 0;
                           contact := ""; amenities := []; status := "active";
                           distance_km := Some (0 / 100) |})).
  { unfold visit, farther, site. cbn [coordinates id disaster_id name location_name
      type capacity current_occupancy contact amenities status].
    rewrite distance_farther.
    rewrite (proj2 (Rleb_true _ 10)) by lra.
    rewrite Math_round_small by lra. reflexivity. }
  assert (Hnear : visit 1 1 10 nearer =
                  (true, {| id := "nearer"; disaster_id := "1"; name := "Shelter";
                            location_name := "NYC";
                            coordinates := Some (1, 1 + 1 / 100000);
                            type := "shelter"; capacity := 10; current_occupancy := 0;
                            contact := ""; amenities := []; status := "active";
                            distance_km := Some (0 / 100) |})).
  { unfold visit, nearer, site. cbn [coordinates id disaster_id name location_name
      type capacity current_occupancy contact amenities status].
    rewrite distance_nearer.
    rewrite (proj2 (Rleb_true _ 10)) by lra.
    rewrite Math_round_small by lra. reflexivity. }
  cbv zeta. unfold filterResourcesByDistance.
  cbn [map]. rewrite Hfar, Hnear. cbn [List.filter fst snd map sort insert].
  unfold not_after. cbn [distance_km].
  rewrite (proj2 (Rleb_true (0 / 100 - 0 / 100) 0)) by lra.
  split; [reflexivity |]. split; [reflexivity |].
  unfold distance_from, farther, nearer, site. cbn [coordinates].
  rewrite distance_farther, distance_nearer.
  split; [reflexivity |]. split; [reflexivity |]. lra.
Qed.

(** ** A query between two fixtures *)

Lemma precedes_sorted (rel : resource -> resource -> Prop) (a b : resource)
    (l : list resource) :
  StronglySorted rel l -> precedes a b l -> rel a b.
Proof.
  intros Hs Hp. induction Hp as [l Hb | x l Hp IH].
  - apply StronglySorted_inv in Hs as [_ Ha].
    rewrite List.Forall_forall in Ha. now apply Ha.
  - apply StronglySorted_inv in Hs as [Hs _]. now apply IH.
Qed.

Lemma insert_In (x a : resource) (l : list resource) :
  In x l -> In x (insert a l).
Proof.
  induction l as [| b l IH]; simpl; [tauto |].
  intros [E | H]; destruct (not_after a b); simpl; auto.
Qed.

Lemma sort_In (x : resource) (l : list resource) : In x l -> In x (sort l).
Proof.
  induction l as [| a l IH]; simpl; [tauto |].
  intros [-> | H].
  - clear IH. induction (sort l) as [| b l' IH]; simpl; [auto |].
    destruct (not_after x b); simpl; auto.
  - apply insert_In. auto.
Qed.

Lemma insert_length (a : resource) (l : list resource) :
  length (insert a l) = S (length l).
Proof.
  induction l as [| b l IH]; simpl; [reflexivity |].
  destruct (not_after a b); simpl; [reflexivity | now rewrite IH].
Qed.

Lemma sort_length (l : list resource) : length (sort l) = length l.
Proof.
  induction l as [| a l IH]; simpl; [reflexivity |].
  now rewrite insert_length, IH.
Qed.

(** The sort is stable: what came first and is not after, stays first. *)
Lemma insert_precedes_old (a b c : resource) (l : list resource) :
  precedes b c l -> precedes b c (insert a l).
Proof.
  induction 1 as [l Hc | x l Hp IH]; simpl.
  - destruct (not_after a b).
    + apply precedes_later. now apply precedes_here.
    + apply precedes_here. now apply insert_In.
  - destruct (not_after a x).
    + apply precedes_later. now apply precedes_later.
    + now apply precedes_later.
Qed.

Lemma insert_precedes_new (a b : resource) (l : list resource) :
  In b l -> not_after a b = true -> precedes a b (insert a l).
Proof.
  intros Hb Hab. induction l as [| x l IH]; simpl; [destruct Hb |].
  destruct (not_after a x) eqn:Hax.
  - now apply precedes_here.
  - destruct Hb as [-> | Hb]; [congruence |].
    apply precedes_later. now apply IH.
Qed.

Lemma sort_stable (a b : resource) (l : list resource) :
  precedes a b l -> not_after a b = true -> precedes a b (sort l).
Proof.
  intros Hp Hab. induction Hp as [l Hb | x l Hp IH]; simpl.
  - apply insert_precedes_new; [now apply sort_In | exact Hab].
  - now apply insert_precedes_old.
Qed.

Lemma kept_In (lat lng radiusKm : R) (b b' : resource) (l : list resource) :
  In b l -> visit lat lng radiusKm b = (true, b') ->
  In b' (map snd (List.filter fst (map (visit lat lng radiusKm) l))).
Proof.
  intros Hb Hv. induction l as [| x l IH]; simpl; [destruct Hb |].
  destruct Hb as [-> | Hb].
  - rewrite Hv. simpl. now left.
  - destruct (fst (visit lat lng radiusKm x)); simpl; auto.
Qed.

Lemma kept_precedes (lat lng radiusKm : R) (a a' b b' : resource) (l : list resource) :
  precedes a b l ->
  visit lat lng radiusKm a = (true, a') -> visit lat lng radiusKm b = (true, b') ->
  precedes a' b' (map snd (List.filter fst (map (visit lat lng radiusKm) l))).
Proof.
  intros Hp Ha Hb. induction Hp as [l Hin | x l Hp IH]; simpl.
  - rewrite Ha. simpl. apply precedes_here. eapply kept_In; eauto.
  - destruct (fst (visit lat lng radiusKm x)); simpl; [apply precedes_later |]; exact IH.
Qed.

Lemma filterResourcesByDistance_length (l : list resource) (lat lng radiusKm : R) :
  (length (filterResourcesByDistance l lat lng radiusKm) <= length l)%nat.
Proof.
  unfold filterResourcesByDistance. rewrite sort_length, length_map.
  induction l as [| x l IH]; simpl; [lia |].
  destruct (fst (visit lat lng radiusKm x)); simpl; lia.
Qed.

Lemma Math_round_eq (z : Z) (x : R) :
  IZR z - 1 / 2 <= x < IZR z + 1 / 2 -> Math_round x = IZR z.
Proof.
  intros H. unfold Math_round. f_equal. apply Zfloor_eq. lra.
Qed.

(** Bounds on [PI] and on the trigonometric functions. *)

Lemma PI_bounds : 31415 / 10000 < PI < 31421 / 10000.
Proof.
  pose proof (PI_2_3_7_ineq 1) as [Hlo Hhi].
  unfold tg_alt, PI_2_3_7_tg, Ratan_seq in Hlo, Hhi.
  simpl in Hlo, Hhi. lra.
Qed.

Lemma asin_pos (s : R) : 0 < s < 1 -> 0 < asin s < PI / 2.
Proof.
  intros Hs. pose proof (asin_bound_lt s ltac:(lra)) as [Hlo Hhi].
  split; [| exact Hhi].
  destruct (Rlt_le_dec 0 (asin s)) as [H | H]; [exact H | exfalso].
  assert (sin (asin s) <= 0).
  { destruct (Req_dec (asin s) 0) as [E | E].
    - rewrite E, sin_0. lra.
    - left. apply sin_lt_0_var; pose proof PI_RGT_0; lra. }
  rewrite sin_asin in H0; lra.
Qed.

Lemma asin_gt (s : R) : 0 < s < 1 -> s < asin s.
Proof.
  intros Hs. pose proof (asin_pos s Hs) as [Hpos _].
  pose proof (sin_lt_x (asin s) Hpos) as H. rewrite sin_asin in H; lra.
Qed.

Lemma asin_le_of_sin (s u : R) : 0 < s < 1 -> 0 < u < PI / 2 -> s <= sin u -> asin s <= u.
Proof.
  intros Hs Hu Hle. destruct (Rle_lt_dec (asin s) u) as [H | H]; [exact H | exfalso].
  pose proof (asin_pos s Hs) as [Hpos Hhi].
  assert (sin u < sin (asin s)) by (apply sin_increasing_1; lra).
  rewrite sin_asin in H0; lra.
Qed.

Lemma asin_lt (s1 s2 : R) : 0 < s1 -> s1 < s2 -> s2 < 1 -> asin s1 < asin s2.
Proof.
  intros H0 H12 H1. destruct (Rlt_le_dec (asin s1) (asin s2)) as [H | H]; [exact H | exfalso].
  pose proof (asin_pos s1 ltac:(lra)) as [? ?].
  pose proof (asin_pos s2 ltac:(lra)) as [? ?].
  assert (sin (asin s2) <= sin (asin s1)) by (apply sin_incr_1; lra).
  rewrite !sin_asin in H6; lra.
Qed.

Lemma cos_lower : 7570 / 10000 <= cos (712 / 1000).
Proof.
  pose proof PI_bounds as Hpi.
  pose proof (COS (712 / 1000) ltac:(lra) ltac:(lra)) as [H _].
  unfold cos_lb, cos_approx, cos_term in H. simpl in H. lra.
Qed.

Lemma cos_upper : cos (7117 / 10000) <= 7575 / 10000.
Proof.
  pose proof PI_bounds as Hpi.
  pose proof (pre_cos_bound (7117 / 10000) 0 ltac:(lra) ltac:(lra)) as [_ H].
  unfold cos_approx, cos_term in H. simpl in H. lra.
Qed.

Lemma sin_lower (x : R) : 0 <= x <= 1 -> x - x * x * x / 6 <= sin x.
Proof.
  intros Hx. pose proof PI_bounds as Hpi.
  pose proof (pre_sin_bound x 0 ltac:(lra) ltac:(lra)) as [H _].
  unfold sin_approx, sin_term in H. simpl in H. lra.
Qed.

Lemma calculateDistance_same_parallel (lat lng1 lng2 x : R) :
  x = (lng2 - lng1) * PI / 180 / 2 \/ x = - ((lng2 - lng1) * PI / 180 / 2) ->
  0 < x < PI / 2 -> - (PI / 2) < lat * PI / 180 < PI / 2 ->
  calculateDistance lat lng1 lat lng2 =
  6371 * (2 * asin (cos (lat * PI / 180) * sin x)).
Proof.
  intros Hx Hxr Hlat. unfold calculateDistance. cbv zeta.
  replace ((lat - lat) * PI / 180 / 2) with 0 by lra. rewrite sin_0.
  set (phi := lat * PI / 180) in *.
  set (y := (lng2 - lng1) * PI / 180 / 2) in *.
  assert (Hsq : sin y * sin y = sin x * sin x).
  { destruct Hx as [-> | ->]; [reflexivity |]. rewrite sin_neg. lra. }
  set (s := cos phi * sin x).
  replace (0 * 0 + cos phi * cos phi * sin y * sin y) with (s * s)
    by (unfold s; transitivity (cos phi * cos phi * (sin x * sin x));
        [ring | rewrite <- Hsq; ring]).
  assert (Hcos : 0 < cos phi) by (apply cos_gt_0; lra).
  assert (Hcos1 : cos phi <= 1) by apply COS_bound.
  assert (Hsin : 0 < sin x) by (apply sin_gt_0; lra).
  assert (Hsin1 : sin x < 1).
  { rewrite <- sin_PI2. apply sin_increasing_1; lra. }
  assert (Hs : 0 < s < 1) by (unfold s; split; nra).
  rewrite sqrt_square by lra.
  assert (Hroot : 0 < sqrt (1 - s * s)) by (apply sqrt_lt_R0; nra).
  unfold atan2. rewrite (proj2 (Rltb_true 0 _) Hroot).
  rewrite (asin_atan s) by lra. unfold Rsqr. reflexivity.
Qed.

Lemma shelter_hospital_distances :
  let d1 := calculateDistance 40.7831 (-73.98164) 40.7831 (-73.9857) in
  let d2 := calculateDistance 40.7831 (-73.98164) 40.7831 (-73.9776) in
  335 / 1000 <= d2 /\ d2 < d1 /\ d1 < 345 / 1000.
Proof.
  pose proof PI_bounds as Hpi.
  set (phi := 40.7831 * PI / 180).
  set (x1 := 406 / 100000 * PI / 360).
  set (x2 := 404 / 100000 * PI / 360).
  assert (Hphi : 7117 / 10000 < phi < 712 / 1000) by (unfold phi; lra).
  assert (Hx1 : 0 < x1 <= 35436 / 1000000000) by (unfold x1; lra).
  assert (Hx2 : 35254 / 1000000000 <= x2 < x1) by (unfold x1, x2; lra).
  assert (Hc : 7570 / 10000 <= cos phi <= 7575 / 10000).
  { split.
    - eapply Rle_trans; [apply cos_lower |]. apply cos_decr_1; lra.
    - eapply Rle_trans; [| apply cos_upper]. apply cos_decr_1; lra. }
  assert (Hs1 : sin x1 < x1) by (apply sin_lt_x; lra).
  assert (Hs2 : 35253 / 1000000000 <= sin x2).
  { eapply Rle_trans; [| apply sin_lower; lra]. nra. }
  assert (Hs21 : sin x2 < sin x1) by (apply sin_increasing_1; lra).
  set (s1 := cos phi * sin x1). set (s2 := cos phi * sin x2).
  assert (H2 : 266 / 10000000 <= s2) by (unfold s2; nra).
  assert (H21 : s2 < s1) by (unfold s1, s2; nra).
  assert (H1 : s1 <= 2685 / 100000000) by (unfold s1; nra).
  assert (Hu : 2685 / 100000000 <= sin (27 / 1000000)).
  { eapply Rle_trans; [| apply sin_lower; lra]. lra. }
  assert (Ha1 : asin s1 <= 27 / 1000000) by (apply asin_le_of_sin; lra).
  assert (Ha2 : s2 < asin s2) by (apply asin_gt; lra).
  assert (Ha21 : asin s2 < asin s1) by (apply asin_lt; lra).
  intros d1 d2.
  assert (E1 : d1 = 6371 * (2 * asin s1)).
  { unfold d1, s1, phi. apply (calculateDistance_same_parallel _ _ _ x1).
    - right. unfold x1. lra.
    - lra.
    - lra. }
  assert (E2 : d2 = 6371 * (2 * asin s2)).
  { unfold d2, s2, phi. apply (calculateDistance_same_parallel _ _ _ x2).
    - left. unfold x2. lra.
    - lra.
    - lra. }
  rewrite E1, E2. lra.
Qed.

(** The visit of a fixture that is some 340 m from the centre. *)
Lemma visit_at_340m (r : resource) (resourceLng : R) :
  coordinates r = Some (resourceLng, 40.7831) ->
  335 / 1000 <= calculateDistance 40.7831 (-73.98164) 40.7831 resourceLng < 345 / 1000 ->
  visit 40.7831 (-73.98164) 1 r =
  (true,
   {| id := id r; disaster_id := disaster_id r; name := name r;
      location_name := location_name r; coordinates := coordinates r;
      type := type r; capacity := capacity r;
      current_occupancy := current_occupancy r; contact := contact r;
      amenities := amenities r; status := status r;
      distance_km := Some (34 / 100) |}).
Proof.
  intros Hc Hd. unfold visit. rewrite Hc.
  rewrite (proj2 (Rleb_true _ 1)) by lra.
  rewrite (Math_round_eq 34) by lra. reflexivity.
Qed.

(** C4 as stated fails on the route itself.  For the centre
    (40.7831, -73.98164), a radius of 1 km and the store failing, the list
    served for disaster 1 has the Red Cross shelter before Manhattan General
    Hospital, both with [distance_km] 0.34, although the shelter is the
    farther of the two (about 341.8 m against 340.1 m): the list is not in
    order of distance. *)
Lemma shelter_listed_before_nearer_hospital :
  exists a b d1 d2,
    precedes a b
      (fallback_resources "1" "active" None (Some 40.7831) (Some (-73.98164))
         (Some 1) 50) /\
    id a = "1" /\ id b = "2" /\
    distance_km a = Some (34 / 100) /\ distance_km b = Some (34 / 100) /\
    distance_from 40.7831 (-73.98164) a = Some d1 /\
    distance_from 40.7831 (-73.98164) b = Some d2 /\
    d2 < d1 /\
    (StronglySorted (distance_le 40.7831 (-73.98164))
       (fallback_resources "1" "active" None (Some 40.7831) (Some (-73.98164))
          (Some 1) 50) -> False).
Proof.
  destruct shelter_hospital_distances as (Hlo & Hlt & Hhi).
  set (d1 := calculateDistance 40.7831 (-73.98164) 40.7831 (-73.9857)) in *.
  set (d2 := calculateDistance 40.7831 (-73.98164) 40.7831 (-73.9776)) in *.
  pose proof (visit_at_340m red_cross_shelter (-73.9857) eq_refl
                ltac:(fold d1; lra)) as Ha.
  pose proof (visit_at_340m general_hospital (-73.9776) eq_refl
                ltac:(fold d2; lra)) as Hb.
  cbn [id disaster_id name location_name coordinates type capacity
       current_occupancy contact amenities status
       red_cross_shelter general_hospital] in Ha, Hb.
  match type of Ha with _ = (true, ?a') => set (a := a') in * end.
  match type of Hb with _ = (true, ?b') => set (b := b') in * end.
  assert (Hp : precedes a b
                 (fallback_resources "1" "active" None (Some 40.7831)
                    (Some (-73.98164)) (Some 1) 50)).
  { unfold fallback_resources, given.
    destruct (Req_dec_T 40.7831 0) as [E | _]; [lra |].
    destruct (Req_dec_T (-73.98164) 0) as [E | _]; [lra |].
    change (List.filter _ mockResources)
      with [red_cross_shelter; general_hospital; food_distribution_center;
            supply_depot; mobile_medical_unit].
    cbv zeta. unfold slice0. change (0 <=? 50)%Z with true. cbv iota.
    rewrite firstn_all2
      by (etransitivity; [apply filterResourcesByDistance_length | simpl; lia]).
    unfold filterResourcesByDistance. apply sort_stable.
    - eapply kept_precedes; [| exact Ha | exact Hb].
      apply precedes_here. simpl. auto.
    - unfold not_after, a, b. cbn [distance_km].
      apply Rleb_true. lra. }
  exists a, b, d1, d2.
  split; [exact Hp |].
  do 4 (split; [reflexivity |]).
  split; [reflexivity |]. split; [reflexivity |].
  split; [exact Hlt |].
  intros Hs. apply (precedes_sorted _ _ _ _ Hs) in Hp.
  destruct Hp as (x & y & Hx & Hy & Hxy).
  unfold distance_from, a, b in Hx, Hy. cbn [coordinates] in Hx, Hy.
  injection Hx as <-. injection Hy as <-. fold d1 d2 in Hxy. lra.
Qed.

End ProximityFacts.

(** * Properties of the mutation routes *)

Module HandlersFacts.

Import Handlers HandlersSpec.

(** Case analysis on the conditionals of a handler. *)
Ltac branches :=
  repeat match goal with
         | |- context [match ?x with _ => _ end] => destruct x eqn:?
         end.



Section Facts.

Variable ToString : jsval -> string.
Variable message : exn -> string.

Lemma create_disaster_event (x : option string) (body : jsval) (insert : reply)
    (mockId at_audit at_mock : string) :
  let r := create_disaster ToString message x body insert mockId at_audit at_mock in
  succeeded (res r) = true ->
  exists data,
    emitted r = [ {| to := Everyone; name := "disaster_updated";
                     payload := JObj [ ("action", JStr "create"); ("data", data) ] |} ].
Proof.
  unfold create_disaster. cbv zeta. branches; simpl; try discriminate; eauto.
Qed.

Lemma update_disaster_event (x : option string) (id : string) (body : jsval)
    (fetch update : reply) (at_audit : string) :
  let r := update_disaster ToString message x id body fetch update at_audit in
  succeeded (res r) = true ->
  exists data,
    emitted r = [ {| to := Everyone; name := "disaster_updated";
                     payload := JObj [ ("action", JStr "update"); ("data", data) ] |} ].
Proof.
  unfold update_disaster. cbv zeta. branches; simpl; try discriminate; eauto.
Qed.

Lemma delete_disaster_event (x : option string) (id : string) (delete : reply) :
  let r := delete_disaster message x id delete in
  succeeded (res r) = true ->
  exists data,
    emitted r = [ {| to := Everyone; name := "disaster_updated";
                     payload := JObj [ ("action", JStr "delete"); ("data", data) ] |} ].
Proof.
  unfold delete_disaster. cbv zeta. branches; simpl; try discriminate; eauto.
Qed.

Lemma create_resource_event (x : option string) (disasterId : string) (body : jsval)
    (insert : reply) (mockId at_mock : string) :
  let r := create_resource ToString message x disasterId body insert mockId at_mock in
  succeeded (res r) = true -> stored insert = true ->
  exists data,
    emitted r = [ {| to := Room ("disaster_" ++ disasterId)%string;
                     name := "resources_updated";
                     payload := JObj [ ("action", JStr "create"); ("data", data) ] |} ].
Proof.
  unfold create_resource, stored. cbv zeta.
  branches; simpl; try discriminate; eauto.
Qed.

Lemma update_resource_event (x : option string) (disasterId resourceId : string)
    (body : jsval) (update : reply) :
  let r := update_resource message x disasterId resourceId body update in
  succeeded (res r) = true ->
  exists data,
    emitted r = [ {| to := Room ("disaster_" ++ disasterId)%string;
                     name := "resources_updated";
                     payload := JObj [ ("action", JStr "update"); ("data", data) ] |} ].
Proof.
  unfold update_resource. cbv zeta. branches; simpl; try discriminate; eauto.
Qed.

(** ** C2 *)

(** C2, amended.  A run of a mutation endpoint that ends with a success
    status emits exactly one event, whose payload is tagged with the
    operation of the endpoint: [disaster_updated], broadcast to every
    connected socket, for the create, update and delete of a disaster (the
    mock fallback of the create included); [resources_updated], sent to the
    room of the disaster, for the update of a resource and for the create
    of a resource that the store carried out. *)
Theorem mutation_emits_one_event (ep : endpoint) (rq : request) (w : world) :
  let r := handle ToString message ep rq w in
  succeeded (res r) = true ->
  (ep = CreateResource -> stored (on_write w) = true) ->
  exists data,
    emitted r = [ {| to := audience_of ep rq; name := event_name ep;
                     payload := JObj [ ("action", JStr (operation ep));
                                       ("data", data) ] |} ].
Proof.
  intros r Hok Hstored. subst r. destruct ep; simpl in *.
  - now apply create_disaster_event.
  - now apply update_disaster_event.
  - now apply delete_disaster_event.
  - apply create_resource_event; auto.
  - now apply update_resource_event.
Qed.

(** ** C3 *)


(** ** C10 *)

(** C10.  Whatever the body holds, a request to create a resource that is
    answered 201 has sent to the store exactly one insert, of a row with
    [current_occupancy] 0 and [status] active; the response carries the row
    handed back by the store when the store carried the insert out, and
    otherwise the mock row, which has [current_occupancy] 0 and [status]
    active as well. *)
Theorem created_resource_is_empty_and_active (x : option string) (disasterId : string)
    (fields : jsval) (insert : reply) (mockId at_mock : string) :
  let r := create_resource ToString message x disasterId fields insert mockId at_mock in
  status (res r) = 201 ->
  exists row,
    calls r = [Insert "resources" row] /\
    get_prop row "current_occupancy" = JNum 0 /\
    get_prop row "status" = JStr "active" /\
    (forall data error,
       insert = Reply data error -> stored insert = true ->
       get_prop (body (res r)) "data" = data) /\
    (stored insert = false ->
     get_prop (get_prop (body (res r)) "data") "current_occupancy" = JNum 0 /\
     get_prop (get_prop (body (res r)) "data") "status" = JStr "active").
Proof.
  intros r Hcreated. subst r. revert Hcreated. unfold create_resource.
  destruct (Auth.authenticateUser x) as [user |]; [| discriminate].
  destruct (is_nullish fields); [discriminate |].
  destruct (_ || _)%bool; [discriminate |]. intros _.
  exists (newResource ToString disasterId user fields).
  assert (Hrow : get_prop (newResource ToString disasterId user fields)
                   "current_occupancy" = JNum 0 /\
                 get_prop (newResource ToString disasterId user fields)
                   "status" = JStr "active").
  { unfold newResource. cbv zeta. destruct (has_point _); split; reflexivity. }
  assert (Hmock : get_prop (mock_row (newResource ToString disasterId user fields)
                              mockId at_mock (get_prop fields "location"))
                    "current_occupancy" = JNum 0 /\
                  get_prop (mock_row (newResource ToString disasterId user fields)
                              mockId at_mock (get_prop fields "location"))
                    "status" = JStr "active").
  { unfold mock_row, newResource. cbv zeta. destruct (has_point _); split; reflexivity. }
  cbv zeta. unfold stored.
  destruct insert as [data error | e];
    [destruct (truthy error); [| destruct (is_nullish data)] |]; simpl;
    (split; [reflexivity |]); (split; [apply Hrow |]); (split; [apply Hrow |]);
    (split; [intros d e' E H; try discriminate H; now injection E as <- _
            | intros H; try discriminate H; exact Hmock ]).
Qed.

End Facts.

(** ** Concrete runs *)

(** C2 as stated fails twice.  With the store down, the create of a
    resource answers 201 and emits nothing.  With the store up, the create
    of a disaster answers 201 and emits its one event to every socket, not
    to the room of a disaster. *)
Lemma silent_resource_fallback_and_global_broadcast :
  (succeeded (res (handle plain text CreateResource depot_request store_down)) = true /\
   emitted (handle plain text CreateResource depot_request store_down) = [] /\
   (one_event_on_topic CreateResource depot_request
      (handle plain text CreateResource depot_request store_down) -> False)) /\
  (succeeded (res (handle plain text CreateDisaster flood_request store_up)) = true /\
   map to (emitted (handle plain text CreateDisaster flood_request store_up)) = [Everyone] /\
   (one_event_on_topic CreateDisaster flood_request
      (handle plain text CreateDisaster flood_request store_up) -> False)).
Proof.
  split; (split; [reflexivity |]); (split; [reflexivity |]).
  - intros H. destruct (H eq_refl) as (e & He & _). discriminate He.
  - intros H. destruct (H eq_refl) as (e & He & Hto & _).
    injection He as <-. discriminate Hto.
Qed.

Lemma mutation_emits_one_event_witness :
  exists data,
    emitted (handle plain text CreateDisaster flood_request store_down) =
    [ {| to := Everyone; name := "disaster_updated";
         payload := JObj [ ("action", JStr "create"); ("data", data) ] |} ].
Proof.
  refine (mutation_emits_one_event plain text CreateDisaster flood_request store_down _ _).
  - reflexivity.
  - discriminate.
Defined.



Lemma created_resource_is_empty_and_active_witness :
  exists row,
    calls (create_resource plain text (Some "citizen1") "1" (req_body depot_request)
             (on_write store_down) "k3j9x2m1q" "2025-06-21T10:00:00.001Z") =
      [Insert "resources" row] /\
    get_prop row "current_occupancy" = JNum 0 /\
    get_prop row "status" = JStr "active".
Proof.
  destruct (created_resource_is_empty_and_active plain text (Some "citizen1") "1"
              (req_body depot_request) (on_write store_down)
              "k3j9x2m1q" "2025-06-21T10:00:00.001Z" eq_refl)
    as (row & Hcalls & Hocc & Hst & _).
  exists row. auto.
Defined.

End HandlersFacts.

(** * Properties of the concatenation of strings *)

Module TextFacts.

Lemma append_nil (b : string) : ("" ++ b)%string = b.
Proof. reflexivity. Qed.

Lemma append_cons (c : ascii) (a b : string) :
  (String c a ++ b)%string = String c (a ++ b).
Proof. reflexivity. Qed.

Lemma append_nil_r (a : string) : (a ++ "")%string = a.
Proof. induction a as [| c a IH]; [reflexivity |]. now rewrite append_cons, IH. Qed.

Lemma append_assoc (a b c : string) : ((a ++ b) ++ c = a ++ (b ++ c))%string.
Proof.
  induction a as [| x a IH]; [reflexivity |]. now rewrite !append_cons, IH.
Qed.

End TextFacts.

(** * Laws of the cache-through store *)

Module CacheLaws.

Import Cache CacheSpec CacheFacts.

Section Laws.

Context {value : Type}.

Implicit Types (t : gmap string (row value)) (key : string) (v : value).

(** What [get] answers depends on the row of the key alone. *)
Lemma get_answer_local (now : Z) (f_sel f_del : fault) key t1 t2 :
  t1 !! key = t2 !! key ->
  fst (get now f_sel f_del key t1) = fst (get now f_sel f_del key t2).
Proof.
  intros H. destruct f_sel; [| reflexivity | reflexivity].
  destruct (t2 !! key) as [r |] eqn:Hk.
  - destruct (Z.lt_ge_cases (r_expires_at r) now) as [Hlt | Hge].
    + now rewrite (get_expired _ _ _ _ _ H Hlt), (get_expired _ _ _ _ _ Hk Hlt).
    + now rewrite (get_fresh _ _ _ _ _ H Hge), (get_fresh _ _ _ _ _ Hk Hge).
  - now rewrite (get_miss _ _ _ _ H), (get_miss _ _ _ _ Hk).
Qed.

(** [get] changes no row other than that of its key. *)
Lemma get_frame (now : Z) (f_sel f_del : fault) key key' t :
  key <> key' -> snd (get now f_sel f_del key t) !! key' = t !! key'.
Proof.
  intros Hne.
  destruct (get_cases now f_sel f_del key t) as [(r & _ & E) | [E | E]];
    rewrite E; cbn [snd]; [reflexivity | reflexivity |].
  now apply lookup_delete_ne.
Qed.

Lemma set_frame (c : CacheService) (now : Z) (f : fault) key key' v
    (ttlSeconds : option Z) t :
  key <> key' -> snd (set c now f key v ttlSeconds t) !! key' = t !! key'.
Proof.
  intros Hne. destruct (set_cases c now f key v ttlSeconds t) as [E | E];
    rewrite E; cbn [snd]; [| reflexivity].
  now apply lookup_insert_ne.
Qed.

Lemma delete_frame (f : fault) key key' t :
  key <> key' -> snd (delete f key t) !! key' = t !! key'.
Proof.
  intros Hne. rewrite delete_result. destruct f; cbn [snd]; try reflexivity.
  now apply lookup_delete_ne.
Qed.

Lemma clear_result (now : Z) (f : fault) t :
  clear now f t =
  match f with
  | Served => (Returns true, filter (fun kr => negb (r_expires_at (snd kr) <? now)) t)
  | _ => (Returns false, t)
  end.
Proof. destruct f; reflexivity. Qed.

Lemma clear_lookup (now : Z) key t (r : row value) :
  snd (clear now Served t) !! key = Some r <->
  t !! key = Some r /\ now <= r_expires_at r.
Proof.
  rewrite clear_result. cbn [snd]. rewrite map_lookup_filter_Some. cbn [snd].
  destruct (Z.ltb_spec (r_expires_at r) now); simpl; intuition lia.
Qed.

(** X1.  Reading is repeatable: a second [get] of the key at the same
    instant gives the same answer whatever the store then does with the
    eviction, and with the same store behaviour it leaves the table as the
    first left it. *)
Theorem get_is_repeatable (now : Z) (f_sel f_del f_del' : fault) key t :
  let first := get now f_sel f_del key t in
  fst (get now f_sel f_del' key (snd first)) = fst first /\
  get now f_sel f_del key (snd first) = first.
Proof.
  cbv zeta. destruct f_sel; [| split; reflexivity | split; reflexivity].
  destruct (t !! key) as [r |] eqn:Hk.
  - destruct (Z.lt_ge_cases (r_expires_at r) now) as [Hlt | Hge].
    + rewrite (get_expired _ f_del _ _ _ Hk Hlt). cbn [fst snd].
      destruct f_del.
      * rewrite !get_miss by apply lookup_delete_eq. split; reflexivity.
      * rewrite !(get_expired _ _ _ _ _ Hk Hlt). split; reflexivity.
      * rewrite !(get_expired _ _ _ _ _ Hk Hlt). split; reflexivity.
    + rewrite (get_fresh _ f_del _ _ _ Hk Hge). cbn [fst snd].
      rewrite !(get_fresh _ _ _ _ _ Hk Hge). split; reflexivity.
  - rewrite (get_miss _ f_del _ _ Hk). cbn [fst snd].
    rewrite !(get_miss _ _ _ _ Hk). split; reflexivity.
Qed.

(** X2.  The entries are independent: [set], [delete] and [get] on one key
    leave the row of every other key as it was, and so do not change what a
    [get] of another key answers. *)
Theorem other_keys_unaffected (c : CacheService) (now now' : Z)
    (f f' g g' : fault) key key' v (ttlSeconds : option Z) t :
  key <> key' ->
  snd (set c now f key v ttlSeconds t) !! key' = t !! key' /\
  snd (delete f key t) !! key' = t !! key' /\
  snd (get now f f' key t) !! key' = t !! key' /\
  fst (get now' g g' key' (snd (set c now f key v ttlSeconds t))) =
    fst (get now' g g' key' t) /\
  fst (get now' g g' key' (snd (delete f key t))) = fst (get now' g g' key' t) /\
  fst (get now' g g' key' (snd (get now f f' key t))) = fst (get now' g g' key' t).
Proof.
  intros Hne.
  pose proof (set_frame c now f key key' v ttlSeconds t Hne) as Hs.
  pose proof (delete_frame f key key' t Hne) as Hd.
  pose proof (get_frame now f f' key key' t Hne) as Hg.
  repeat split; auto using get_answer_local.
Qed.

(** X3.  The last write wins: after two writes of a key, the second of which
    the store served with an expiry instant that [Date] represents, the
    table is as if the first had never been made, whatever became of the
    first, and a read up to the expiry instant of the second write returns
    its value. *)
Theorem last_write_wins (c : CacheService) (at1 at2 now : Z) (f1 f_del : fault)
    key v1 v2 (ttl1 ttl2 : option Z) t :
  valid_time (at2 + effective_ttl c ttl2 * 1000) = true ->
  now <= at2 + effective_ttl c ttl2 * 1000 ->
  let once := snd (set c at2 Served key v2 ttl2 t) in
  let twice := snd (set c at2 Served key v2 ttl2 (snd (set c at1 f1 key v1 ttl1 t))) in
  twice = once /\
  get now Served f_del key twice = (Returns (Some v2), twice).
Proof.
  intros Hv Hnow once twice.
  assert (E : twice = once).
  { subst once twice. rewrite !(set_served _ _ _ _ _ _ Hv). cbn [snd].
    destruct (set_cases c at1 f1 key v1 ttl1 t) as [E | E]; rewrite E; cbn [snd];
      [apply insert_insert_eq | reflexivity]. }
  split; [exact E |]. rewrite E. subst once. rewrite (set_served _ _ _ _ _ _ Hv).
  cbn [snd].
  apply (get_fresh now f_del key _ (Row v2 (at2 + effective_ttl c ttl2 * 1000))).
  - apply lookup_insert_eq.
  - exact Hnow.
Qed.

(** X4.  [delete] reports [true] exactly when the store served it, also when
    the key had no entry; the entry is then gone and a read of the key finds
    nothing.  A delete that the store did not serve reports [false] and
    leaves the table as it was.  No error reaches the caller. *)
Theorem delete_then_get (now : Z) (f f_sel f_del : fault) key t :
  let deleted := delete f key t in
  (exists b, fst deleted = Returns b) /\
  (fst deleted = Returns true <-> f = Served) /\
  (f = Served ->
   snd deleted !! key = None /\
   get now f_sel f_del key (snd deleted) = (Returns None, snd deleted)) /\
  (f <> Served -> deleted = (Returns false, t)).
Proof.
  cbv zeta. rewrite delete_result.
  split; [destruct f; eexists; reflexivity |].
  split; [destruct f; cbn [fst]; split; congruence |].
  split.
  - intros ->. cbn [snd]. split; [apply lookup_delete_eq |].
    destruct f_sel; [| reflexivity | reflexivity].
    apply get_miss, lookup_delete_eq.
  - intros Hf. destruct f; [congruence | reflexivity | reflexivity].
Qed.

(** X5.  [clear] removes exactly the rows whose expiry instant lies strictly
    before the instant of the call and keeps every other row as it is; a
    clear that the store did not serve reports [false] and changes nothing.
    No read at or after that instant can tell whether [clear] ran: [get]
    answers the same with and without it. *)
Theorem clear_drops_exactly_the_expired (now now' : Z) (f f_sel f_del : fault) key t :
  let cleared := clear now f t in
  (f = Served ->
   fst cleared = Returns true /\
   forall r, snd cleared !! key = Some r <-> t !! key = Some r /\ now <= r_expires_at r) /\
  (f <> Served -> cleared = (Returns false, t)) /\
  (now <= now' ->
   fst (get now' f_sel f_del key (snd cleared)) = fst (get now' f_sel f_del key t)).
Proof.
  cbv zeta. split; [| split].
  - intros ->. split; [reflexivity |]. intros r. apply clear_lookup.
  - intros Hf. rewrite clear_result. destruct f; [congruence | reflexivity | reflexivity].
  - intros Hle. destruct f; [| reflexivity | reflexivity].
    destruct f_sel; [| reflexivity | reflexivity].
    destruct (t !! key) as [r |] eqn:Hk.
    + destruct (Z.lt_ge_cases (r_expires_at r) now) as [Hlt | Hge].
      * assert (Hgone : snd (clear now Served t) !! key = None).
        { destruct (snd (clear now Served t) !! key) as [r' |] eqn:Hk'; [| reflexivity].
          apply clear_lookup in Hk' as [Hk' Hle']. rewrite Hk in Hk'.
          injection Hk' as <-. lia. }
        rewrite (get_miss _ _ _ _ Hgone).
        rewrite (get_expired _ _ _ _ _ Hk) by lia. reflexivity.
      * apply get_answer_local. rewrite Hk. apply clear_lookup. auto.
    + apply get_answer_local. rewrite Hk.
      destruct (snd (clear now Served t) !! key) as [r' |] eqn:Hk'; [| reflexivity].
      apply clear_lookup in Hk' as [Hk' _]. congruence.
Qed.

End Laws.

Lemma other_keys_unaffected_witness :
  snd (set service 0 Served "a" "v" None (∅ : gmap string (row string))) !! "b" =
  (∅ : gmap string (row string)) !! "b".
Proof.
  refine (proj1 (other_keys_unaffected service 0 0 Served Served Served Served
                   "a" "b" "v" None ∅ _)).
  discriminate.
Defined.

Lemma last_write_wins_witness :
  get 5000 Served Served "k"
    (snd (set service 1000 Served "k" "new" (Some 60)
            (snd (set service 0 Served "k" "old" (Some 1)
                    (∅ : gmap string (row string)))))) =
  (Returns (Some "new"),
   snd (set service 1000 Served "k" "new" (Some 60)
          (snd (set service 0 Served "k" "old" (Some 1)
                  (∅ : gmap string (row string)))))).
Proof.
  refine (proj2 (last_write_wins service 0 1000 5000 Served Served "k" "old" "new"
                   (Some 1) (Some 60) ∅ _ _)).
  - reflexivity.
  - vm_compute. discriminate.
Defined.

End CacheLaws.

(** * Properties of cache keys *)

Module Base64Facts.

Import Base64 Base64Spec.

Lemma value_of_digit (n : Z) :
  0 <= n < 64 -> value (digit n) = n /\ Ascii.eqb (digit n) "=" = false.
Proof.
  intros Hn. rewrite <- (Z2Nat.id n) by lia.
  assert (Hk : (Z.to_nat n < 64)%nat) by lia.
  generalize dependent (Z.to_nat n). clear. intros k Hk.
  do 64 (destruct k as [| k]; [split; vm_compute; reflexivity |]). lia.
Qed.

Lemma utf8_char_bytes (c : ascii) : Forall byte (utf8_char c).
Proof.
  unfold utf8_char, byte. cbv zeta.
  pose proof (nat_ascii_bounded c) as Hc.
  destruct (Z.ltb_spec (Z.of_nat (nat_of_ascii c)) 128).
  - repeat constructor; lia.
  - repeat constructor;
      try (pose proof (Z.div_pos (Z.of_nat (nat_of_ascii c)) 64); lia);
      try (pose proof (Z.mod_pos_bound (Z.of_nat (nat_of_ascii c)) 64); lia).
    assert (Z.of_nat (nat_of_ascii c) / 64 < 4) by (apply Z.div_lt_upper_bound; lia).
    lia.
Qed.

Lemma utf8_bytes (s : string) : Forall byte (utf8 s).
Proof.
  induction s as [| c s IH]; simpl; [constructor |].
  apply Forall_app. split; [apply utf8_char_bytes | exact IH].
Qed.

(** The UTF-8 bytes of a string give the string back. *)
Lemma from_utf8_utf8 (s : string) : from_utf8 (utf8 s) = s.
Proof.
  induction s as [| c s IH]; [reflexivity |].
  cbn [utf8]. unfold utf8_char. cbv zeta.
  pose proof (nat_ascii_bounded c) as Hc.
  destruct (Z.ltb_spec (Z.of_nat (nat_of_ascii c)) 128) as [Hlt | Hge]; cbn [app from_utf8].
  - destruct (Z.ltb_spec (Z.of_nat (nat_of_ascii c)) 128); [| lia].
    now rewrite Nat2Z.id, ascii_nat_embedding, IH.
  - destruct (Z.ltb_spec (192 + Z.of_nat (nat_of_ascii c) / 64) 128) as [H | _].
    + pose proof (Z.div_pos (Z.of_nat (nat_of_ascii c)) 64). lia.
    + replace ((192 + Z.of_nat (nat_of_ascii c) / 64 - 192) * 64 +
               (128 + Z.of_nat (nat_of_ascii c) mod 64 - 128))
        with (Z.of_nat (nat_of_ascii c))
        by (pose proof (Z.div_mod (Z.of_nat (nat_of_ascii c)) 64); lia).
      now rewrite Nat2Z.id, ascii_nat_embedding, IH.
Qed.

Ltac sextets :=
  repeat match goal with
         | |- context [value (digit ?n)] =>
             let H := fresh in
             let E := fresh in
             assert (H : 0 <= n < 64)
               by (unfold byte in *; Z.div_mod_to_equations; lia);
             destruct (value_of_digit n H) as [E _]; rewrite E; clear E H
         end.

Ltac no_padding n :=
  let H := fresh in
  let E := fresh in
  assert (H : 0 <= n < 64) by (unfold byte in *; Z.div_mod_to_equations; lia);
  destruct (value_of_digit n H) as [_ E]; rewrite E; clear E H.

(** The base64 text of a list of bytes gives the bytes back. *)
Lemma from_base64_to_base64 (n : nat) :
  forall bytes, (length bytes <= n)%nat -> Forall byte bytes ->
                from_base64 (to_base64 bytes) = bytes.
Proof.
  induction n as [| n IH]; intros bytes Hlen Hb.
  - destruct bytes; [reflexivity | simpl in Hlen; lia].
  - destruct bytes as [| a [| b [| c rest]]].
    + reflexivity.
    + apply Forall_cons_iff in Hb as [Ha _].
      cbn [to_base64 from_base64]. simpl (Ascii.eqb "=" "="). cbv iota.
      sextets. f_equal. unfold byte in *. Z.div_mod_to_equations. lia.
    + apply Forall_cons_iff in Hb as [Ha Hb]. apply Forall_cons_iff in Hb as [Hb _].
      cbn [to_base64 from_base64].
      no_padding (b mod 16 * 4). simpl (Ascii.eqb "=" "="). cbv iota.
      sextets. f_equal; [| f_equal]; unfold byte in *; Z.div_mod_to_equations; lia.
    + apply Forall_cons_iff in Hb as [Ha Hb]. apply Forall_cons_iff in Hb as [Hb Hc].
      apply Forall_cons_iff in Hc as [Hc Hrest].
      cbn [to_base64 from_base64].
      no_padding (b mod 16 * 4 + c / 64). no_padding (c mod 64).
      sextets. rewrite IH; [| simpl in Hlen; lia | exact Hrest].
      f_equal; [| f_equal; [| f_equal]]; unfold byte in *; Z.div_mod_to_equations; lia.
Qed.

Lemma base64_injective (s1 s2 : string) : base64 s1 = base64 s2 -> s1 = s2.
Proof.
  intros H. unfold base64 in H.
  apply (f_equal from_base64) in H.
  rewrite !(from_base64_to_base64 _ _ (Nat.le_refl _) (utf8_bytes _)) in H.
  apply (f_equal from_utf8) in H. now rewrite !from_utf8_utf8 in H.
Qed.

(** A text without a colon, followed by a colon, is read off unambiguously. *)
Lemma colon_splits (p1 p2 e1 e2 : string) :
  includes p1 ":" = false -> includes p2 ":" = false ->
  (p1 ++ ":" ++ e1)%string = (p2 ++ ":" ++ e2)%string -> p1 = p2 /\ e1 = e2.
Proof.
  revert p2. induction p1 as [| c p1 IH]; intros p2 H1 H2 E.
  - destruct p2 as [| c2 p2].
    + change (String ":" e1 = String ":" e2) in E. now injection E as ->.
    + change (String ":" e1 = String c2 (p2 ++ ":" ++ e2)) in E. injection E as <- _.
      destruct p2; discriminate H2.
  - destruct p2 as [| c2 p2].
    + change (String c (p1 ++ ":" ++ e1) = String ":" e2) in E. injection E as -> _.
      destruct p1; discriminate H1.
    + change (String c (p1 ++ ":" ++ e1) = String c2 (p2 ++ ":" ++ e2)) in E.
      injection E as <- E.
      rewrite SocialMediaFacts.includes_unfold in H1, H2.
      apply orb_false_iff in H1 as [_ H1]. apply orb_false_iff in H2 as [_ H2].
      destruct (IH p2 H1 H2 E) as [-> ->]. auto.
Qed.

(** X6.  Cache keys do not collide.  For prefixes without a colon, as all
    the prefixes of the routes are, two keys are the same text only when
    they were made from the same prefix and the same parameter text: the
    parameter can be read back from the key.  In particular the
    verifications of two different URLs are kept under different keys. *)
Theorem cache_keys_do_not_collide (prefix1 prefix2 params1 params2 : string) :
  includes prefix1 ":" = false -> includes prefix2 ":" = false ->
  (Cache.generateKey base64 prefix1 params1 = Cache.generateKey base64 prefix2 params2 <->
   prefix1 = prefix2 /\ params1 = params2) /\
  from_utf8 (from_base64 (base64 params1)) = params1 /\
  (params1 <> params2 ->
   Cache.generateKey base64 "image_verification" params1 <>
   Cache.generateKey base64 "image_verification" params2).
Proof.
  intros H1 H2.
  assert (Hkey : forall p1 p2 s1 s2,
            includes p1 ":" = false -> includes p2 ":" = false ->
            Cache.generateKey base64 p1 s1 = Cache.generateKey base64 p2 s2 ->
            p1 = p2 /\ s1 = s2).
  { intros p1 p2 s1 s2 Hp1 Hp2 E. unfold Cache.generateKey in E.
    apply colon_splits in E as [-> E]; auto. split; [reflexivity |].
    now apply base64_injective. }
  split; [| split].
  - split; [now apply Hkey | now intros [-> ->]].
  - unfold base64.
    now rewrite (from_base64_to_base64 _ _ (Nat.le_refl _) (utf8_bytes _)), from_utf8_utf8.
  - intros Hne E. apply Hkey in E as [_ E]; [contradiction | reflexivity | reflexivity].
Qed.

(** The key of a place name. *)
Lemma cache_keys_do_not_collide_witness :
  Cache.generateKey base64 "geocoding" "Manhattan, NYC" = "geocoding:TWFuaGF0dGFuLCBOWUM=" /\
  from_utf8 (from_base64 (base64 "Manhattan, NYC")) = "Manhattan, NYC".
Proof.
  split; [reflexivity |].
  refine (proj1 (proj2 (cache_keys_do_not_collide "geocoding" "geocoding"
                          "Manhattan, NYC" "Manhattan, NYC" _ _))); reflexivity.
Defined.

End Base64Facts.

(** * Access control and the audit trail *)

Module AccessFacts.

Import Handlers HandlersSpec HandlersFacts AccessSpec.

(** ** The users *)

Lemma find_user_listed (h : string) (u : Auth.user) :
  Auth.find_user h Auth.mockUsers = Some u ->
  Auth.id u = h /\ In (h, u) Auth.mockUsers.
Proof.
  unfold Auth.mockUsers. cbn [Auth.find_user].
  repeat match goal with
         | |- context [String.eqb ?a h] => destruct (String.eqb_spec a h) as [<- | ?]
         end;
    intros H; try discriminate H; injection H as <-; cbn [Auth.id In]; auto 10.
Qed.

(** Only the two administrators pass [requireRole(['admin'])]. *)
Lemma admin_iff (x : option string) :
  (exists u, Auth.authenticateUser x = Some u /\ Auth.requireRole ["admin"] u = true) <->
  In x admin_headers.
Proof.
  split.
  - intros (u & Hu & Hr). unfold Auth.authenticateUser in Hu.
    assert (Hrole : Auth.role u = "admin").
    { unfold Auth.requireRole in Hr. simpl in Hr. rewrite orb_false_r in Hr.
      now apply String.eqb_eq in Hr. }
    assert (Hh : forall h, Auth.find_user h Auth.mockUsers = Some u ->
                           h = "netrunnerX" \/ h = "reliefAdmin").
    { intros h H. apply find_user_listed in H as [_ H]. simpl in H.
      destruct H as [H | [H | [H | [H | []]]]]; injection H as <- <-;
        try discriminate Hrole; auto. }
    destruct x as [h |].
    + destruct (String.eqb_spec h "") as [-> | _].
      * apply Hh in Hu. destruct Hu; discriminate.
      * apply Hh in Hu. destruct Hu as [-> | ->]; simpl; auto.
    + apply Hh in Hu. destruct Hu; discriminate.
  - intros [<- | [<- | []]]; eexists; split; reflexivity.
Qed.

Section Facts.

Variable ToString : jsval -> string.
Variable message : exn -> string.

(** ** Events and store calls *)

(** X7.  No mutation endpoint announces a change that it does not report as
    a success: a run whose status is not 2xx emits nothing, and no run emits
    more than one event. *)
Theorem no_event_without_success (ep : endpoint) (rq : request) (w : world) :
  let r := handle ToString message ep rq w in
  (succeeded (res r) = false -> emitted r = []) /\
  (length (emitted r) <= 1)%nat.
Proof.
  cbv zeta.
  destruct ep; unfold handle, create_disaster, update_disaster, delete_disaster,
    create_resource, update_resource; cbv zeta; branches; simpl;
    (split; [intros H; try discriminate H; reflexivity | lia]).
Qed.


(** ** Who may delete and who may update *)

(** X9.  The delete of a disaster reaches the store exactly for the two
    administrators: for them the one query sent is the delete of the row
    addressed; for every other header nothing is sent, nothing is emitted
    and the answer is 401 or 403. *)
Theorem only_admins_delete (x : option string) (id : string) (delete : reply) :
  let r := delete_disaster message x id delete in
  (In x admin_headers -> calls r = [Delete "disasters" [("id", id)]]) /\
  (~ In x admin_headers ->
   calls r = [] /\ emitted r = [] /\
   (status (res r) = 401 \/ status (res r) = 403)).
Proof.
  cbv zeta. split.
  - intros H. apply admin_iff in H as (u & Hu & Hr).
    unfold delete_disaster. rewrite Hu, Hr. simpl. branches; reflexivity.
  - intros H. unfold delete_disaster.
    destruct (Auth.authenticateUser x) as [u |] eqn:Hu; [| simpl; auto].
    destruct (Auth.requireRole ["admin"] u) eqn:Hr; [| simpl; auto].
    exfalso. apply H, admin_iff. eauto.
Qed.

(** X10.  The update of a disaster is sent to the store only when the row
    was found and the requester is its owner or an administrator, and it
    addresses that row alone. *)
Theorem update_needs_owner_or_admin (x : option string) (id : string)
    (body : jsval) (fetch update : reply) (at_audit : string)
    (table : string) (changes : jsval) (filters : list (string * string)) :
  In (Update table changes filters)
     (calls (update_disaster ToString message x id body fetch update at_audit)) ->
  table = "disasters" /\ filters = [("id", id)] /\
  exists user existing error,
    Auth.authenticateUser x = Some user /\
    fetch = Reply existing error /\ truthy error = false /\ truthy existing = true /\
    (get_prop existing "owner_id" = JStr (Auth.id user) \/ Auth.role user = "admin").
Proof.
  unfold update_disaster.
  destruct (Auth.authenticateUser x) as [user |]; [| intros []].
  destruct (is_nullish body); [intros [] |].
  cbv zeta.
  destruct fetch as [existing error | e]; [| intros [H | []]; discriminate H].
  destruct (truthy error || negb (truthy existing))%bool eqn:Hfound;
    [intros [H | []]; discriminate H |].
  apply orb_false_iff in Hfound as [Herr Hex]. apply negb_false_iff in Hex.
  destruct (negb (is_string (get_prop existing "owner_id") (Auth.id user)) &&
            negb (String.eqb (Auth.role user) "admin"))%bool eqn:Hperm;
    [intros [H | []]; discriminate H |].
  assert (Hwho : get_prop existing "owner_id" = JStr (Auth.id user) \/
                 Auth.role user = "admin").
  { apply andb_false_iff in Hperm as [H | H]; apply negb_false_iff in H.
    - left. unfold is_string in H.
      destruct (get_prop existing "owner_id"); try discriminate H.
      apply String.eqb_eq in H. now subst.
    - right. now apply String.eqb_eq. }
  intros Hin.
  assert (Hshape : table = "disasters" /\ filters = [("id", id)]).
  { revert Hin. branches; simpl; intros H;
      repeat match goal with
             | H : _ \/ _ |- _ => destruct H as [H | H]
             | H : False |- _ => destruct H
             end; try discriminate H; injection H as <- _ <-; auto. }
  destruct Hshape as [-> ->]. repeat split.
  exists user, existing, error. auto.
Qed.

(** ** What an update writes *)

(** The object [updateData] before the audit trail is added, and its keys. *)
Lemma update_changes (x : option string) (id : string)
    (body : jsval) (fetch update : reply) (at_audit : string) (changes : jsval) :
  In (Update "disasters" changes [("id", id)])
     (calls (update_disaster ToString message x id body fetch update at_audit)) ->
  exists user existing error trail fields,
    Auth.authenticateUser x = Some user /\
    fetch = Reply existing error /\
    iterate (js_or (get_prop existing "audit_trail") (JArr [])) = Returns trail /\
    map fst fields = changed_fields body /\
    (forall k v, In (k, v) fields -> v = get_prop body k \/ k = "location") /\
    changes =
    JObj (fields ++
          [("audit_trail",
            JArr (trail ++
                  [JObj [ ("action", JStr "update");
                          ("user_id", JStr (Auth.id user));
                          ("timestamp", JStr at_audit);
                          ("changes", JArr (map JStr (changed_fields body))) ]])%list)])%list.
Proof.
  unfold update_disaster.
  destruct (Auth.authenticateUser x) as [user |]; [| intros []].
  destruct (is_nullish body); [intros [] |].
  cbv zeta.
  destruct fetch as [existing error | e]; [| intros [H | []]; discriminate H].
  destruct (truthy error || negb (truthy existing))%bool;
    [intros [H | []]; discriminate H |].
  destruct (negb (is_string (get_prop existing "owner_id") (Auth.id user)) &&
            negb (String.eqb (Auth.role user) "admin"))%bool;
    [intros [H | []]; discriminate H |].
  destruct (iterate (js_or (get_prop existing "audit_trail") (JArr [])))
    as [trail | e] eqn:Hit; [| intros [H | []]; discriminate H].
  intros Hin.
  assert (Hch : exists updateData,
            changes =
            set_prop updateData "audit_trail"
              (JArr (trail ++
                     [JObj [ ("action", JStr "update");
                             ("user_id", JStr (Auth.id user));
                             ("timestamp", JStr at_audit);
                             ("changes", JArr (keys updateData)) ]])%list) /\
            updateData =
            (if has_point (get_prop body "location")
             then set_prop
                    (set_if "tags" (get_prop body "tags")
                       (set_if "description" (get_prop body "description")
                          (set_if "location_name" (get_prop body "location_name")
                             (set_if "title" (get_prop body "title") (JObj [])))))
                    "location"
                    (JStr (formatLocationForDB ToString
                             (get_prop (get_prop body "location") "lat")
                             (get_prop (get_prop body "location") "lng")))
             else set_if "tags" (get_prop body "tags")
                    (set_if "description" (get_prop body "description")
                       (set_if "location_name" (get_prop body "location_name")
                          (set_if "title" (get_prop body "title") (JObj [])))))).
  { eexists. split; [| reflexivity].
    revert Hin. destruct update as [data err | e]; [destruct (truthy err) |];
      cbn [calls app In]; intros [H | [H | []]]; try discriminate H;
      now injection H as <-. }
  destruct Hch as (updateData & -> & ->).
  exists user, existing, error, trail. clear Hin.
  unfold changed_fields, set_if.
  destruct (truthy (get_prop body "title")) eqn:H1;
    destruct (truthy (get_prop body "location_name")) eqn:H2;
    destruct (truthy (get_prop body "description")) eqn:H3;
    destruct (truthy (get_prop body "tags")) eqn:H4;
    destruct (has_point (get_prop body "location")) eqn:H5;
    cbn [List.filter app map set_prop assign_field keys fst];
    rewrite ?H1, ?H2, ?H3, ?H4;
    cbn [List.filter app map set_prop assign_field keys fst String.eqb Ascii.eqb
         Bool.eqb];
    match goal with
    | |- exists fields, _ /\ _ /\ _ /\ _ /\ _ /\ JObj ?l = _ => exists (removelast l)
    end;
    (split; [reflexivity |]); (split; [reflexivity |]);
    (split; [exact Hit |]);
    (split; [reflexivity |]);
    (split; [| reflexivity]);
    simpl; intros k v Hkv;
    repeat match goal with
           | H : _ \/ _ |- _ => destruct H as [H | H]
           | H : (_, _) = (_, _) |- _ => injection H as <- <-
           | H : False |- _ => destruct H
           end; auto.
Qed.

(** X11.  The audit trail is only ever appended to.  The update sent to the
    store carries under [audit_trail] the trail read from the row, in order,
    followed by one new entry: action [update], the requester, the instant,
    and under [changes] the fields taken over from the body.  A row without
    a trail gets the one entry. *)
Theorem audit_trail_is_append_only (x : option string) (id : string)
    (body : jsval) (fetch update : reply) (at_audit : string) (changes : jsval) :
  In (Update "disasters" changes [("id", id)])
     (calls (update_disaster ToString message x id body fetch update at_audit)) ->
  exists user existing error entry,
    Auth.authenticateUser x = Some user /\
    fetch = Reply existing error /\
    entry = JObj [ ("action", JStr "update");
                   ("user_id", JStr (Auth.id user));
                   ("timestamp", JStr at_audit);
                   ("changes", JArr (map JStr (changed_fields body))) ] /\
    (forall trail, get_prop existing "audit_trail" = JArr trail ->
                   get_prop changes "audit_trail" = JArr (trail ++ [entry])%list) /\
    (is_nullish (get_prop existing "audit_trail") = true ->
     get_prop changes "audit_trail" = JArr [entry]).
Proof.
  intros Hin.
  destruct (update_changes x id body fetch update at_audit changes Hin)
    as (user & existing & error & trail & fields & Hu & Hf & Hit & Hk & _ & ->).
  exists user, existing, error. eexists. split; [exact Hu |]. split; [exact Hf |].
  split; [reflexivity |].
  assert (Hget : forall tr, trail = tr ->
            get_prop
              (JObj (fields ++ [("audit_trail", JArr (tr ++ [
                 JObj [ ("action", JStr "update");
                        ("user_id", JStr (Auth.id user));
                        ("timestamp", JStr at_audit);
                        ("changes", JArr (map JStr (changed_fields body))) ]])%list)])%list)
              "audit_trail" =
            JArr (tr ++ [
                 JObj [ ("action", JStr "update");
                        ("user_id", JStr (Auth.id user));
                        ("timestamp", JStr at_audit);
                        ("changes", JArr (map JStr (changed_fields body))) ]])%list).
  { intros tr _. simpl.
    assert (Hno : ~ In "audit_trail" (map fst fields)).
    { rewrite Hk. unfold changed_fields. intros H. apply in_app_or in H as [H | H].
      - apply filter_In in H as [H _]. simpl in H.
        repeat (destruct H as [H | H]; [discriminate H |]). exact H.
      - destruct (has_point _); simpl in H; [destruct H as [H | []]; discriminate H | exact H]. }
    clear -Hno. induction fields as [| [k v] fields IH]; simpl.
    - reflexivity.
    - destruct (String.eqb_spec k "audit_trail") as [-> | _].
      + exfalso. apply Hno. now left.
      + apply IH. intros H. apply Hno. now right. }
  split.
  - intros tr Htr. rewrite Htr in Hit. simpl in Hit. injection Hit as <-.
    now rewrite Hget.
  - intros Hnull.
    assert (trail = []).
    { destruct (get_prop existing "audit_trail"); try discriminate Hnull;
        simpl in Hit; now injection Hit as <-. }
    subst trail. now rewrite Hget.
Qed.

(** X12.  [PUT /disasters/:id] writes no column other than the five fields
    it takes from the body and the audit trail: whatever the body holds, the
    owner, the id and the creation instant of a disaster cannot be changed
    through it.  Each field written has the value the body gives it, the
    location apart, which is written in the text form of the store. *)
Theorem update_writes_listed_columns_only (x : option string) (id : string)
    (body : jsval) (fetch update : reply) (at_audit : string) (changes : jsval) :
  In (Update "disasters" changes [("id", id)])
     (calls (update_disaster ToString message x id body fetch update at_audit)) ->
  (forall k, In (JStr k) (keys changes) <-> In k (changed_fields body) \/ k = "audit_trail") /\
  (forall k, In (JStr k) (keys changes) -> In k updatable) /\
  get_prop changes "owner_id" = JUndefined /\
  get_prop changes "id" = JUndefined /\
  get_prop changes "created_at" = JUndefined.
Proof.
  intros Hin.
  destruct (update_changes x id body fetch update at_audit changes Hin)
    as (user & existing & error & trail & fields & _ & _ & _ & Hk & _ & ->).
  assert (Hkeys : forall k, In (JStr k)
                    (keys (JObj (fields ++ [("audit_trail",
                       JArr (trail ++ [JObj [ ("action", JStr "update");
                          ("user_id", JStr (Auth.id user));
                          ("timestamp", JStr at_audit);
                          ("changes", JArr (map JStr (changed_fields body))) ]])%list)])%list)) <->
                  In k (changed_fields body) \/ k = "audit_trail").
  { intros k. unfold keys. rewrite <- Hk. rewrite in_map_iff. split.
    - intros ([k' v] & E & H). simpl in E. injection E as ->.
      apply in_app_or in H as [H | [H | []]].
      + left. apply in_map_iff. now exists (k, v).
      + injection H as <- _. now right.
    - intros [H | ->].
      + apply in_map_iff in H as ([k' v] & E & H). simpl in E. subst k'.
        exists (k, v). split; [reflexivity |]. apply in_or_app. now left.
      + eexists (_, _). split; [reflexivity |]. apply in_or_app. right. now left. }
  assert (Hlisted : forall k, In k (changed_fields body) \/ k = "audit_trail" ->
                              In k updatable).
  { intros k [H | ->]; [| simpl; auto 10].
    unfold changed_fields in H. apply in_app_or in H as [H | H].
    - apply filter_In in H as [H _]. simpl in H. simpl.
      repeat (destruct H as [H | H]; [auto 10 |]). destruct H.
    - destruct (has_point _); simpl in H; [| destruct H].
      destruct H as [<- | []]. simpl. auto 10. }
  assert (Hnot : forall k, ~ In k updatable ->
            get_prop (JObj (fields ++ [("audit_trail",
                       JArr (trail ++ [JObj [ ("action", JStr "update");
                          ("user_id", JStr (Auth.id user));
                          ("timestamp", JStr at_audit);
                          ("changes", JArr (map JStr (changed_fields body))) ]])%list)])%list) k
            = JUndefined).
  { intros k Hno. simpl.
    assert (Hall : forall k', In k' (map fst (fields ++ [("audit_trail",
                       JArr (trail ++ [JObj [ ("action", JStr "update");
                          ("user_id", JStr (Auth.id user));
                          ("timestamp", JStr at_audit);
                          ("changes", JArr (map JStr (changed_fields body))) ]])%list)])%list) ->
                   k' <> k).
    { intros k' H <-. apply Hno, Hlisted. rewrite map_app in H.
      apply in_app_or in H as [H | [<- | []]]; [left; now rewrite <- Hk | now right]. }
    revert Hall. generalize (fields ++ [("audit_trail",
                       JArr (trail ++ [JObj [ ("action", JStr "update");
                          ("user_id", JStr (Auth.id user));
                          ("timestamp", JStr at_audit);
                          ("changes", JArr (map JStr (changed_fields body))) ]])%list)])%list.
    intros l. induction l as [| [k0 v0] l IH]; simpl; intros Hall; [reflexivity |].
    destruct (String.eqb_spec k0 k) as [-> | _].
    - exfalso. now apply (Hall k); [left |].
    - apply IH. intros k' H. apply Hall. now right. }
  split; [exact Hkeys |].
  split; [intros k H; apply Hlisted, Hkeys, H |].
  repeat split; apply Hnot; simpl; intros H;
    repeat (destruct H as [H | H]; [discriminate H |]); exact H.
Qed.

(** ** What a create writes *)

(** X13.  For a requester who is a user of [mockUsers], the rows that the
    two create endpoints send to the store name that user, whatever the
    body says: a disaster has the user as [owner_id] and a trail of one
    [create] entry by the user, a resource has the user as [created_by] and
    belongs to the disaster of the route.  The user is the one whose id the
    header gives, [citizen1] when the header is absent or empty. *)
Theorem created_rows_name_the_requester (x : option string) (user : Auth.user)
    (disasterId : string) (body : jsval) (insert : reply)
    (mockId at_audit at_mock : string) (table : string) (row : jsval) :
  Auth.authenticateUser x = Some user ->
  Auth.id user = match x with
                 | Some h => if String.eqb h "" then "citizen1" else h
                 | None => "citizen1"
                 end /\
  (In (Insert table row)
      (calls (create_disaster ToString message x body insert mockId at_audit at_mock)) ->
   table = "disasters" /\
   get_prop row "owner_id" = JStr (Auth.id user) /\
   get_prop row "audit_trail" =
     JArr [ JObj [ ("action", JStr "create");
                   ("user_id", JStr (Auth.id user));
                   ("timestamp", JStr at_audit) ] ]) /\
  (In (Insert table row)
      (calls (create_resource ToString message x disasterId body insert mockId at_mock)) ->
   table = "resources" /\
   get_prop row "created_by" = JStr (Auth.id user) /\
   get_prop row "disaster_id" = JStr disasterId).
Proof.
  intros Hu. split; [| split].
  - unfold Auth.authenticateUser in Hu. cbv zeta in Hu.
    now apply find_user_listed in Hu as [Hid _].
  - unfold create_disaster. rewrite Hu.
    cbv zeta. branches; simpl; intros H;
      repeat match goal with
             | H : _ \/ _ |- _ => destruct H as [H | H]
             | H : False |- _ => destruct H
             end;
      injection H as <- <-; repeat split.
  - unfold create_resource. rewrite Hu.
    cbv zeta.
    assert (Hrow : get_prop (newResource ToString disasterId user body) "created_by" =
                     JStr (Auth.id user) /\
                   get_prop (newResource ToString disasterId user body) "disaster_id" =
                     JStr disasterId).
    { unfold newResource. cbv zeta. destruct (has_point _); split; reflexivity. }
    branches; simpl; intros H;
      repeat match goal with
             | H : _ \/ _ |- _ => destruct H as [H | H]
             | H : False |- _ => destruct H
             end;
      injection H as <- <-; (split; [reflexivity | exact Hrow]).
Qed.

End Facts.

(** ** Concrete runs *)

Lemma update_needs_owner_or_admin_witness :
  exists user existing error,
    Auth.authenticateUser (Some "citizen1") = Some user /\
    owned_by_citizen1 = Reply existing error /\
    (get_prop existing "owner_id" = JStr (Auth.id user) \/ Auth.role user = "admin").
Proof.
  destruct (update_needs_owner_or_admin plain text (Some "citizen1") "1" retitle
              owned_by_citizen1 (on_write store_up) "2025-06-21T10:00:00.000Z"
              "disasters" _ [("id", "1")] (or_intror (or_introl eq_refl)))
    as (_ & _ & user & existing & error & Hu & Hf & _ & _ & Hwho).
  exists user, existing, error. auto.
Defined.

Lemma audit_trail_is_append_only_witness :
  exists changes entry,
    get_prop changes "audit_trail" =
    JArr [ JObj [ ("action", JStr "create");
                  ("user_id", JStr "citizen1");
                  ("timestamp", JStr "2025-06-20T08:00:00.000Z") ];
           entry ] /\
    get_prop entry "changes" = JArr [JStr "title"].
Proof.
  eexists.
  destruct (audit_trail_is_append_only plain text (Some "citizen1") "1" retitle
              owned_by_citizen1 (on_write store_up) "2025-06-21T10:00:00.000Z"
              _ (or_intror (or_introl eq_refl)))
    as (user & existing & error & entry & Hu & Hf & -> & Happ & _).
  eexists. injection Hf as <- _. split.
  - exact (Happ _ eq_refl).
  - reflexivity.
Defined.

(** A contributor creates a disaster with a body that names an
    administrator as the owner. *)
Lemma created_rows_name_the_requester_witness :
  exists row,
    calls (create_disaster plain text (Some "volunteer1") claimed (on_write store_up)
             "k3j9x2m1q" "2025-06-21T10:00:00.000Z" "2025-06-21T10:00:00.001Z") =
      [Insert "disasters" row] /\
    get_prop claimed "owner_id" = JStr "netrunnerX" /\
    get_prop row "owner_id" = JStr "volunteer1".
Proof.
  eexists. split; [reflexivity |]. split; [reflexivity |].
  refine (proj1 (proj2 (proj1 (proj2
            (created_rows_name_the_requester plain text (Some "volunteer1")
               {| Auth.id := "volunteer1"; Auth.role := "contributor";
                  Auth.name := "Volunteer Helper" |}
               "1" claimed (on_write store_up)
               "k3j9x2m1q" "2025-06-21T10:00:00.000Z" "2025-06-21T10:00:00.001Z"
               "disasters" _ eq_refl)) (or_introl eq_refl)))).
Defined.

Lemma update_writes_listed_columns_only_witness :
  exists changes,
    In (Update "disasters" changes [("id", "1")])
       (calls (update_disaster plain text (Some "citizen1") "1" retitle
                 owned_by_citizen1 (on_write store_up) "2025-06-21T10:00:00.000Z")) /\
    get_prop retitle "owner_id" = JStr "volunteer1" /\
    get_prop changes "owner_id" = JUndefined.
Proof.
  eexists. split; [right; left; reflexivity |]. split; [reflexivity |].
  refine (proj1 (proj2 (proj2 (update_writes_listed_columns_only plain text
                                 (Some "citizen1") "1" retitle owned_by_citizen1
                                 (on_write store_up) "2025-06-21T10:00:00.000Z" _ _)))).
  right; left; reflexivity.
Defined.

End AccessFacts.

(** * Properties of verdicts and of the verification routes *)

Module VerdictFacts.

Import Verification VerifyRequest VerificationSpec VerdictSpec SocialMediaSpec.

(** ** Clamping *)

Lemma clamp01_bounds (x : Q) : (0 <= clamp01 x)%Q /\ (clamp01 x <= 1)%Q.
Proof.
  unfold clamp01.
  destruct (Qle_bool x 0) eqn:H0.
  - split; discriminate.
  - destruct (Qle_bool x 1) eqn:H1.
    + apply Qle_bool_iff in H1. split; [| exact H1].
      apply Qnot_lt_le. intros Hlt. apply Qlt_le_weak, Qle_bool_iff in Hlt. congruence.
    + split; discriminate.
Qed.

Lemma Qltb_false (a b : Q) : Qltb a b = false <-> (b <= a)%Q.
Proof.
  unfold Qltb. rewrite negb_false_iff. apply Qle_bool_iff.
Qed.

(** Clamping keeps a score on its side of a threshold inside the interval. *)
Lemma clamp01_ge (a x : Q) : (a <= 1)%Q -> (a <= x)%Q -> (a <= clamp01 x)%Q.
Proof.
  intros Ha Hax. unfold clamp01.
  destruct (Qle_bool x 0) eqn:H0.
  - apply Qle_bool_iff in H0. simpl. eapply Qle_trans; eauto.
  - destruct (Qle_bool x 1); [exact Hax | exact Ha].
Qed.

Lemma clamp01_lt (a x : Q) : (0 < a)%Q -> (a <= 1)%Q -> (clamp01 x < a)%Q -> (x < a)%Q.
Proof.
  intros Ha Ha1. unfold clamp01.
  destruct (Qle_bool x 0) eqn:H0.
  - apply Qle_bool_iff in H0. intros _. eapply Qle_lt_trans; eauto.
  - destruct (Qle_bool x 1) eqn:H1; [auto |].
    intros H. exfalso. exact (Qlt_not_le _ _ H Ha1).
Qed.

Section Facts.

Variable valid_url : string -> bool.
Variable valid_array_url : list jsval -> bool.
Variable base64 : string -> string.
Variable stringify : jsval -> string.
Variable toISOString : Z -> string.
Variable message : exn -> string.

(** ** The verdict *)

(** X14.  Every verification result carries a score between 0 and 1,
    whichever way it was produced: from a fixture when no model is
    configured or the model run fails, or from the answer of the model,
    whatever number the answer names. *)
Theorem score_is_between_0_and_1 (g : gemini_run) (imageUrl : string) (now : Z) :
  exists q,
    get_prop (verifyImageWithGemini toISOString g imageUrl now) "authenticity_score"
      = JNum q /\
    (0 <= q)%Q /\ (q <= 1)%Q.
Proof.
  assert (Hmock : exists q,
            get_prop (getMockVerificationResult toISOString imageUrl now)
              "authenticity_score" = JNum q /\ (0 <= q)%Q /\ (q <= 1)%Q).
  { rewrite VerificationFacts.mock_prop_untimed by discriminate.
    pose proof (VerificationFacts.mock_index_in_range imageUrl) as Hi.
    destruct (Z.to_nat _) as [| [| [| i]]]; [| | | lia];
      eexists; (split; [reflexivity |]); split; discriminate. }
  destruct g as [| | | text]; simpl; try exact Hmock.
  exists (clamp01 (match match_authenticity text with
                   | Some group => parseFloat group
                   | None => (7 # 10)%Q
                   end)).
  split; [reflexivity | apply clamp01_bounds].
Qed.

Lemma alarm_mentioned (text : string) :
  mentions_some text alarm_words <->
  (includes (toLowerCase text) "manipulated" ||
   (includes (toLowerCase text) "edited" ||
    includes (toLowerCase text) "fake"))%bool = true.
Proof.
  rewrite SocialMediaFacts.mentions_some_spec. unfold alarm_words, some.
  cbn [existsb]. now rewrite orb_false_r.
Qed.

Lemma doubt_mentioned (text : string) :
  mentions_some text doubt_words <->
  (includes (toLowerCase text) "suspicious" ||
   includes (toLowerCase text) "uncertain")%bool = true.
Proof.
  rewrite SocialMediaFacts.mentions_some_spec. unfold doubt_words, some.
  cbn [existsb]. now rewrite orb_false_r.
Qed.

(** X15.  The verdict read from an answer of the model agrees with the score
    it reports and with the flags: a result is authentic only with a score
    of at least 0.7 and an answer free of the alarm and doubt words,
    suspicious only with a score of at least 0.4 and an answer free of the
    alarm words; a score below 0.4 or an alarm word (in any letter case,
    also inside a longer word) always gives fake; and the flags are those of
    the verdict. *)
Theorem verdict_agrees_with_score (analysisText imageUrl : string) (now : Z) :
  let r := parseGeminiVerificationResponse toISOString analysisText imageUrl now in
  exists q verdict,
    get_prop r "authenticity_score" = JNum q /\
    get_prop r "status" = JStr verdict /\
    In verdict statuses /\
    get_prop r "flags" = strings (flags_for verdict) /\
    (verdict = "authentic" ->
     (7 # 10 <= q)%Q /\ ~ mentions_some analysisText alarm_words /\
     ~ mentions_some analysisText doubt_words) /\
    (verdict = "suspicious" ->
     (4 # 10 <= q)%Q /\ ~ mentions_some analysisText alarm_words) /\
    ((q < 4 # 10)%Q -> verdict = "fake") /\
    (mentions_some analysisText alarm_words -> verdict = "fake").
Proof.
  cbv zeta. unfold parseGeminiVerificationResponse. cbv zeta.
  set (raw := match match_authenticity analysisText with
              | Some group => parseFloat group
              | None => (7 # 10)%Q
              end).
  cbn [get_prop lookup_field]. simpl (String.eqb _ _). cbv iota.
  rewrite <- !orb_assoc.
  pose proof (alarm_mentioned analysisText) as Ha.
  pose proof (doubt_mentioned analysisText) as Hd.
  destruct (includes (toLowerCase analysisText) "manipulated" ||
            (includes (toLowerCase analysisText) "edited" ||
             includes (toLowerCase analysisText) "fake"))%bool eqn:Halarm.
  - exists (clamp01 raw), "fake". rewrite orb_true_r.
    split; [reflexivity |]. split; [reflexivity |]. split; [simpl; auto |].
    split; [reflexivity |].
    split; [discriminate |]. split; [discriminate |]. split; reflexivity.
  - rewrite orb_false_r.
    assert (Hquiet : ~ mentions_some analysisText alarm_words)
      by (intros H; apply Ha in H; discriminate H).
    destruct (Qltb raw (4 # 10)) eqn:Hlow.
    + exists (clamp01 raw), "fake".
      split; [reflexivity |]. split; [reflexivity |]. split; [simpl; auto |].
      split; [reflexivity |].
      split; [discriminate |]. split; [discriminate |]. split; reflexivity.
    + apply Qltb_false in Hlow.
      assert (Hnot : (clamp01 raw < 4 # 10)%Q -> False).
      { intros H. apply clamp01_lt in H; [| reflexivity | discriminate].
        exact (Qlt_not_le _ _ H Hlow). }
      destruct (Qltb raw (7 # 10) ||
                (includes (toLowerCase analysisText) "suspicious" ||
                 includes (toLowerCase analysisText) "uncertain"))%bool eqn:Hsusp.
      * exists (clamp01 raw), "suspicious".
        split; [reflexivity |]. split; [reflexivity |]. split; [simpl; auto |].
        split; [reflexivity |].
        split; [discriminate |].
        split; [intros _; split; [apply clamp01_ge; [discriminate | exact Hlow]
                                 | exact Hquiet] |].
        split; [intros H; destruct (Hnot H) | intros H; destruct (Hquiet H)].
      * apply orb_false_iff in Hsusp as [Hmid Hdoubt]. apply Qltb_false in Hmid.
        exists (clamp01 raw), "authentic".
        split; [reflexivity |]. split; [reflexivity |]. split; [simpl; auto |].
        split; [reflexivity |].
        split; [intros _; split; [apply clamp01_ge; [discriminate | exact Hmid] |];
                split; [exact Hquiet |];
                intros H; apply Hd in H; congruence |].
        split; [discriminate |].
        split; [intros H; destruct (Hnot H) | intros H; destruct (Hquiet H)].
Qed.

Lemma verified_truthy (g : gemini_run) (imageUrl : string) (now : Z) :
  truthy (verifyImageWithGemini toISOString g imageUrl now) = true.
Proof. destruct g; reflexivity. Qed.

(** X16.  A result always names the image that was asked about and the
    instant of the verification, not those of a fixture.  Results that come
    from the model are marked [gemini_vision] and quote the answer; fallback
    results carry no such mark and are never fake. *)
Theorem result_names_the_requested_image (g : gemini_run) (imageUrl : string)
    (now : Z) :
  let r := verifyImageWithGemini toISOString g imageUrl now in
  get_prop r "image_url" = JStr imageUrl /\
  get_prop r "verified_at" = JStr (toISOString now) /\
  match g with
  | Answers analysisText =>
      get_prop r "verification_method" = JStr "gemini_vision" /\
      get_prop r "analysis" = JStr analysisText
  | _ =>
      get_prop r "verification_method" = JUndefined /\
      get_prop r "status" <> JStr "fake"
  end.
Proof.
  assert (Hmock :
            let r := getMockVerificationResult toISOString imageUrl now in
            get_prop r "image_url" = JStr imageUrl /\
            get_prop r "verified_at" = JStr (toISOString now) /\
            get_prop r "verification_method" = JUndefined /\
            get_prop r "status" <> JStr "fake").
  { cbv zeta. unfold getMockVerificationResult. cbv zeta.
    pose proof (VerificationFacts.mock_index_in_range imageUrl) as Hi.
    destruct (Z.to_nat _) as [| [| [| i]]]; [| | | lia];
      repeat split; discriminate. }
  destruct g as [| | | text]; cbv zeta; cbn [verifyImageWithGemini];
    [exact Hmock | exact Hmock | exact Hmock |].
  repeat split.
Qed.

(** ** The routes *)

Lemma get_absent (now : Z) (f_sel f_del : fault) (key : string)
    (t : gmap string (Cache.row jsval)) :
  t !! key = None -> Cache.get now f_sel f_del key t = (Returns None, t).
Proof.
  intros Hk. destruct f_sel.
  - now apply CacheFacts.get_miss.
  - reflexivity.
  - reflexivity.
Qed.

(** A URL without a row: the verification runs and, when the store serves
    the write, is kept for 86400 seconds. *)
Lemma verify_cached_miss (c : Cache.CacheService) (e : lookup_env) (url : string)
    (t : gmap string (Cache.row jsval)) :
  t !! Cache.generateKey base64 "image_verification" url = None ->
  on_upsert e = Served ->
  Cache.valid_time (at_set e + 86400 * 1000) = true ->
  verify_cached base64 toISOString c e url t =
  (Returns (verifyImageWithGemini toISOString (run e) url (at_verify e)),
   <[Cache.generateKey base64 "image_verification" url :=
       Cache.Row (verifyImageWithGemini toISOString (run e) url (at_verify e))
                 (at_set e + 86400 * 1000)]> t).
Proof.
  intros Hk Hup Hv. unfold verify_cached. cbv zeta. unfold Cache.bind at 1.
  rewrite (get_absent _ _ _ _ _ Hk). unfold Cache.bind. rewrite Hup.
  rewrite CacheFacts.set_served by exact Hv. reflexivity.
Qed.

(** A URL with a row that is not past its expiry: the row is served and
    neither the model nor the table is touched. *)
Lemma verify_cached_hit (c : Cache.CacheService) (e : lookup_env) (url : string)
    (t : gmap string (Cache.row jsval)) (r : Cache.row jsval) :
  t !! Cache.generateKey base64 "image_verification" url = Some r ->
  at_get e <= Cache.r_expires_at r -> on_select e = Served ->
  truthy (Cache.r_value r) = true ->
  verify_cached base64 toISOString c e url t = (Returns (Cache.r_value r), t).
Proof.
  intros Hk Hle Hsel Htr. unfold verify_cached. cbv zeta. unfold Cache.bind at 1.
  rewrite Hsel, (CacheFacts.get_fresh _ _ _ _ _ Hk Hle), Htr. reflexivity.
Qed.

Lemma verify_cached_returns (c : Cache.CacheService) (e : lookup_env) (url : string)
    (t : gmap string (Cache.row jsval)) :
  exists r t', verify_cached base64 toISOString c e url t = (Returns r, t').
Proof.
  unfold verify_cached. cbv zeta. unfold Cache.bind at 1.
  assert (Hmiss : forall (t0 : gmap string (Cache.row jsval)) (fresh : jsval),
            exists r t', Cache.bind
                           (Cache.set c (at_set e) (on_upsert e)
                              (Cache.generateKey base64 "image_verification" url)
                              fresh (Some 86400))
                           (fun _ => Cache.ret fresh) t0 = (Returns r, t')).
  { intros t0 fresh. unfold Cache.bind.
    destruct (CacheFacts.set_cases c (at_set e) (on_upsert e)
                (Cache.generateKey base64 "image_verification" url)
                fresh (Some 86400) t0) as [E | E]; rewrite E; eexists _, _; reflexivity. }
  destruct (CacheFacts.get_cases (at_get e) (on_select e) (on_delete e)
              (Cache.generateKey base64 "image_verification" url) t)
    as [(row & Hk & E) | [E | E]]; rewrite E; [| apply Hmiss | apply Hmiss].
  destruct (truthy (Cache.r_value row)); [eexists _, _; reflexivity | apply Hmiss].
Qed.

Lemma verify_all_returns (c : Cache.CacheService) (env : nat -> lookup_env)
    (urls : list string) :
  forall (i : nat) (t : gmap string (Cache.row jsval)),
    exists rs t', verify_all base64 toISOString c env i urls t = (Returns rs, t').
Proof.
  induction urls as [| url urls IH]; intros i t; simpl.
  - eexists _, _; reflexivity.
  - unfold Cache.bind at 1.
    destruct (verify_cached_returns c (env i) url t) as (r & t1 & ->).
    unfold Cache.bind at 1.
    destruct (IH (S i) t1) as (rs & t2 & ->). eexists _, _; reflexivity.
Qed.



(** X18.  A verification is kept for a day under the URL alone.  When a URL
    without a row is verified and the store serves the write (the expiry
    instant, a day after the clock reading, being one that [Date]
    represents, as it is for every reading of a clock before the year
    275760), a later request for the same URL, by any known user and for
    any disaster, up to 86400 seconds after the write, is answered with the
    very same verification: the model is not consulted (its run does not
    matter) and the table is not changed. *)
Theorem verification_is_kept_for_a_day (c : Cache.CacheService)
    (x x' : option string) (disasterId disasterId' url : string)
    (e e' : lookup_env) (at_reply at_reply' : Z)
    (t : gmap string (Cache.row jsval)) :
  is_Some (Auth.authenticateUser x) -> is_Some (Auth.authenticateUser x') ->
  url <> "" -> valid_url url = true ->
  t !! Cache.generateKey base64 "image_verification" url = None ->
  on_upsert e = Served -> Cache.valid_time (at_set e + 86400 * 1000) = true ->
  on_select e' = Served -> at_get e' <= at_set e + 86400 * 1000 ->
  let first := verify_image valid_url base64 toISOString c x disasterId
                 (Some url) e at_reply t in
  let second := verify_image valid_url base64 toISOString c x' disasterId'
                  (Some url) e' at_reply' (snd first) in
  exists res res',
    fst first = Returns res /\ fst second = Returns res' /\
    status res = 200 /\ status res' = 200 /\
    get_prop (body res) "verification" =
      verifyImageWithGemini toISOString (run e) url (at_verify e) /\
    get_prop (body res') "verification" = get_prop (body res) "verification" /\
    snd second = snd first.
Proof.
  intros [u Hu] [u' Hu'] Hne Hv Hk Hup Hdate Hsel Hle.
  apply String.eqb_neq in Hne.
  assert (Hfirst :
            verify_image valid_url base64 toISOString c x disasterId
              (Some url) e at_reply t =
            (Returns {| status := 200;
                        body := JObj [ ("disaster_id", JStr disasterId);
                                       ("verification",
                                        verifyImageWithGemini toISOString (run e) url
                                          (at_verify e));
                                       ("verified_by", JStr (Auth.id u));
                                       ("timestamp", JStr (toISOString at_reply)) ] |},
             <[Cache.generateKey base64 "image_verification" url :=
                 Cache.Row (verifyImageWithGemini toISOString (run e) url (at_verify e))
                           (at_set e + 86400 * 1000)]> t)).
  { unfold verify_image. rewrite Hu, Hne, Hv. cbn [negb]. unfold Cache.bind.
    now rewrite (verify_cached_miss c e url t Hk Hup Hdate). }
  intros first second. subst second first. rewrite Hfirst. cbn [fst snd].
  unfold verify_image. rewrite Hu', Hne, Hv. cbn [negb]. unfold Cache.bind.
  rewrite (verify_cached_hit c e' url _
             (Cache.Row (verifyImageWithGemini toISOString (run e) url (at_verify e))
                        (at_set e + 86400 * 1000)));
    [| apply lookup_insert_eq | exact Hle | exact Hsel | apply verified_truthy].
  eexists _, _. repeat split.
Qed.

(** X19.  Bulk verification is all or nothing.  If one URL of the array is
    not well formed, the answer is 400 and names the first such URL; no
    image is verified and the cache is left as it was, whatever the store
    and the model would have done. *)
Theorem one_bad_url_rejects_the_batch (c : Cache.CacheService)
    (x_user_id : option string) (disasterId : string)
    (good rest : list string) (bad : string)
    (env : nat -> lookup_env) (at_reply : Z) (t : gmap string (Cache.row jsval)) :
  is_Some (Auth.authenticateUser x_user_id) ->
  (length (good ++ bad :: rest) <= 10)%nat ->
  Forall (fun url => valid_url url = true) good -> valid_url bad = false ->
  verify_images valid_url base64 toISOString c x_user_id disasterId
    (Some (good ++ bad :: rest)%list) env at_reply t =
  (Returns {| status := 400;
              body := JObj [ ("error", JStr "Invalid URL");
                             ("message", JStr ("Invalid URL: " ++ bad)%string) ] |},
   t).
Proof.
  intros [u Hu] Hlen Hgood Hbad. unfold verify_images. rewrite Hu.
  destruct (Nat.ltb_spec 10 (length (good ++ bad :: rest))) as [Hgt | _]; [lia |].
  assert (Hfind : find (fun url => negb (valid_url url)) (good ++ bad :: rest) = Some bad).
  { clear -Hgood Hbad. induction Hgood as [| url good Hurl _ IH]; simpl.
    - now rewrite Hbad.
    - now rewrite Hurl. }
  now rewrite Hfind.
Qed.

End Facts.

(** ** Concrete runs *)

(** A contributor has an image verified for disaster 1; an hour later an
    administrator asks about the same image for disaster 2. *)
Lemma verification_is_kept_for_a_day_witness :
  exists res res',
    fst (verify_image has_scheme verbatim noon CacheSpec.service (Some "citizen1") "1"
           (Some "http://example.com/a.jpg") (calm 0) 1 ∅) = Returns res /\
    fst (verify_image has_scheme verbatim noon CacheSpec.service (Some "netrunnerX") "2"
           (Some "http://example.com/a.jpg") (calm 3600000) 3600001
           (snd (verify_image has_scheme verbatim noon CacheSpec.service
                   (Some "citizen1") "1" (Some "http://example.com/a.jpg")
                   (calm 0) 1 ∅))) = Returns res' /\
    get_prop (body res') "verification" = get_prop (body res) "verification".
Proof.
  destruct (verification_is_kept_for_a_day has_scheme verbatim noon CacheSpec.service
              (Some "citizen1") (Some "netrunnerX") "1" "2" "http://example.com/a.jpg"
              (calm 0) (calm 3600000) 1 3600001 ∅)
    as (res & res' & H1 & H2 & _ & _ & _ & H3 & _).
  - eexists; reflexivity.
  - eexists; reflexivity.
  - discriminate.
  - reflexivity.
  - apply lookup_empty.
  - reflexivity.
  - reflexivity.
  - reflexivity.
  - simpl. lia.
  - exists res, res'. auto.
Defined.

(** A contributor sends an array that holds a URL where the URL is
    expected, and no API key is set: the fixture picker throws and the
    answer is 500.  The same request without a body is answered 500 as
    well. *)
Lemma verify_image_of_an_array :
  let wrapped := JObj [ ("image_url", JArr [JStr "http://example.com/a.jpg"]) ] in
  let route := post_verify_image has_scheme (fun _ => true) verbatim (fun _ => "[]")
                 noon HandlersSpec.text CacheSpec.service (Some "citizen1") "1" in
  (exists res, route wrapped (calm 0) 1 ∅ = (Returns res, ∅) /\ status res = 500) /\
  (exists res, route JUndefined (calm 0) 1 ∅ = (Returns res, ∅) /\ status res = 500).
Proof.
  cbv zeta. split; [| eexists; split; reflexivity].
  unfold post_verify_image. cbn [Auth.authenticateUser]. simpl.
  unfold Cache.try_catch, Cache.bind, verify_cached_array. cbv zeta.
  unfold Cache.bind. rewrite get_absent by apply lookup_empty.
  eexists. split; reflexivity.
Qed.

Lemma one_bad_url_rejects_the_batch_witness :
  verify_images has_scheme verbatim noon CacheSpec.service (Some "citizen1") "1"
    (Some ["http://example.com/a.jpg"; "flood.jpg"; "http://example.com/b.jpg"])
    (fun _ => calm 0) 1 ∅ =
  (Returns {| status := 400;
              body := JObj [ ("error", JStr "Invalid URL");
                             ("message", JStr "Invalid URL: flood.jpg") ] |},
   ∅).
Proof.
  refine (one_bad_url_rejects_the_batch has_scheme verbatim noon CacheSpec.service
            (Some "citizen1") "1" ["http://example.com/a.jpg"]
            ["http://example.com/b.jpg"] "flood.jpg" (fun _ => calm 0) 1 ∅ _ _ _ _).
  - eexists; reflexivity.
  - simpl. lia.
  - repeat constructor.
  - reflexivity.
Defined.

End VerdictFacts.

(** * Properties of the score read from an answer *)

Module ScoreFacts.

Import Verification ScoreSpec TextFacts.

(** Before the first letter a, in either case, the word cannot begin. *)
Lemma match_after_prefix (pre s : string) :
  includes (toLowerCase pre) "a" = false ->
  match_authenticity (pre ++ s) = match_authenticity s.
Proof.
  induction pre as [| c pre IH]; intros H; [reflexivity |].
  rewrite append_cons. cbn [toLowerCase] in H.
  rewrite SocialMediaFacts.includes_unfold in H.
  apply orb_false_iff in H as [Hc H].
  assert (Hc' : Ascii.eqb "a" (lower_char c) = false).
  { destruct (toLowerCase pre); simpl in Hc; now rewrite andb_true_r in Hc. }
  cbn [match_authenticity toLowerCase].
  assert (Hno : startsWith (String (lower_char c) (toLowerCase (pre ++ s))) "authenticity"
                = false).
  { cbn [startsWith]. now rewrite Hc'. }
  rewrite Hno. now apply IH.
Qed.

(** The lazy run stops at the first digit of the line. *)
Lemma lazy_to_first_digit (mid rest : string) :
  plain_run mid = true -> numeral_ahead rest = true ->
  lazy_to_number (mid ++ rest) = Some (capture_number rest).
Proof.
  intros Hmid Hrest. induction mid as [| c mid IH].
  - rewrite append_nil. destruct rest as [| d rest]; [discriminate Hrest |].
    simpl in Hrest. cbn [lazy_to_number]. now rewrite Hrest.
  - cbn [plain_run] in Hmid. apply andb_true_iff in Hmid as [Hc Hmid].
    apply andb_true_iff in Hc as [Hd Hl].
    apply negb_true_iff in Hd. apply negb_true_iff in Hl.
    rewrite append_cons. cbn [lazy_to_number]. rewrite Hd, Hl. now apply IH.
Qed.

Lemma word_matches (word s : string) :
  toLowerCase word = "authenticity" ->
  exists c s', (word ++ s)%string = String c s' /\
               startsWith (toLowerCase (word ++ s)) "authenticity" = true /\
               drop 12 (word ++ s) = s.
Proof.
  intros H.
  do 12 (destruct word as [| ? word]; [discriminate H |]).
  destruct word; [| discriminate H].
  eexists _, _. split; [reflexivity |]. split.
  - rewrite SocialMediaFacts.toLowerCase_app, H.
    apply SocialMediaFacts.startsWith_spec. eauto.
  - reflexivity.
Qed.

Section Facts.

Variable toISOString : Z -> string.

(** X20.  The score is read from the first number that follows the first
    occurrence of the word authenticity on its line, whatever that number
    means.  For an answer of the form [pre], the word in any letter case,
    [mid], [rest], where [pre] holds no letter a, [mid] stays on the line
    without a digit and [rest] begins with a digit, the score reported is
    the number at the start of [rest], clamped.  In particular an answer
    whose first mention of authenticity is followed by the range 0-1, as in
    the heading of the prompt, is given the score 0 and the verdict fake,
    whatever it goes on to say. *)
Theorem score_is_the_first_number_after_the_word
    (pre word mid rest imageUrl : string) (now : Z) :
  includes (toLowerCase pre) "a" = false ->
  toLowerCase word = "authenticity" ->
  plain_run mid = true -> numeral_ahead rest = true ->
  let r := parseGeminiVerificationResponse toISOString
             (pre ++ word ++ mid ++ rest) imageUrl now in
  get_prop r "authenticity_score" = JNum (clamp01 (parseFloat (capture_number rest))) /\
  (forall tail, rest = ("0-" ++ tail)%string ->
     get_prop r "authenticity_score" = JNum 0 /\
     get_prop r "status" = JStr "fake" /\
     get_prop r "flags" = strings ["manipulation_detected"]).
Proof.
  intros Hpre Hword Hmid Hrest r.
  assert (Hmatch : match_authenticity (pre ++ word ++ mid ++ rest)
                   = Some (capture_number rest)).
  { rewrite (match_after_prefix _ _ Hpre).
    destruct (word_matches word (mid ++ rest) Hword) as (c & s' & E & Hstart & Hdrop).
    assert (Hgoal : match match_authenticity (String c s') with
                    | Some g => Some g
                    | None => None
                    end = Some (capture_number rest)).
    { cbn [match_authenticity]. rewrite <- E, Hstart, Hdrop.
      now rewrite (lazy_to_first_digit _ _ Hmid Hrest). }
    rewrite E. destruct (match_authenticity (String c s')); [exact Hgoal | discriminate Hgoal]. }
  subst r. unfold parseGeminiVerificationResponse. cbv zeta. rewrite Hmatch.
  split; [reflexivity |].
  intros tail ->. cbn [get_prop lookup_field]. simpl (String.eqb _ _). cbv iota.
  assert (Hzero : parseFloat (capture_number ("0-" ++ tail)) =
                  (inject_Z 0 + inject_Z 0 / inject_Z 1)%Q) by reflexivity.
  rewrite Hzero. repeat split.
Qed.

End Facts.

Lemma score_is_the_first_number_after_the_word_witness :
  get_prop (parseGeminiVerificationResponse VerdictSpec.noon echoing_answer
              "http://example.com/a.jpg" 0) "status" = JStr "fake".
Proof.
  refine (proj1 (proj2 (proj2 (score_is_the_first_number_after_the_word
                                 VerdictSpec.noon "1. " "Authenticity"
                                 " assessment (scale "
                                 "0-1): 0.95, the image is genuine."
                                 "http://example.com/a.jpg" 0 _ _ _ _)
                          "1): 0.95, the image is genuine." _)));
    reflexivity.
Defined.

End ScoreFacts.

(** * Properties of the resources served *)

Module NearbyFacts.

Import Proximity ProximitySpec ProximityFacts ResourceTypes NearbySpec.

Local Open Scope R_scope.

(** ** The haversine distance *)

Lemma atan2_of_roots (a b : R) : 0 <= atan2 (sqrt a) (sqrt b) <= PI / 2.
Proof.
  pose proof PI_RGT_0 as Hpi.
  pose proof (sqrt_pos a) as Ha. pose proof (sqrt_pos b) as Hb.
  unfold atan2.
  destruct (Rltb 0 (sqrt b)) eqn:E1.
  - apply Rltb_true in E1.
    pose proof (atan_bound (sqrt a / sqrt b)) as [_ Hhi].
    split; [| lra].
    destruct (Req_dec (sqrt a) 0) as [E | E].
    + rewrite E. unfold Rdiv. rewrite Rmult_0_l, atan_0. lra.
    + assert (0 < sqrt a / sqrt b) by (apply Rdiv_lt_0_compat; lra).
      pose proof (atan_increasing 0 (sqrt a / sqrt b) H) as Hinc.
      rewrite atan_0 in Hinc. lra.
  - destruct (Rltb (sqrt b) 0) eqn:E2; [apply Rltb_true in E2; lra |].
    destruct (Rltb 0 (sqrt a)) eqn:E3; [lra |].
    destruct (Rltb (sqrt a) 0) eqn:E4; [apply Rltb_true in E4; lra |].
    lra.
Qed.

(** X21.  The distance computed between two points does not depend on their
    order, is zero from a point to itself, is never negative and never
    exceeds half the circumference of the sphere of radius 6371 km. *)
Theorem distance_is_symmetric_and_bounded (lat1 lng1 lat2 lng2 : R) :
  calculateDistance lat1 lng1 lat2 lng2 = calculateDistance lat2 lng2 lat1 lng1 /\
  calculateDistance lat1 lng1 lat1 lng1 = 0 /\
  0 <= calculateDistance lat1 lng1 lat2 lng2 <= 6371 * PI.
Proof.
  split; [| split].
  - unfold calculateDistance. cbv zeta.
    replace ((lat1 - lat2) * PI / 180 / 2) with (- ((lat2 - lat1) * PI / 180 / 2)) by lra.
    replace ((lng1 - lng2) * PI / 180 / 2) with (- ((lng2 - lng1) * PI / 180 / 2)) by lra.
    rewrite !sin_neg.
    set (s := sin ((lat2 - lat1) * PI / 180 / 2)).
    set (u := sin ((lng2 - lng1) * PI / 180 / 2)).
    replace (- s * - s + cos (lat2 * PI / 180) * cos (lat1 * PI / 180) * - u * - u)
      with (s * s + cos (lat1 * PI / 180) * cos (lat2 * PI / 180) * u * u) by ring.
    reflexivity.
  - unfold calculateDistance. cbv zeta.
    replace ((lat1 - lat1) * PI / 180 / 2) with 0 by lra.
    replace ((lng1 - lng1) * PI / 180 / 2) with 0 by lra.
    rewrite sin_0.
    replace (0 * 0 + cos (lat1 * PI / 180) * cos (lat1 * PI / 180) * 0 * 0) with 0 by ring.
    replace (1 - 0) with 1 by ring.
    rewrite sqrt_0, sqrt_1. unfold atan2.
    rewrite (proj2 (Rltb_true 0 1)) by lra.
    unfold Rdiv. rewrite Rmult_0_l, atan_0. ring.
  - unfold calculateDistance. cbv zeta.
    match goal with
    | |- context [atan2 (sqrt ?a) (sqrt ?b)] => pose proof (atan2_of_roots a b) as H
    end.
    lra.
Qed.

(** ** The proximity filter returns all that is within the radius *)

Lemma insert_perm (a : resource) (l : list resource) :
  Permutation (insert a l) (a :: l).
Proof.
  induction l as [| b l IH]; simpl; [reflexivity |].
  destruct (not_after a b); [reflexivity |].
  rewrite IH. apply perm_swap.
Qed.

Lemma sort_perm (l : list resource) : Permutation (sort l) l.
Proof.
  induction l as [| a l IH]; simpl; [reflexivity |].
  rewrite insert_perm. now constructor.
Qed.

Lemma forget_visit (lat lng radiusKm : R) (r : resource) :
  forget (snd (visit lat lng radiusKm r)) = forget r.
Proof.
  unfold visit. destruct (coordinates r) as [[resourceLng resourceLat] |] eqn:Hc;
    [| reflexivity].
  unfold forget. simpl. now rewrite Hc.
Qed.

Lemma visit_within (lat lng radiusKm : R) (r : resource) :
  fst (visit lat lng radiusKm r) = true <-> within lat lng radiusKm r.
Proof.
  unfold visit, within, distance_from.
  destruct (coordinates r) as [[resourceLng resourceLat] |]; simpl.
  - rewrite Rleb_true. split.
    + intros H. eauto.
    + intros (d & E & H). now injection E as <-.
  - split; [discriminate | intros (d & E & _); discriminate E].
Qed.

Lemma calculateDistance_haversine (lat1 lng1 lat2 lng2 : R) :
  calculateDistance lat1 lng1 lat2 lng2 =
  6371 * (2 * atan2 (sqrt (haversine lat1 lng1 lat2 lng2))
                    (sqrt (1 - haversine lat1 lng1 lat2 lng2))).
Proof. reflexivity. Qed.

(** A haversine term above one half belongs to a distance of more than
    10000 km: a quarter of the circumference is about 10007.5 km. *)
Lemma above_half_is_far (a : R) :
  1 / 2 < a -> 10000 < 6371 * (2 * atan2 (sqrt a) (sqrt (1 - a))).
Proof.
  intros Ha. pose proof PI_bounds as Hpi.
  assert (Hroot : 0 < sqrt a) by (apply sqrt_lt_R0; lra).
  destruct (Rle_dec (1 - a) 0) as [Hneg | Hpos].
  - assert (E : sqrt (1 - a) = 0).
    { destruct (Req_dec (1 - a) 0) as [-> | Hne]; [apply sqrt_0 |].
      apply sqrt_neg_0. lra. }
    rewrite E. unfold atan2, Rltb.
    destruct (Rlt_dec 0 0) as [H | _]; [lra |].
    destruct (Rlt_dec 0 (sqrt a)) as [_ | H]; [lra | contradiction].
  - assert (Hlow : 0 < sqrt (1 - a)) by (apply sqrt_lt_R0; lra).
    assert (Hlt : sqrt (1 - a) < sqrt a) by (apply sqrt_lt_1_alt; lra).
    assert (Hratio : 1 < sqrt a / sqrt (1 - a)).
    { apply (Rmult_lt_reg_r (sqrt (1 - a))); [exact Hlow |].
      unfold Rdiv. rewrite Rmult_assoc, Rinv_l by lra. lra. }
    unfold atan2. rewrite (proj2 (Rltb_true 0 (sqrt (1 - a))) Hlow).
    pose proof (atan_increasing 1 (sqrt a / sqrt (1 - a)) Hratio) as Hinc.
    rewrite atan_1 in Hinc. lra.
Qed.

(** At latitudes between -90 and 90 the cosine of the haversine term is not
    negative. *)
Lemma latitude_cos (lat : R) : latitude lat -> 0 <= cos (lat * PI / 180).
Proof.
  intros [Hlo Hhi]. pose proof PI_RGT_0 as Hpi.
  apply cos_ge_0; nra.
Qed.

(** X22.  For a centre and resources at latitudes between -90 and 90 and a
    radius of at most 10000 km, the proximity filter only drops what is out
    of reach and reorders the rest: its result is a rearrangement of the
    resources that have coordinates within the radius, each with its
    rounded distance written on it and otherwise unchanged.  So no resource
    within the radius is left out, and none is returned twice.  For every
    resource within the radius the two cosines of the haversine term are not
    negative and the term is at most one half, so that both square roots of
    [calculateDistance] are taken well inside their domain. *)
Theorem nobody_within_the_radius_is_left_out
    (resources : list resource) (lat lng radiusKm : R) :
  latitude lat -> Forall placed resources -> radiusKm <= 10000 ->
  let found := filterResourcesByDistance resources lat lng radiusKm in
  Permutation found
    (map snd (List.filter fst (map (visit lat lng radiusKm) resources))) /\
  (forall r, In r resources -> within lat lng radiusKm r ->
     exists r', In r' found /\ forget r' = forget r /\
                annotated lat lng radiusKm r') /\
  (forall r', In r' found ->
     exists r, In r resources /\ within lat lng radiusKm r /\ forget r' = forget r) /\
  length found =
    length (List.filter (fun r => fst (visit lat lng radiusKm r)) resources) /\
  (forall r resourceLng resourceLat,
     In r resources -> coordinates r = Some (resourceLng, resourceLat) ->
     within lat lng radiusKm r ->
     0 <= cos (lat * PI / 180) /\ 0 <= cos (resourceLat * PI / 180) /\
     haversine lat lng resourceLat resourceLng <= 1 / 2).
Proof.
  intros Hlat Hplaced Hradius. cbv zeta. unfold filterResourcesByDistance.
  pose proof (sort_perm (map snd (List.filter fst (map (visit lat lng radiusKm) resources))))
    as Hperm.
  split; [exact Hperm |]. split; [| split; [| split]].
  - intros r Hin Hw.
    exists (snd (visit lat lng radiusKm r)).
    assert (Hkept : fst (visit lat lng radiusKm r) = true) by now apply visit_within.
    split; [| split].
    + apply sort_In. eapply kept_In; [exact Hin |].
      rewrite <- Hkept. now destruct (visit lat lng radiusKm r).
    + apply forget_visit.
    + now apply visit_kept.
  - intros r' Hin. apply (Permutation_in _ Hperm) in Hin.
    apply in_map_iff in Hin as ([kept r0] & E & Hin). simpl in E. subst r0.
    apply filter_In in Hin as [Hin Hkept]. simpl in Hkept. subst kept.
    apply in_map_iff in Hin as (r & E & Hin). exists r.
    split; [exact Hin |].
    assert (Hfst : fst (visit lat lng radiusKm r) = true) by now rewrite E.
    assert (Hsnd : snd (visit lat lng radiusKm r) = r') by now rewrite E.
    split; [now apply visit_within |].
    rewrite <- Hsnd. apply forget_visit.
  - rewrite (Permutation_length Hperm), length_map.
    clear Hperm Hplaced. induction resources as [| r resources IH]; simpl; [reflexivity |].
    destruct (fst (visit lat lng radiusKm r)); simpl; now rewrite IH.
  - intros r resourceLng resourceLat Hin Hc (d & Hd & Hle).
    rewrite List.Forall_forall in Hplaced.
    split; [now apply latitude_cos |].
    split; [apply latitude_cos; exact (Hplaced r Hin _ _ Hc) |].
    unfold distance_from in Hd. rewrite Hc in Hd. injection Hd as <-.
    rewrite calculateDistance_haversine in Hle.
    destruct (Rle_dec (haversine lat lng resourceLat resourceLng) (1 / 2))
      as [Hhalf | Hfar]; [exact Hhalf |].
    pose proof (above_half_is_far (haversine lat lng resourceLat resourceLng)) as H.
    lra.
Qed.

(** The distance from a point to itself. *)
Lemma distance_to_itself (lat lng : R) : calculateDistance lat lng lat lng = 0.
Proof.
  unfold calculateDistance. cbv zeta.
  replace ((lat - lat) * PI / 180 / 2) with 0 by lra.
  replace ((lng - lng) * PI / 180 / 2) with 0 by lra.
  rewrite sin_0.
  replace (0 * 0 + cos (lat * PI / 180) * cos (lat * PI / 180) * 0 * 0) with 0 by ring.
  replace (1 - 0) with 1 by ring.
  rewrite sqrt_0, sqrt_1. unfold atan2.
  rewrite (proj2 (Rltb_true 0 1)) by lra.
  unfold Rdiv. rewrite Rmult_0_l, atan_0. ring.
Qed.

(** A query of ten kilometres around the first fixture finds it. *)
Lemma nobody_within_the_radius_is_left_out_witness :
  exists r',
    In r' (filterResourcesByDistance mockResources 40.7831 (-73.9857) 10) /\
    forget r' = red_cross_shelter.
Proof.
  destruct (nobody_within_the_radius_is_left_out mockResources 40.7831 (-73.9857) 10)
    as (_ & Hfound & _).
  - unfold latitude. lra.
  - unfold mockResources.
    repeat (apply List.Forall_cons;
            [intros resourceLng resourceLat H; injection H as <- <-;
             unfold latitude; lra |]).
    apply List.Forall_nil.
  - lra.
  - destruct (Hfound red_cross_shelter) as (r' & Hin & Hforget & _).
    + simpl. auto.
    + exists 0. split; [| lra].
      unfold distance_from. simpl. now rewrite distance_to_itself.
    + exists r'. split; [exact Hin | exact Hforget].
Defined.

(** ** The fallback list *)

Lemma fixtures_unannotated : Forall (fun r => forget r = r) mockResources.
Proof. repeat constructor. Qed.

Lemma slice0_Forall {A} (P : A -> Prop) (limit : Z) (l : list A) :
  Forall P l -> Forall P (slice0 limit l).
Proof. intros H. unfold slice0. destruct (0 <=? limit)%Z; now apply firstn_Forall. Qed.

Lemma slice0_length {A} (limit : Z) (l : list A) :
  (length (slice0 limit l) <= length l)%nat /\
  ((0 <= limit)%Z -> (length (slice0 limit l) <= Z.to_nat limit)%nat).
Proof.
  unfold slice0. destruct (Z.leb_spec 0 limit).
  - rewrite length_firstn. lia.
  - rewrite length_firstn. lia.
Qed.

Lemma filter_length_le {A} (f : A -> bool) (l : list A) :
  (length (List.filter f l) <= length l)%nat.
Proof. induction l as [| a l IH]; simpl; [lia |]. destruct (f a); simpl; lia. Qed.

(** X23.  The list served from the fixtures when the store query fails never
    holds a resource of another disaster, of another status or, when a type
    is asked for, of another type; every resource in it is one of the
    fixtures, the distance written on it apart; and it is no longer than the
    limit. *)
Theorem fallback_serves_only_what_was_asked_for
    (disasterId status_ : string) (type_ : option string)
    (latitude longitude radiusKm : option R) (limit : Z) :
  let served := fallback_resources disasterId status_ type_
                  latitude longitude radiusKm limit in
  (forall r, In r served ->
     disaster_id r = disasterId /\ status r = status_ /\
     (forall t, type_ = Some t -> type r = t) /\
     In (forget r) mockResources) /\
  (length served <= length mockResources)%nat /\
  ((0 <= limit)%Z -> (length served <= Z.to_nat limit)%nat).
Proof.
  cbv zeta. unfold fallback_resources. cbv zeta.
  set (asked := fun r : resource =>
                  disaster_id (forget r) = disasterId /\ status (forget r) = status_ /\
                  (forall t, type_ = Some t -> type (forget r) = t) /\
                  In (forget r) mockResources).
  set (l1 := List.filter (fun r => (String.eqb (disaster_id r) disasterId &&
                                   String.eqb (status r) status_)%bool) mockResources).
  set (l2 := match type_ with
             | Some t => List.filter (fun r => String.eqb (type r) t) l1
             | None => l1
             end).
  set (l3 := match given latitude, given longitude with
             | Some lat, Some lng =>
                 match radiusKm with
                 | Some radius => filterResourcesByDistance l2 lat lng radius
                 | None => []
                 end
             | _, _ => l2
             end).
  assert (H1 : Forall (fun r => disaster_id r = disasterId /\ status r = status_ /\
                                In (forget r) mockResources) l1).
  { apply List.Forall_forall. intros r Hr. apply filter_In in Hr as [Hin Hr].
    apply andb_true_iff in Hr as [Hd Hs].
    apply String.eqb_eq in Hd. apply String.eqb_eq in Hs.
    repeat split; auto.
    pose proof fixtures_unannotated as Hf.
    rewrite List.Forall_forall in Hf. now rewrite (Hf r Hin). }
  assert (H2 : Forall asked l2).
  { unfold l2. destruct type_ as [t |].
    - apply List.Forall_forall. intros r Hr. apply filter_In in Hr as [Hin Hr].
      apply String.eqb_eq in Hr. rewrite List.Forall_forall in H1.
      destruct (H1 r Hin) as (Hd & Hs & Hf).
      repeat split; auto. intros t' E. injection E as <-. exact Hr.
    - eapply List.Forall_impl; [| exact H1]. intros r (Hd & Hs & Hf).
      repeat split; auto. discriminate. }
  assert (Hlen2 : (length l2 <= length mockResources)%nat).
  { unfold l2. pose proof (filter_length_le
                             (fun r => (String.eqb (disaster_id r) disasterId &&
                                        String.eqb (status r) status_)%bool)
                             mockResources).
    destruct type_ as [t |]; [| exact H].
    pose proof (filter_length_le (fun r => String.eqb (type r) t) l1). fold l1 in H. lia. }
  assert (H3 : Forall asked l3 /\ (length l3 <= length mockResources)%nat).
  { unfold l3. destruct (given latitude) as [lat |]; [| auto].
    destruct (given longitude) as [lng |]; [| auto].
    destruct radiusKm as [radius |]; [| split; [constructor | simpl; lia]].
    split.
    - unfold filterResourcesByDistance. apply sort_Forall.
      clear -H2. induction H2 as [| r l Hr _ IH]; simpl; [constructor |].
      destruct (fst (visit lat lng radius r)); simpl; [| exact IH].
      constructor; [| exact IH].
      unfold asked in *. now rewrite forget_visit.
    - pose proof (filterResourcesByDistance_length l2 lat lng radius). lia. }
  destruct H3 as [H3 Hlen3].
  split; [| split].
  - pose proof (slice0_Forall asked limit l3 H3) as Hs.
    rewrite List.Forall_forall in Hs. intros r Hr.
    destruct (Hs r Hr) as (Hd & Hst & Hty & Hf). repeat split; auto.
  - pose proof (slice0_length limit l3) as [H _]. lia.
  - apply slice0_length.
Qed.

(** ** Resource types *)

Local Open Scope Z_scope.

Lemma add_In (seen : list string) (x y : string) :
  In y (add seen x) <-> In y seen \/ y = x.
Proof.
  unfold add. destruct (existsb (String.eqb x) seen) eqn:E.
  - apply existsb_exists in E as (z & Hz & E). apply String.eqb_eq in E. subst z.
    split; [auto | intros [H | ->]; auto].
  - split.
    + intros H. apply in_app_or in H as [H | [<- | []]]; auto.
    + intros [H | ->]; apply in_or_app; simpl; auto.
Qed.

Lemma add_NoDup (seen : list string) (x : string) :
  List.NoDup seen -> List.NoDup (add seen x).
Proof.
  intros H. unfold add. destruct (existsb (String.eqb x) seen) eqn:E; [exact H |].
  apply List.NoDup_app; [exact H | repeat constructor; intros [] |].
  intros y Hy [Exy | []]. subst y.
  assert (existsb (String.eqb x) seen = true); [| congruence].
  apply existsb_exists. exists x. split; [exact Hy | apply String.eqb_refl].
Qed.

Lemma fold_add (l seen : list string) :
  (List.NoDup seen -> List.NoDup (fold_left add l seen)) /\
  (forall y, In y (fold_left add l seen) <-> In y seen \/ In y l).
Proof.
  revert seen. induction l as [| x l IH]; intros seen; simpl.
  - split; [auto | intros y; tauto].
  - destruct (IH (add seen x)) as [Hn Hi]. split.
    + intros H. apply Hn. now apply add_NoDup.
    + intros y. rewrite Hi, add_In. intuition.
Qed.

Lemma fold_sum (w : resource -> Z) (l : list resource) (acc : Z) :
  fold_left (fun sum r => sum + w r) l acc = acc + total (map w l).
Proof.
  revert acc. induction l as [| r l IH]; intros acc; simpl.
  - unfold total. simpl. lia.
  - rewrite IH. unfold total. simpl. lia.
Qed.

Lemma length_total {A} (l : list A) :
  Z.of_nat (length l) = total (map (fun _ => 1) l).
Proof. unfold total. induction l as [| a l IH]; simpl length; simpl; lia. Qed.

Lemma filter_both {A} (p q : A -> bool) (l : list A) :
  List.filter (fun a => (p a && q a)%bool) l = List.filter q (List.filter p l).
Proof.
  induction l as [| a l IH]; simpl; [reflexivity |].
  destruct (p a); simpl; [destruct (q a); now rewrite IH | exact IH].
Qed.

Lemma filter_all {A} (f : A -> bool) (l : list A) :
  (forall a, In a l -> f a = true) -> List.filter f l = l.
Proof.
  induction l as [| a l IH]; intros H; simpl; [reflexivity |].
  rewrite (H a) by now left. f_equal. apply IH. intros a' Ha'. apply H. now right.
Qed.

Lemma total_cons (x : Z) (l : list Z) : total (x :: l) = x + total l.
Proof. reflexivity. Qed.

(** The sum over a list of distinct types of the weights of the resources
    of each type is the sum of the weights of the resources whose type is
    listed. *)
Lemma by_type_total (w : resource -> Z) (tys : list string) (l : list resource) :
  List.NoDup tys ->
  total (map (fun ty => total (map w (List.filter (fun r => String.eqb (type r) ty) l)))
             tys) =
  total (map w (List.filter (fun r => existsb (String.eqb (type r)) tys) l)).
Proof.
  intros Hnd. induction l as [| r l IH].
  - simpl. clear Hnd. induction tys as [| ty tys IHt]; [reflexivity |].
    cbn [map]. rewrite total_cons, IHt. reflexivity.
  - assert (Hstep : forall tys, List.NoDup tys ->
              total (map (fun ty => total (map w (List.filter
                                                     (fun r => String.eqb (type r) ty)
                                                     (r :: l)))) tys) =
              (if existsb (String.eqb (type r)) tys then w r else 0) +
              total (map (fun ty => total (map w (List.filter
                                                     (fun r => String.eqb (type r) ty) l)))
                         tys)).
    { clear. intros tys. induction tys as [| ty tys IHt]; intros Hnd.
      - reflexivity.
      - apply List.NoDup_cons_iff in Hnd as [Hty Hnd].
        cbn [map existsb]. rewrite !total_cons, (IHt Hnd). cbn [List.filter].
        destruct (String.eqb_spec (type r) ty) as [E | _]; cbn [orb map].
        + assert (Hno : existsb (String.eqb (type r)) tys = false).
          { apply not_true_is_false. intros H. apply existsb_exists in H as (z & Hz & H).
            apply String.eqb_eq in H. congruence. }
          rewrite Hno, total_cons. lia.
        + lia. }
    rewrite (Hstep tys Hnd), IH. cbn [List.filter].
    destruct (existsb (String.eqb (type r)) tys); cbn [map]; rewrite ?total_cons; lia.
Qed.

(** X24.  The resource types of a disaster are listed without repetition,
    they are exactly the types that occur among its resources, each with at
    least one resource, and they partition the resources: the counts add up
    to the number of resources of the disaster and the available capacities
    to their total free capacity. *)
Theorem resource_types_partition_the_resources
    (resources : list resource) (disasterId : string) :
  let mine := List.filter (fun r => String.eqb (disaster_id r) disasterId) resources in
  let rows := typeCounts resources disasterId in
  List.NoDup (map tc_type rows) /\
  (forall ty, In ty (map tc_type rows) <-> exists r, In r mine /\ type r = ty) /\
  Forall (fun row => 1 <= count row) rows /\
  total (map count rows) = Z.of_nat (length mine) /\
  total (map available_capacity rows) =
    total (map (fun r => capacity r - current_occupancy r) mine).
Proof.
  cbv zeta.
  set (mine := List.filter (fun r => String.eqb (disaster_id r) disasterId) resources).
  unfold typeCounts. cbv zeta. fold mine.
  set (tys := unique (map type mine)).
  destruct (fold_add (map type mine) []) as [Hnd Hin]. fold (unique (map type mine)) in *.
  fold tys in Hnd, Hin. specialize (Hnd (List.NoDup_nil _)).
  assert (Hty : forall ty, In ty tys <-> exists r, In r mine /\ type r = ty).
  { intros ty. rewrite Hin, in_map_iff. simpl. split.
    - intros [[] | (r & E & Hr)]. eauto.
    - intros (r & Hr & E). right. eauto. }
  assert (Hall : List.filter (fun r => existsb (String.eqb (type r)) tys) mine = mine).
  { assert (H : forall r, In r mine -> existsb (String.eqb (type r)) tys = true).
    { intros r Hr. apply existsb_exists. exists (type r).
      split; [apply Hty; eauto | apply String.eqb_refl]. }
    now apply filter_all. }
  rewrite !map_map. cbn [tc_type count available_capacity].
  split; [now rewrite map_id |]. split; [now rewrite map_id |].
  split; [| split].
  - apply List.Forall_forall. intros row Hrow.
    apply in_map_iff in Hrow as (ty & <- & Hin'). cbn [count].
    apply Hty in Hin' as (r & Hr & E).
    rewrite filter_both. fold mine.
    assert (In r (List.filter (fun r => String.eqb (type r) ty) mine)).
    { apply filter_In. split; [exact Hr | now apply String.eqb_eq]. }
    destruct (List.filter (fun r => String.eqb (type r) ty) mine); [destruct H |].
    simpl length. lia.
  - erewrite map_ext; [| intros ty; rewrite filter_both; fold mine;
                         apply length_total].
    rewrite (by_type_total (fun _ => 1) tys mine Hnd), Hall. symmetry. apply length_total.
  - erewrite map_ext; [| intros ty; rewrite filter_both; fold mine;
                         rewrite fold_sum; apply Z.add_0_l].
    now rewrite (by_type_total _ tys mine Hnd), Hall.
Qed.

End NearbyFacts.

(** * Properties of the centre of a proximity query *)

Module CentreFacts.

Import Proximity Centre.

Section Facts.

Variable parseFloat : string -> number.

Lemma not_false (v : option number) :
  not_ v = false -> exists r, v = Some (Num r) /\ r <> 0%R.
Proof.
  destruct v as [[| r] |]; simpl; try discriminate.
  destruct (Req_dec_T r 0); [discriminate |]. eauto.
Qed.

(** X25.  A centre that is named is never ignored.  A request that gives
    [lat] or [lng] is answered 400 unless both are given and both are read
    as numbers other than zero; in particular a centre on the equator or on
    the prime meridian is turned away as invalid.  When such a request goes
    on and the store query fails, the list served from the fixtures is the
    one filtered by distance from that centre (empty when the radius is not
    a number), never the unfiltered list.  A request that gives neither
    parameter is never turned away for its coordinates. *)
Theorem a_named_centre_is_never_ignored
    (lat lng radius : option string) (disasterId status_ : string)
    (type_ : option string) (limit : Z) :
  (present lat = false -> present lng = false ->
   invalid_coordinates parseFloat lat lng = false) /\
  (forall s, lat = Some s \/ lng = Some s -> s <> "" -> parseFloat s = Num 0 ->
             invalid_coordinates parseFloat lat lng = true) /\
  ((present lat || present lng)%bool = true ->
   invalid_coordinates parseFloat lat lng = false ->
   exists la lo,
     la <> 0%R /\ lo <> 0%R /\
     parsed parseFloat lat = Some (Num la) /\ parsed parseFloat lng = Some (Num lo) /\
     fallback_resources disasterId status_ type_
       (coordinate parseFloat lat) (coordinate parseFloat lng)
       (radius_km parseFloat radius) limit =
     slice0 limit
       match radius_km parseFloat radius with
       | Some r =>
           filterResourcesByDistance
             (match type_ with
              | Some t =>
                  List.filter (fun r => String.eqb (type r) t)
                    (List.filter (fun r => (String.eqb (disaster_id r) disasterId &&
                                            String.eqb (status r) status_)%bool)
                                 mockResources)
              | None =>
                  List.filter (fun r => (String.eqb (disaster_id r) disasterId &&
                                         String.eqb (status r) status_)%bool)
                              mockResources
              end) la lo r
       | None => []
       end).
Proof.
  split; [| split].
  - intros H1 H2. unfold invalid_coordinates. now rewrite H1, H2.
  - intros s Hs Hne Hzero. apply String.eqb_neq in Hne.
    unfold invalid_coordinates. cbv zeta.
    assert (Hnot : forall p, p = Some s -> present p = true /\ not_ (parsed parseFloat p) = true).
    { intros p ->. unfold present, parsed, not_. rewrite Hne, Hzero.
      split; [reflexivity |]. destruct (Req_dec_T 0 0); [reflexivity | contradiction]. }
    destruct Hs as [Hs | Hs]; destruct (Hnot _ Hs) as [-> ->];
      rewrite ?orb_true_r; reflexivity.
  - intros Hgiven Hvalid. unfold invalid_coordinates in Hvalid. cbv zeta in Hvalid.
    rewrite Hgiven in Hvalid. cbn [andb] in Hvalid.
    apply orb_false_iff in Hvalid as [Hvalid _].
    apply orb_false_iff in Hvalid as [Hvalid _].
    apply orb_false_iff in Hvalid as [Hla Hlo].
    apply not_false in Hla as (la & Hla & Hla0).
    apply not_false in Hlo as (lo & Hlo & Hlo0).
    exists la, lo. repeat (split; [assumption |]).
    unfold fallback_resources, coordinate, given. rewrite Hla, Hlo.
    destruct (Req_dec_T la 0); [contradiction |].
    destruct (Req_dec_T lo 0); [contradiction |].
    reflexivity.
Qed.

End Facts.

End CentreFacts.

(** * Properties of hashtags and of the priority board *)

Module ReportsFacts.

Import SocialMedia SocialMediaSpec Reports ReportsSpec TextFacts.

(** ** Hashtags *)

Lemma all_word_app (a b : string) :
  all_word (a ++ b) = (all_word a && all_word b)%bool.
Proof.
  induction a as [| c a IH]; [reflexivity |].
  rewrite append_cons. cbn [all_word]. now rewrite IH, andb_assoc.
Qed.

(** Every tag found, and the one in progress, is made of word characters. *)
Lemma scan_words (s : string) :
  forall tag, (forall w, tag = Some w -> all_word w = true) ->
              Forall (fun t => all_word t = true /\ t <> "") (scan tag s).
Proof.
  assert (Hclose : forall tag, (forall w, tag = Some w -> all_word w = true) ->
                               Forall (fun t => all_word t = true /\ t <> "") (close tag)).
  { intros [w |] H; simpl; [| constructor].
    destruct (String.eqb_spec w ""); constructor; [| constructor].
    split; [now apply H | assumption]. }
  induction s as [| c s IH]; intros tag Htag; simpl.
  - now apply Hclose.
  - destruct tag as [w |].
    + destruct (is_word c) eqn:Hc.
      * apply IH. intros w' E. injection E as <-.
        rewrite all_word_app. cbn [all_word]. now rewrite (Htag w eq_refl), Hc.
      * apply Forall_app. split; [now apply Hclose |].
        destruct (Ascii.eqb c "#"); apply IH; intros w' E;
          [now injection E as <- | discriminate E].
    + destruct (Ascii.eqb c "#"); apply IH; intros w' E;
        [now injection E as <- | discriminate E].
Qed.

(** A hash sign ends the match in progress and starts another. *)
Lemma scan_hash (tag : option string) (s : string) :
  scan tag (String "#" s) = (close tag ++ scan (Some "") s)%list.
Proof. destruct tag as [w |]; reflexivity. Qed.

Lemma scan_before_hash (pre rest : string) :
  forall tag,
    scan tag (pre ++ String "#" rest) = (scan tag pre ++ scan (Some "") rest)%list.
Proof.
  induction pre as [| c pre IH]; intros tag.
  - rewrite append_nil, scan_hash. reflexivity.
  - rewrite append_cons. cbn [scan]. destruct tag as [w |].
    + destruct (is_word c); [apply IH |].
      rewrite <- app_assoc. f_equal. destruct (Ascii.eqb c "#"); apply IH.
    + destruct (Ascii.eqb c "#"); apply IH.
Qed.

Lemma scan_word (word rest : string) :
  all_word word = true ->
  forall w, scan (Some w) (word ++ rest) = scan (Some (w ++ word)%string) rest.
Proof.
  induction word as [| c word IH]; intros Hw w.
  - now rewrite append_nil, append_nil_r.
  - cbn [all_word] in Hw. apply andb_true_iff in Hw as [Hc Hw].
    rewrite append_cons. cbn [scan]. rewrite Hc, (IH Hw).
    now rewrite append_assoc, append_cons, append_nil.
Qed.

Lemma scan_break (tag : option string) (rest : string) :
  breaks rest = true -> scan tag rest = (close tag ++ scan None rest)%list.
Proof.
  destruct rest as [| c rest]; intros H; simpl.
  - now rewrite app_nil_r.
  - simpl in H. apply negb_true_iff in H. destruct tag as [w |]; [| reflexivity].
    now rewrite H.
Qed.

(** X26.  The tags found in a text are non-empty runs of letters, digits and
    underscores, without the hash sign; and a tag written as a hash sign and
    such a run, up to a character that cannot continue it, is found whatever
    surrounds it: the tags of the whole text are those of what comes before,
    the tag, and those of what comes after. *)
Theorem hashtags_are_found_where_written (pre tag post : string) :
  Forall (fun t => all_word t = true /\ t <> "") (extractHashtags pre) /\
  (all_word tag = true -> tag <> "" -> breaks post = true ->
   extractHashtags (pre ++ "#" ++ tag ++ post) =
   (extractHashtags pre ++ [tag] ++ extractHashtags post)%list).
Proof.
  split.
  - apply scan_words. discriminate.
  - intros Hw Hne Hb. unfold extractHashtags.
    change ("#" ++ tag ++ post)%string with (String "#" (tag ++ post)).
    rewrite scan_before_hash, (scan_word _ _ Hw), (scan_break _ _ Hb).
    rewrite append_nil. cbn [close].
    destruct (String.eqb_spec tag ""); [contradiction | reflexivity].
Qed.

(** ** The priority board *)

Lemma bucket_push (key level : string) (p : post) (b b' : board) :
  push key p b = Returns b' ->
  map fst b' = map fst b /\
  bucket level b' =
    if String.eqb key level then (bucket level b ++ [p])%list else bucket level b.
Proof.
  revert b'. induction b as [| [k l] b IH]; intros b'; simpl; [discriminate |].
  destruct (String.eqb_spec k key) as [-> | Hk].
  - intros H. injection H as <-. simpl. split; [reflexivity |].
    destruct (String.eqb key level); reflexivity.
  - destruct (push key p b) as [rest' | e]; [| discriminate].
    intros H. injection H as <-. destruct (IH rest' eq_refl) as [Hkeys Hb].
    simpl. split; [now rewrite Hkeys |].
    destruct (String.eqb_spec k level) as [-> | _]; [| exact Hb].
    destruct (String.eqb_spec key level) as [-> | _]; [congruence | reflexivity].
Qed.

Lemma push_listed (key : string) (p : post) (b : board) :
  In key (map fst b) -> exists b', push key p b = Returns b'.
Proof.
  induction b as [| [k l] b IH]; simpl; [intros [] |].
  destruct (String.eqb_spec k key) as [-> | Hk]; [eauto |].
  intros [E | H]; [contradiction |].
  destruct (IH H) as [rest' ->]. eauto.
Qed.

Lemma total_posts_buckets (b : board) :
  map fst b = levels ->
  total_posts b =
  Z.of_nat (length (bucket "critical" b)) + Z.of_nat (length (bucket "high" b)) +
  Z.of_nat (length (bucket "normal" b)) + Z.of_nat (length (bucket "low" b)).
Proof.
  destruct b as [| [k1 l1] [| [k2 l2] [| [k3 l3] [| [k4 l4] [| ? ?]]]]];
    try discriminate.
  unfold levels. intros H. injection H as -> -> -> ->.
  unfold total_posts. simpl. lia.
Qed.

Lemma categorize_from_spec (posts : list post) :
  forall b, map fst b = levels ->
    exists b', categorize_from b posts = Returns b' /\
               map fst b' = levels /\
               forall level,
                 bucket level b' =
                 (bucket level b ++
                  map classified
                    (List.filter (fun p => String.eqb (determinePriority (content p)) level)
                                 posts))%list.
Proof.
  induction posts as [| p posts IH]; intros b Hb; simpl.
  - exists b. repeat split; auto. intros level. now rewrite app_nil_r.
  - unfold categorize_one. cbv zeta.
    assert (Hin : In (determinePriority (content p)) (map fst b)).
    { rewrite Hb. unfold determinePriority, levels.
      repeat match goal with
             | |- context [if ?c then _ else _] => destruct c
             end; simpl; auto. }
    destruct (push_listed _ (classified p) b Hin) as [b1 Hpush].
    unfold classified in Hpush. rewrite Hpush.
    assert (Hb1 : map fst b1 = levels).
    { destruct (bucket_push _ "" _ _ _ Hpush) as [Hk _]. congruence. }
    destruct (IH b1 Hb1) as (b' & Hrun & Hkeys & Hbuckets).
    exists b'. split; [exact Hrun |]. split; [exact Hkeys |].
    intros level. rewrite Hbuckets.
    destruct (bucket_push _ level _ _ _ Hpush) as [_ ->].
    destruct (String.eqb (determinePriority (content p)) level); simpl;
      [now rewrite <- app_assoc | reflexivity].
Qed.

(** X27.  The priority board is a partition of the posts by the classifier.
    Filling it never throws; under each of the four levels it holds, in
    their order, exactly the posts whose content the classifier puts there,
    each marked with that level whatever priority it came with; and
    [total_posts] is the number of posts. *)
Theorem board_partitions_the_posts (posts : list post) :
  exists b,
    categorize posts = Returns b /\
    map fst b = levels /\
    (forall level,
       bucket level b =
       map classified
         (List.filter (fun p => String.eqb (determinePriority (content p)) level) posts)) /\
    (forall level p, In p (bucket level b) -> priority p = level /\ In level levels) /\
    total_posts b = Z.of_nat (length posts).
Proof.
  destruct (categorize_from_spec posts empty_board eq_refl) as (b & Hrun & Hkeys & Hb).
  assert (Hbucket : forall level,
            bucket level b =
            map classified
              (List.filter (fun p => String.eqb (determinePriority (content p)) level)
                           posts)).
  { intros level. rewrite Hb. unfold empty_board. simpl.
    repeat match goal with
           | |- context [if ?c then _ else _] => destruct c
           end; reflexivity. }
  exists b. split; [exact Hrun |]. split; [exact Hkeys |]. split; [exact Hbucket |].
  split.
  - intros level p Hp. rewrite Hbucket in Hp.
    apply in_map_iff in Hp as (p0 & <- & Hp0).
    apply filter_In in Hp0 as [_ E]. apply String.eqb_eq in E. simpl.
    split; [exact E |]. rewrite <- E.
    unfold determinePriority, levels.
    repeat match goal with
           | |- context [if ?c then _ else _] => destruct c
           end; simpl; auto.
  - rewrite (total_posts_buckets b Hkeys), !Hbucket, !length_map.
    clear. induction posts as [| p posts IH]; [reflexivity |].
    cbn [List.filter].
    assert (Hone : In (determinePriority (content p)) levels).
    { unfold determinePriority, levels.
      repeat match goal with
             | |- context [if ?c then _ else _] => destruct c
             end; simpl; auto. }
    simpl in Hone.
    destruct Hone as [<- | [<- | [<- | [<- | []]]]]; simpl String.eqb; cbv iota;
      simpl length; lia.
Qed.

End ReportsFacts.

(** * Properties of the read routes of disasters *)

Module QueriesFacts.

Import Handlers Queries.

Section Facts.

Variable message : exn -> string.
Variables created_1 audited_1 created_2 audited_2 : string.

(** X28.  What the read routes of disasters serve matches what was asked.  A
    row that the store finds for an id is returned as is and unmarked.  Mock
    data is served only when the store finds none: for the ids 1 and 2 the
    fixture with that very id, marked as mock data, and 404 for any other
    id.  The list served when the store replies with an error holds, of the
    fixtures, exactly those that carry the tag asked for (all of them
    without a tag), marked as mock data, and [count] is their number; a list
    that the store returns is served unchanged with its length as [count];
    and a reply with neither an error nor data ends in 500.  Reading a
    disaster sends the store one select and never emits. *)
Theorem reads_serve_what_was_asked_for (x : option string) (id : string)
    (tag : option string) (answer : reply) :
  let one := get_disaster message created_1 audited_1 created_2 audited_2 x id answer in
  let many := list_disasters message created_1 audited_1 created_2 audited_2 x tag answer in
  is_Some (Auth.authenticateUser x) ->
  (emitted one = [] /\ calls one = [SelectOne "disasters" "*" [("id", id)]]) /\
  (forall data error,
     answer = Reply data error -> truthy error = false -> truthy data = true ->
     res one = respond 200 [ ("data", data) ]) /\
  (forall data error,
     answer = Reply data error -> truthy error = true \/ truthy data = false ->
     (id = "1" \/ id = "2" ->
      status (res one) = 200 /\
      get_prop (get_prop (body (res one)) "data") "id" = JStr id /\
      In (get_prop (body (res one)) "data")
         (mockDisasters created_1 audited_1 created_2 audited_2) /\
      get_prop (body (res one)) "message" = JStr "Using mock data") /\
     (id <> "1" -> id <> "2" ->
      res one = respond 404 [ ("error", JStr "Disaster not found"); ("id", JStr id) ])) /\
  (forall data error,
     answer = Reply data error -> truthy error = true ->
     exists listed,
       status many = 200 /\
       get_prop (body many) "data" = JArr listed /\
       get_prop (body many) "count" = JNum (inject_Z (Z.of_nat (length listed))) /\
       get_prop (body many) "message" =
         JStr "Using mock data due to database connection issue" /\
       (forall d, In d listed <->
                  In d (mockDisasters created_1 audited_1 created_2 audited_2) /\
                  forall t, tag = Some t ->
                            exists tags, get_prop d "tags" = JArr tags /\ In (JStr t) tags)) /\
  (forall items,
     answer = Reply (JArr items) JNull ->
     many = respond 200 [ ("data", JArr items);
                          ("count", JNum (inject_Z (Z.of_nat (length items)))) ]) /\
  (forall data error,
     answer = Reply data error -> truthy error = false -> is_nullish data = true ->
     status many = 500).
Proof.
  intros one many [user Hu]. subst one many. unfold get_disaster, list_disasters.
  rewrite Hu. cbv zeta.
  split; [destruct answer as [data error | e]; [| split; reflexivity];
          destruct (_ || _)%bool; [destruct (find _ _) |]; split; reflexivity |].
  split; [intros data error -> He Hd; now rewrite He, Hd |].
  split.
  { intros data error -> Hno.
    assert (Hcond : (truthy error || negb (truthy data))%bool = true).
    { destruct Hno as [-> | ->]; [reflexivity | apply orb_true_r]. }
    rewrite Hcond. split.
    - intros [-> | ->]; simpl; repeat split; auto.
    - intros H1 H2. unfold mockDisasters. cbn [find get_prop lookup_field is_string].
      simpl (String.eqb "id" "id"). cbv iota. unfold is_string.
      destruct (String.eqb_spec "1" id) as [E | _]; [congruence |].
      destruct (String.eqb_spec "2" id) as [E | _]; [congruence |].
      reflexivity. }
  split.
  { intros data error -> He. rewrite He. eexists.
    split; [reflexivity |]. split; [reflexivity |]. split; [reflexivity |].
    split; [reflexivity |].
    intros d. destruct tag as [t |].
    - rewrite filter_In. split.
      + intros [Hin Ht]. split; [exact Hin |]. intros t' E. injection E as <-.
        unfold tags_include in Ht.
        destruct (get_prop d "tags") as [| | | | | tags |]; try discriminate Ht.
        exists tags. split; [reflexivity |].
        apply existsb_exists in Ht as (item & Hitem & Ht).
        unfold is_string in Ht. destruct item; try discriminate Ht.
        apply String.eqb_eq in Ht. now subst.
      + intros [Hin Ht]. split; [exact Hin |].
        destruct (Ht t eq_refl) as (tags & E & Hin'). unfold tags_include. rewrite E.
        apply existsb_exists. exists (JStr t). split; [exact Hin' |].
        simpl. apply String.eqb_refl.
    - split; [intros H; split; [exact H | discriminate] | intros [H _]; exact H]. }
  split.
  - intros items ->. reflexivity.
  - intros data error -> He Hd. now rewrite He, Hd.
Qed.

End Facts.

(** A contributor asks for disaster 2 and for the disasters tagged
    "flood" while the store is down. *)
Lemma reads_serve_what_was_asked_for_witness :
  get_prop
    (get_prop (body (res (get_disaster HandlersSpec.text "t1" "t2" "t3" "t4"
                            (Some "citizen1") "2"
                            (Handlers.on_read HandlersSpec.store_down))))
       "data")
    "title" = JStr "California Wildfire".
Proof.
  destruct (reads_serve_what_was_asked_for HandlersSpec.text "t1" "t2" "t3" "t4"
              (Some "citizen1") "2" (Some "flood")
              (Handlers.on_read HandlersSpec.store_down)
              (ex_intro _ _ eq_refl))
    as (_ & _ & Hmock & _).
  destruct (Hmock _ _ eq_refl (or_introl eq_refl)) as [H _].
  destruct (H (or_intror eq_refl)) as (_ & _ & _ & _).
  reflexivity.
Defined.

End QueriesFacts.
